(** * Hawkes log-likelihood with lagged sum-of-exponentials kernels

    A shallow embedding of [ModelHawkesSumExpCustomLag]
    (hawkes_fixed_sumexpkern_lag_loglik_custom.cpp) and the properties
    of its weight cache, loss and gradient.

    Conventions of the embedding:
    - a C++ [double] is a real number ([R]); [std::exp] is [exp] and
      [log] is [ln];
    - an [ulong] used as an array index or a loop counter is a [nat];
      the one [ulong] subtraction of the source ([Total_events]) keeps
      its 64-bit wrap-around;
    - an array is a list, read with [rd] and written with [wr]; an
      access outside the array is the error [OutOfBounds];
    - [TICK_ERROR] is an error result: [InvalidState] in
      [allocate_weights], [DomainError] in [loss_dim_i];
    - the parallel passes run their per-dimension tasks one after the
      other, in increasing order of the dimension. *)

From Stdlib Require Import Reals Lra Lia ZArith.
From stdpp Require Import base list.

Open Scope R_scope.

(** ** Results and errors *)

Inductive error := InvalidState | DomainError | OutOfBounds | OutOfFuel.

Inductive result (A : Type) :=
| Ok (a : A)
| Err (e : error).
Arguments Ok {A} a.
Arguments Err {A} e.

Definition rbind {A B} (m : result A) (f : A -> result B) : result B :=
  match m with
  | Ok a => f a
  | Err e => Err e
  end.

#[global] Instance result_bind : MBind result := fun A B f m => rbind m f.
#[global] Instance result_ret : MRet result := @Ok.

(** ** Arrays *)

(** [a[i]] as an r-value. *)
Definition rd {A} (a : list A) (i : nat) : result A :=
  match a !! i with
  | Some x => Ok x
  | None => Err OutOfBounds
  end.

(** [a[i] = v]. *)
Definition wr {A} (a : list A) (i : nat) (v : A) : result (list A) :=
  if decide (i < length a)%nat then Ok (<[i := v]> a) else Err OutOfBounds.

(** [a[i] += v], a read followed by a write. *)
Definition add_at (a : list R) (i : nat) (v : R) : result (list R) :=
  x ← rd a i; wr a i (x + v).

(** [a[i] -= v]. *)
Definition sub_at (a : list R) (i : nat) (v : R) : result (list R) :=
  x ← rd a i; wr a i (x - v).

(** A zero-initialised array of [n] cells. *)
Definition zeros (n : nat) : list R := replicate n 0.

(** [for (k = start; k != start + n; ++k) body], threading the loop
    state [s]; an error ends the loop. *)
Fixpoint for_range {S} (start n : nat) (body : nat -> S -> result S) (s : S)
  : result S :=
  match n with
  | O => Ok s
  | Datatypes.S n' => s' ← body start s; for_range (Datatypes.S start) n' body s'
  end.

(** ** The model object *)

Record model := {
  (* configuration, set by the constructor *)
  decays : list R;
  lags : list R;
  MaxN_of_f : nat;
  (* bound data *)
  n_nodes : nat;
  n_total_jumps : nat;
  n_jumps_per_node : list nat;
  timestamps : list (list R);
  end_time : R;
  global_timestamps : list R;
  type_n : list nat;
  global_n : list nat;
  (* weight cache *)
  weights_computed : bool;
  Total_events : Z;
  g : list (list R);
  G : list (list R);
  sum_G : list (list R);
  H1 : list (list R);
  H2 : list (list R);
  H3 : list (list R)
}.

Definition get_n_decays (m : model) : nat := length (decays m).

(** The lambda [get_index] of the source: the cell of row [k], source
    node [j] and kernel [u] in a row-major [(M+2) x (D*U)] array. *)
Definition get_index (m : model) (k j u : nat) : nat :=
  (n_nodes m * get_n_decays m * k + get_n_decays m * j + u)%nat.

Definition with_cache (m : model) (gv Gv : list (list R))
  (h1 h2 h3 : list (list R)) : model :=
  {| decays := decays m; lags := lags m; MaxN_of_f := MaxN_of_f m;
     n_nodes := n_nodes m; n_total_jumps := n_total_jumps m;
     n_jumps_per_node := n_jumps_per_node m;
     timestamps := timestamps m; end_time := end_time m;
     global_timestamps := global_timestamps m; type_n := type_n m;
     global_n := global_n m;
     weights_computed := weights_computed m;
     Total_events := Total_events m;
     g := gv; G := Gv; sum_G := sum_G m; H1 := h1; H2 := h2; H3 := h3 |}.

Definition with_sum_G (m : model) (sg : list (list R)) : model :=
  {| decays := decays m; lags := lags m; MaxN_of_f := MaxN_of_f m;
     n_nodes := n_nodes m; n_total_jumps := n_total_jumps m;
     n_jumps_per_node := n_jumps_per_node m;
     timestamps := timestamps m; end_time := end_time m;
     global_timestamps := global_timestamps m; type_n := type_n m;
     global_n := global_n m;
     weights_computed := weights_computed m;
     Total_events := Total_events m;
     g := g m; G := G m; sum_G := sg; H1 := H1 m; H2 := H2 m; H3 := H3 m |}.

Definition with_weights_computed (m : model) (b : bool) : model :=
  {| decays := decays m; lags := lags m; MaxN_of_f := MaxN_of_f m;
     n_nodes := n_nodes m; n_total_jumps := n_total_jumps m;
     n_jumps_per_node := n_jumps_per_node m;
     timestamps := timestamps m; end_time := end_time m;
     global_timestamps := global_timestamps m; type_n := type_n m;
     global_n := global_n m;
     weights_computed := b;
     Total_events := Total_events m;
     g := g m; G := G m; sum_G := sum_G m; H1 := H1 m; H2 := H2 m;
     H3 := H3 m |}.

(** ** [allocate_weights] *)

Definition ulong_sub (a b : Z) : Z := ((a - b) mod 2 ^ 64)%Z.

Definition allocate_weights (m : model) : result model :=
  if decide (n_nodes m = 0%nat) then Err InvalidState
  else
    nj ← rd (n_jumps_per_node m) (n_nodes m);
    let U := length (decays m) in
    let cells := ((n_total_jumps m + 2) * (n_nodes m * U))%nat in
    Ok {| decays := decays m; lags := lags m; MaxN_of_f := MaxN_of_f m;
          n_nodes := n_nodes m; n_total_jumps := n_total_jumps m;
          n_jumps_per_node := n_jumps_per_node m;
     timestamps := timestamps m; end_time := end_time m;
          global_timestamps := global_timestamps m; type_n := type_n m;
          global_n := global_n m;
          weights_computed := weights_computed m;
          Total_events :=
            ulong_sub (Z.of_nat (n_total_jumps m)) (Z.of_nat nj);
          (* only g[0] is given cells, the other entries stay empty *)
          g := <[0%nat := zeros cells]> (replicate (n_nodes m) []);
          G := replicate (n_nodes m) (zeros cells);
          sum_G := replicate (n_nodes m) (zeros (n_nodes m * U));
          H1 := replicate (n_nodes m) (zeros (MaxN_of_f m));
          H2 := replicate (n_nodes m) (zeros (MaxN_of_f m));
          H3 := replicate (n_nodes m) (zeros (MaxN_of_f m * U)) |}.

(** ** [compute_weights_dim_i] *)

(** The two buffers a task works on: [g_i = view(g[0])] and
    [G_i = view(G[i])]. *)
Abbreviation bufs := (list R * list R)%type.

Section KernelColumn.
(** One pass of the [k] loop, for thread [i], kernel [u] (decay and
    lag) and source node [j]. The loop state is the scan pointer
    [last_scanned_index] and the two buffers [g_i = view(g[0])] and
    [G_i = view(G[i])]. *)
Variable m : model.
Variables i u j : nat.
Variables decay lag : R.


(** The body of [if (type_n[last] == j + 1) { ... }]. *)
Definition fold_event (idx : nat) (delta_t : R) (b : bufs) : result bufs :=
  let '(g_i, G_i) := b in
  g_i' ← (if decide (i = 0%nat)
           then add_at g_i idx (decay * exp (- decay * delta_t))
           else Ok g_i);
  G_i' ← add_at G_i idx (1 - exp (- decay * delta_t));
  Ok (g_i', G_i').

(** The [while] loop of step [k]. [fuel] bounds the number of times
    the loop is re-entered after the [break] test; the caller passes
    [n_total_jumps - last], which the loop never exhausts
    ([scan_fuel_irrelevant]). *)
Fixpoint scan (k : nat) (t_k : R) (fuel : nat) (last : nat) (b : bufs)
  : result (nat * bufs) :=
  ts_l ← rd (global_timestamps m) last;
  if Rlt_dec ts_l (t_k - lag) then
    ty ← rd (type_n m) last;
    b' ← (if decide (ty = (j + 1)%nat)
           then fold_event (get_index m k j u) (t_k - lag - ts_l) b
           else Ok b);
    let last' := Datatypes.S last in
    if decide (n_total_jumps m < last')%nat then Ok (last', b')
    else
      match fuel with
      | O => Err OutOfFuel
      | Datatypes.S fuel' => scan k t_k fuel' last' b'
      end
  else Ok (last, b).

(** [t_k]: the timestamp of event [k], or [end_time] at the terminal
    step. *)
Definition time_at (k : nat) : result R :=
  if decide (k <> (1 + n_total_jumps m)%nat)
  then rd (global_timestamps m) k
  else Ok (end_time m).

Definition kernel_step (k : nat) (s : nat * bufs) : result (nat * bufs) :=
  let '(last, (g_i, G_i)) := s in
  t_k ← time_at k;
  t_prev ← rd (global_timestamps m) (k - 1);
  let ebt := exp (- decay * (t_k - t_prev)) in
  g_prev ← rd g_i (get_index m (k - 1) j u);
  G_i ← wr G_i (get_index m k j u) ((1 - ebt) / decay * g_prev);
  g_i ← (if decide (i = 0%nat)
          then g_prev' ← rd g_i (get_index m (k - 1) j u);
               wr g_i (get_index m k j u) (g_prev' * ebt)
          else Ok g_i);
  scan k t_k (n_total_jumps m - last) last (g_i, G_i).

Definition kernel_column (b : bufs) : result bufs :=
  '(_, b') ← for_range 1 (n_total_jumps m + 1) kernel_step (1%nat, b);
  Ok b'.
End KernelColumn.

(** The [u] and [j] loops around [kernel_column]. *)
Definition kernel_weights (m : model) (i : nat) (b : bufs) : result bufs :=
  for_range 0 (length (decays m)) (fun u b =>
    decay ← rd (decays m) u;
    lag ← rd (lags m) u;
    for_range 0 (n_nodes m) (fun j b => kernel_column m i u j decay lag b) b) b.

(** The three accumulators of the link-function statistics. *)
Definition H12_step (m : model) (i k : nat) (h : list R * list R)
  : result (list R * list R) :=
  let '(H1_i, H2_i) := h in
  H1_i ← (if decide (k <> (1 + n_total_jumps m)%nat)
           then n ← rd (global_n m) (k - 1);
                ty ← rd (type_n m) k;
                add_at H1_i n (if decide (ty = (i + 1)%nat) then 1 else 0)
           else Ok H1_i);
  t_k ← time_at m k;
  n ← rd (global_n m) (k - 1);
  t_prev ← rd (global_timestamps m) (k - 1);
  H2_i ← sub_at H2_i n (t_k - t_prev);
  Ok (H1_i, H2_i).

Definition H3_step (m : model) (i : nat) (G_i : list R) (u k : nat)
  (H3_i : list R) : result (list R) :=
  n ← rd (global_n m) (k - 1);
  Gv ← rd G_i (get_index m k i u);
  sub_at H3_i (n * length (decays m) + u) Gv.

Definition compute_weights_dim_i (i : nat) (m : model) : result model :=
  g_i ← rd (g m) 0;
  G_i ← rd (G m) i;
  '(g_i, G_i) ← kernel_weights m i (g_i, G_i);
  H1_i ← rd (H1 m) i;
  H2_i ← rd (H2 m) i;
  H3_i ← rd (H3 m) i;
  n_last ← rd (global_n m) (n_total_jumps m);
  H1_i ← sub_at H1_i n_last 1;
  '(H1_i, H2_i) ←
    for_range 1 (n_total_jumps m + 1) (H12_step m i) (H1_i, H2_i);
  H3_i ← for_range 0 (length (decays m)) (fun u H3_i =>
            for_range 1 (n_total_jumps m + 1) (H3_step m i G_i u) H3_i) H3_i;
  Ok (with_cache m (<[0%nat := g_i]> (g m)) (<[i := G_i]> (G m))
        (<[i := H1_i]> (H1 m)) (<[i := H2_i]> (H2 m)) (<[i := H3_i]> (H3 m))).

(** Modelled from the spec: [parallel_run] of the thread-pool utility
    invokes the per-index function for every index, for its side
    effect; here one index after the other, in increasing order. The
    order shows in the weight pass only: a task
    [compute_weights_dim_i i] with [i <> 0] reads the [g] that the
    task of dimension 0 writes, so what [G[i]] and [H3[i]] hold
    depends on the schedule. The properties that depend on it are
    stated over [run_tasks], where the order is a parameter. *)
Definition parallel_run {S} (n : nat) (f : nat -> S -> result S) (s : S)
  : result S :=
  for_range 0 n f s.

(** Modelled from the spec: [ModelHawkesFixedKernLogLik::compute_weights]
    of the base class, which is not part of this file's source. The
    Recursive Kernel Evaluator runs once, lazily, on the first loss or
    gradient call: the buffers are allocated, every dimension's task
    runs, and the cache is marked as computed. *)
Definition compute_weights (m : model) : result unit * model :=
  match allocate_weights m with
  | Err e => (Err e, m)
  | Ok m1 =>
    match parallel_run (n_nodes m1) compute_weights_dim_i m1 with
    | Err e => (Err e, m1)
    | Ok m2 => (Ok (), with_weights_computed m2 true)
    end
  end.

(** ** [set_data] *)

(** The number of events of a list of streams. *)
Definition sum_counts (streams : list (list R)) : nat :=
  foldr (fun t n => (length t + n)%nat) 0%nat streams.

(** Modelled from the spec: [ModelHawkesSingle::set_data] of the base
    class, which supplies the raw per-dimension timestamp arrays and
    the jump counts: the number of nodes is the number of streams, the
    jump count of a node is the size of its stream, and the total is
    their sum. Binding new data invalidates the weight cache. The
    checks that the spec gives the binding (an [InvalidState] failure
    on an unsorted stream or on a state sequence of the wrong length)
    are not in this file's source and are not modelled: what is
    proved of the model that [set_data] returns takes the return of
    [set_data] as a hypothesis. *)
Definition ModelHawkesSingle_set_data (m : model)
  (_timestamps : list (list R)) (_end_times : R) : model :=
  {| decays := decays m; lags := lags m; MaxN_of_f := MaxN_of_f m;
     n_nodes := length _timestamps;
     n_total_jumps := sum_counts _timestamps;
     n_jumps_per_node := map length _timestamps;
     timestamps := _timestamps; end_time := _end_times;
     global_timestamps := global_timestamps m; type_n := type_n m;
     global_n := global_n m;
     weights_computed := false;
     Total_events := Total_events m;
     g := g m; G := G m; sum_G := sum_G m; H1 := H1 m; H2 := H2 m;
     H3 := H3 m |}.

(** [n_nodes--] on an [ulong]. *)
Definition ulong_max : nat := Z.to_nat (2 ^ 64 - 1).
Definition ulong_decr (n : nat) : nat :=
  match n with
  | O => ulong_max
  | Datatypes.S n' => n'
  end.

Section SetData.
(** [ArrayDouble::sort(index)] of the array library: the sorted
    array and, for every position, the position its value came
    from. *)
Variable sort_with_index : list R -> list R * list nat.

Definition set_data (m : model) (_timestamps : list (list R))
  (_global_n : list nat) (_end_times : R) : result model :=
  let m := ModelHawkesSingle_set_data m _timestamps _end_times in
  let M := n_total_jumps m in
  gn ← for_range 0 (M + 1) (fun k a => v ← rd _global_n k; wr a k v)
         (replicate (M + 1) 0%nat);
  '(_, gts, pre) ←
    for_range 0 (n_nodes m) (fun j s =>
      t_j ← rd (timestamps m) j;
      n_j ← rd (n_jumps_per_node m) j;
      for_range 0 n_j (fun k '(count, gts, pre) =>
        v ← rd t_j k;
        gts ← wr gts count v;
        pre ← wr pre count (j + 1)%nat;
        Ok (Datatypes.S count, gts, pre)) s)
      (1%nat, zeros (M + 1), replicate (M + 1) 0%nat);
  let '(sorted, tmp_index) := sort_with_index gts in
  ty ← for_range 1 M (fun k ty =>
          ix ← rd tmp_index k; v ← rd pre ix; wr ty k v)
         (replicate (M + 1) 0%nat);
  Ok {| decays := decays m; lags := lags m; MaxN_of_f := MaxN_of_f m;
        n_nodes := ulong_decr (n_nodes m);
        n_total_jumps := n_total_jumps m;
        n_jumps_per_node := n_jumps_per_node m;
        timestamps := timestamps m; end_time := end_time m;
        global_timestamps := sorted; type_n := ty; global_n := gn;
        weights_computed := weights_computed m;
        Total_events := Total_events m;
        g := g m; G := G m; sum_G := sum_G m; H1 := H1 m; H2 := H2 m;
        H3 := H3 m |}.
End SetData.

(** ** [loss] and [grad] *)

Section Coefficients.
(** [get_alpha_u_i_j_index] is declared in the class header, outside
    this file's source: the position of [alpha_{u,i,j}] in the flat
    coefficient vector, a fixed offset scheme over the numbers of
    nodes and of decays. [alpha_index D U u i j] stands for it. *)
Variable alpha_index : nat -> nat -> nat -> nat -> nat -> nat.

Definition get_alpha_u_i_j_index (m : model) (u i j : nat) : nat :=
  alpha_index (n_nodes m) (get_n_decays m) u i j.

(** Modelled from the spec: [get_n_coeffs], the length
    [D + D^2 U + D S] of the coefficient vector. *)
Definition get_n_coeffs (m : model) : nat :=
  (n_nodes m + n_nodes m * n_nodes m * length (decays m)
   + n_nodes m * MaxN_of_f m)%nat.

(** The position of [f_i[k]] in the coefficient vector. *)
Definition f_index (m : model) (i k : nat) : nat :=
  (n_nodes m + n_nodes m * n_nodes m * length (decays m)
   + i * MaxN_of_f m + k)%nat.

(** [ArrayDouble f_i(MaxN_of_f)] and the loop that fills it. *)
Definition read_f_i (m : model) (i : nat) (coeffs : list R)
  : result (list R) :=
  for_range 0 (MaxN_of_f m) (fun k f_i =>
    v ← rd coeffs (f_index m i k); wr f_i k v) (zeros (MaxN_of_f m)).

(** [mu_i + sum_j sum_u alpha_{u,i,j} * g_i[get_index(k, j, u)]]: the
    [tmp_s] of [loss_dim_i] and the [denominator] of [grad_dim_i]. *)
Definition intensity (m : model) (i : nat) (coeffs g_i : list R)
  (mu_i : R) (k : nat) : result R :=
  for_range 0 (n_nodes m) (fun j s =>
    for_range 0 (length (decays m)) (fun u s =>
      alpha_u_i_j ← rd coeffs (get_alpha_u_i_j_index m u i j);
      gv ← rd g_i (get_index m k j u);
      Ok (s + alpha_u_i_j * gv)) s) mu_i.

(** [sum_k G_i[get_index(k, j, u)] * f_i[global_n[k - 1]]] over the
    steps 1 .. M+1. *)
Definition sum_G_i_j_u (m : model) (G_i f_i : list R) (j u : nat)
  : result R :=
  for_range 1 (n_total_jumps m + 1) (fun k s =>
    Gv ← rd G_i (get_index m k j u);
    n ← rd (global_n m) (k - 1);
    fv ← rd f_i n;
    Ok (s + Gv * fv)) 0.

Definition loss_term_1 (m : model) (i : nat) (f_i : list R) (loss : R)
  : result R :=
  for_range 1 (n_total_jumps m) (fun k loss =>
    ty ← rd (type_n m) k;
    if decide (ty = (i + 1)%nat) then
      n ← rd (global_n m) (k - 1);
      fv ← rd f_i n;
      Ok (loss + ln fv)
    else Ok loss) loss.

Definition loss_term_2 (m : model) (i : nat) (coeffs g_i : list R)
  (mu_i : R) (loss : R) : result R :=
  for_range 1 (n_total_jumps m) (fun k loss =>
    ty ← rd (type_n m) k;
    if decide (ty = (i + 1)%nat) then
      tmp_s ← intensity m i coeffs g_i mu_i k;
      if Rle_dec tmp_s 0 then Err DomainError
      else Ok (loss + ln tmp_s)
    else Ok loss) loss.

Definition loss_term_3_4 (m : model) (f_i : list R) (mu_i : R) (loss : R)
  : result R :=
  loss ← for_range 1 (n_total_jumps m) (fun k loss =>
            t_k ← rd (global_timestamps m) k;
            t_prev ← rd (global_timestamps m) (k - 1);
            n ← rd (global_n m) (k - 1);
            fv ← rd f_i n;
            Ok (loss - mu_i * (t_k - t_prev) * fv)) loss;
  t_last ← rd (global_timestamps m) (n_total_jumps m);
  n ← rd (global_n m) (n_total_jumps m);
  fv ← rd f_i n;
  Ok (loss - mu_i * (end_time m - t_last) * fv).

Definition loss_term_5_6 (m : model) (i : nat) (coeffs G_i f_i : list R)
  (loss : R) : result R :=
  for_range 0 (n_nodes m) (fun j loss =>
    for_range 0 (length (decays m)) (fun u loss =>
      alpha_u_i_j ← rd coeffs (get_alpha_u_i_j_index m u i j);
      s ← sum_G_i_j_u m G_i f_i j u;
      Ok (loss - alpha_u_i_j * s)) loss) loss.

(** [sum_G[i].init_to_zero()]. *)
Definition clean_sum_G (m : model) (i : nat) : result model :=
  sg ← rd (sum_G m) i;
  Ok (with_sum_G m (<[i := zeros (length sg)]> (sum_G m))).

(** The part of [loss_dim_i] that comes before the reset of
    [sum_G[i]]: the local arrays and the terms 1 to 4. *)
Definition loss_before (i : nat) (coeffs : list R) (m : model)
  : result (list R * list R * R) :=
  mu_i ← rd coeffs i;
  f_i ← read_f_i m i coeffs;
  g_i ← rd (g m) 0;
  G_i ← rd (G m) i;
  loss ← loss_term_1 m i f_i 0;
  loss ← loss_term_2 m i coeffs g_i mu_i loss;
  loss ← loss_term_3_4 m f_i mu_i loss;
  Ok (f_i, G_i, loss).

Definition loss_dim_i (i : nat) (coeffs : list R) (m : model)
  : result R * model :=
  match loss_before i coeffs m with
  | Err e => (Err e, m)
  | Ok (f_i, G_i, loss) =>
    match clean_sum_G m i with
    | Err e => (Err e, m)
    | Ok m' =>
      (loss ← loss_term_5_6 m i coeffs G_i f_i loss;
       Ok (- end_time m - loss), m')
    end
  end.

(** Modelled from the spec: [parallel_map_additive_reduce] of the
    thread-pool utility invokes the per-index function for every
    index and combines the results additively; an error raised by a
    task ends the call. *)
Fixpoint parallel_map_additive_reduce (start n : nat)
  (f : nat -> model -> result R * model) (acc : R) (m : model)
  : result R * model :=
  match n with
  | O => (Ok acc, m)
  | Datatypes.S n' =>
    match f start m with
    | (Ok v, m') =>
      parallel_map_additive_reduce (Datatypes.S start) n' f (acc + v) m'
    | (Err e, m') => (Err e, m')
    end
  end.

(** [if (!weights_computed) compute_weights();] *)
Definition ensure_weights (m : model) : result unit * model :=
  if weights_computed m then (Ok (), m) else compute_weights m.

Definition loss (coeffs : list R) (m : model) : result R * model :=
  match ensure_weights m with
  | (Err e, m1) => (Err e, m1)
  | (Ok _, m1) =>
    match parallel_map_additive_reduce 0 (n_nodes m1)
            (fun i => loss_dim_i i coeffs) 0 m1 with
    | (Err e, m2) => (Err e, m2)
    | (Ok l, m2) => (Ok (l / IZR (Total_events m2)), m2)
    end
  end.
(** [tmp_flag] of the two accumulation loops of [grad_dim_i]: set at
    the terminal step, and otherwise at the events of dimension
    [i]. *)
Definition tmp_flag (m : model) (i k : nat) : result bool :=
  if decide (k = (n_total_jumps m + 1)%nat) then Ok true
  else ty ← rd (type_n m) k; Ok (bool_decide (ty = (i + 1)%nat)).

(** [for (k = 1; k < n_total_jumps + 1; ++k)]: the gradient of
    [mu_i], first loop. *)
Definition grad_mu_events (m : model) (i : nat) (coeffs g_i : list R)
  (mu_i : R) (out : list R) : result (list R) :=
  for_range 1 (n_total_jumps m) (fun k out =>
    flag ← tmp_flag m i k;
    if flag : bool then
      denominator ← intensity m i coeffs g_i mu_i k;
      add_at out i (1 / denominator)
    else Ok out) out.

(** [for (k = 1; k < 1 + n_total_jumps + 1; k++)]: the gradient of
    [mu_i], second loop. *)
Definition grad_mu_compensator (m : model) (i : nat) (f_i : list R)
  (out : list R) : result (list R) :=
  for_range 1 (n_total_jumps m + 1) (fun k out =>
    t_k ← time_at m k;
    t_prev ← rd (global_timestamps m) (k - 1);
    n ← rd (global_n m) (k - 1);
    fv ← rd f_i n;
    sub_at out i ((t_k - t_prev) * fv)) out.

(** [for (k = 1; k < 1 + n_total_jumps + 1; ++k)]: the gradient of
    the [alpha_{u,i,j}], first loop. *)
Definition grad_alpha_events (m : model) (i : nat) (coeffs g_i : list R)
  (mu_i : R) (out : list R) : result (list R) :=
  for_range 1 (n_total_jumps m + 1) (fun k out =>
    flag ← tmp_flag m i k;
    if flag : bool then
      denominator ← intensity m i coeffs g_i mu_i k;
      for_range 0 (n_nodes m) (fun j out =>
        for_range 0 (length (decays m)) (fun u out =>
          gv ← rd g_i (get_index m k j u);
          add_at out (get_alpha_u_i_j_index m u i j) (gv / denominator))
          out) out
    else Ok out) out.

Definition grad_alpha_compensator (m : model) (i : nat) (G_i f_i : list R)
  (out : list R) : result (list R) :=
  for_range 0 (n_nodes m) (fun j out =>
    for_range 0 (length (decays m)) (fun u out =>
      s ← sum_G_i_j_u m G_i f_i j u;
      sub_at out (get_alpha_u_i_j_index m u i j) s) out) out.

(** [result_dot]: [alpha_i_j_u.dot(H3_j_u_n)]. *)
Definition result_dot (m : model) (i : nat) (coeffs : list R) (n : nat)
  : result R :=
  for_range 0 (n_nodes m) (fun j s =>
    H3_j ← rd (H3 m) j;
    for_range 0 (length (decays m)) (fun u s =>
      alpha_u_i_j ← rd coeffs (get_alpha_u_i_j_index m u i j);
      h ← rd H3_j (n * length (decays m) + u);
      Ok (s + alpha_u_i_j * h)) s) 0.

Definition grad_f (m : model) (i : nat) (coeffs f_i : list R) (mu_i : R)
  : result (list R) :=
  H1_i ← rd (H1 m) i;
  H2_i ← rd (H2 m) i;
  for_range 0 (MaxN_of_f m) (fun n grad_f_i =>
    dot ← result_dot m i coeffs n;
    h1 ← rd H1_i n;
    fv ← rd f_i n;
    h2 ← rd H2_i n;
    wr grad_f_i n (h1 / fv + mu_i * h2 + dot)) (zeros (MaxN_of_f m)).

Definition grad_dim_i (i : nat) (coeffs : list R) (m : model)
  (out : list R) : result (list R) :=
  mu_i ← rd coeffs i;
  _ ← rd out i;
  f_i ← read_f_i m i coeffs;
  g_i ← rd (g m) 0;
  G_i ← rd (G m) i;
  out ← wr out i 0;
  out ← grad_mu_events m i coeffs g_i mu_i out;
  out ← grad_mu_compensator m i f_i out;
  out ← grad_alpha_events m i coeffs g_i mu_i out;
  out ← grad_alpha_compensator m i G_i f_i out;
  grad_f_i ← grad_f m i coeffs f_i mu_i;
  for_range 0 (MaxN_of_f m) (fun k out =>
    v ← rd grad_f_i k; wr out (f_index m i k) v) out.

Definition grad (coeffs out : list R) (m : model)
  : result (list R) * model :=
  match ensure_weights m with
  | (Err e, m1) => (Err e, m1)
  | (Ok _, m1) =>
    let out := map (fun _ => 0) out in
    (out ← parallel_run (n_nodes m1)
             (fun i out => grad_dim_i i coeffs m1 out) out;
     let out := map (fun x => x / IZR (Total_events m1)) out in
     for_range 0 (get_n_coeffs m1) (fun k out =>
       x ← rd out k; wr out k (- x)) out,
     m1)
  end.
End Coefficients.

(** * Specification-level definitions *)

(** Total reading of an array, for statements: the default value
    stands for a cell outside the array. *)
Definition get {A} (d : A) (a : list A) (i : nat) : A := default d (a !! i).

(** [sum_{e in l} f e]. *)
Definition Rsum (l : list nat) (f : nat -> R) : R :=
  foldr (fun e acc => f e + acc) 0 l.

#[global] Instance Rlt_decision (a b : R) : Decision (a < b) := Rlt_dec a b.
#[global] Instance Rle_decision (a b : R) : Decision (a <= b) := Rle_dec a b.

(** The timestamp, the origin and the state index of the merged event
    [e]. *)
Definition tsf (m : model) (e : nat) : R := get 0 (global_timestamps m) e.
Definition tyf (m : model) (e : nat) : nat := get 0%nat (type_n m) e.
Definition gnf (m : model) (e : nat) : nat := get 0%nat (global_n m) e.

(** [t_k], with [t_{M+1} = T]. *)
Definition tm (m : model) (k : nat) : R :=
  if decide (k = (1 + n_total_jumps m)%nat) then end_time m else tsf m k.

Definition g_contrib (decay : R) (delta_t : R) : R := decay * exp (- decay * delta_t).
Definition G_contrib (decay : R) (delta_t : R) : R := 1 - exp (- decay * delta_t).

Definition scan_term (m : model) (j : nat) (lag t_k : R) (c : R -> R) (e : nat) : R :=
  if decide (tyf m e = (j + 1)%nat) then c (t_k - lag - tsf m e) else 0.

Definition eligible (m : model) (lag : R) (k e : nat) : Prop :=
  tsf m e < tm m k - lag.

Definition newly_eligible (m : model) (lag : R) (k e : nat) : Prop :=
  eligible m lag k e /\ ~ ((2 <= k)%nat /\ eligible m lag (k - 1) e).

#[global] Instance eligible_dec m lag k e : Decision (eligible m lag k e).
Proof. unfold eligible. apply _. Defined.

#[global] Instance newly_eligible_dec m lag k e :
  Decision (newly_eligible m lag k e).
Proof. unfold newly_eligible. apply _. Defined.

Definition fold_sum (m : model) (j : nat) (lag : R) (k : nat) (c : R -> R) : R :=
  Rsum (seq 1 (n_total_jumps m)) (fun e =>
    if decide (tyf m e = (j + 1)%nat /\ newly_eligible m lag k e)
    then c (tm m k - lag - tsf m e) else 0).

Definition ebt (m : model) (decay : R) (k : nat) : R :=
  exp (- decay * (tm m k - tsf m (k - 1))).

Record valid_data (m : model) : Prop := {
  vd_nodes : (1 <= n_nodes m)%nat;
  vd_events : (1 <= n_total_jumps m)%nat;
  vd_ts_len : length (global_timestamps m) = (n_total_jumps m + 1)%nat;
  vd_ty_len : length (type_n m) = (n_total_jumps m + 1)%nat;
  vd_gn_len : length (global_n m) = (n_total_jumps m + 1)%nat;
  vd_sorted : forall a b, (a <= b <= n_total_jumps m)%nat -> tsf m a <= tsf m b;
  vd_lags_len : length (lags m) = length (decays m);
  vd_lags : forall u, (u < length (lags m))%nat -> 0 <= get 0 (lags m) u;
  vd_states : forall k, (k <= n_total_jumps m)%nat -> (gnf m k < MaxN_of_f m)%nat;
  vd_counts : (n_nodes m < length (n_jumps_per_node m))%nat
}.

(** The pointer invariant at the start of step [k]. *)
Definition scanned (m : model) (lag : R) (k last : nat) : Prop :=
  (1 <= last <= n_total_jumps m + 1)%nat /\
  (forall e, (1 <= e < last)%nat ->
     exists k', (1 <= k' < k)%nat /\ eligible m lag k' e) /\
  ((2 <= k)%nat -> (last <= n_total_jumps m)%nat -> ~ eligible m lag (k - 1) last).

Definition cells (m : model) : nat :=
  ((n_total_jumps m + 2) * (n_nodes m * length (decays m)))%nat.

Fixpoint col_after (m : model) (i u j : nat) (decay lag : R) (n : nat)
  (b : list R * list R) : list R * list R :=
  match n with
  | O => b
  | S n' =>
    let '(g', G') := col_after m i u j decay lag n' b in
    (if decide (i = 0%nat)
     then <[get_index m (S n') j u :=
              get 0 g' (get_index m n' j u) * ebt m decay (S n')
              + fold_sum m j lag (S n') (g_contrib decay)]> g'
     else g',
     <[get_index m (S n') j u :=
         (1 - ebt m decay (S n')) / decay * get 0 g' (get_index m n' j u)
         + fold_sum m j lag (S n') (G_contrib decay)]> G')
  end.

(** The recurrence that column [(j, u)] of the two buffers satisfies
    once its pass is over. *)
Definition col_done (m : model) (i u j : nat) (decay lag : R)
  (b : list R * list R) : Prop :=
  forall k, (1 <= k <= n_total_jumps m + 1)%nat ->
    get 0 b.2 (get_index m k j u) =
      (1 - ebt m decay k) / decay * get 0 b.1 (get_index m (k - 1) j u)
      + fold_sum m j lag k (G_contrib decay) /\
    (i = 0%nat ->
     get 0 b.1 (get_index m k j u) =
       get 0 b.1 (get_index m (k - 1) j u) * ebt m decay k
       + fold_sum m j lag k (g_contrib decay)).

Definition decay_of (m : model) (u : nat) : R := get 0 (decays m) u.
Definition lag_of (m : model) (u : nat) : R := get 0 (lags m) u.

(** Every column of the two buffers satisfies its recurrence. *)
Definition weights_done (m : model) (i : nat) (b : list R * list R) : Prop :=
  forall u j, (u < length (decays m))%nat -> (j < n_nodes m)%nat ->
    col_done m i u j (decay_of m u) (lag_of m u) b.

(** The cells that no column pass writes: those of row 0 (and any
    cell outside the columns). *)
Definition unwritten (m : model) (c : nat) : Prop :=
  forall k j u, (1 <= k <= n_total_jumps m + 1)%nat -> (j < n_nodes m)%nat ->
    (u < length (decays m))%nat -> c <> get_index m k j u.

(** The closed forms of the link-function statistics. *)
Definition H1_spec (m : model) (i n : nat) : R :=
  Rsum (seq 1 (n_total_jumps m)) (fun k =>
    if decide (gnf m (k - 1) = n)
    then (if decide (tyf m k = (i + 1)%nat) then 1 else 0) else 0)
  - (if decide (gnf m (n_total_jumps m) = n) then 1 else 0).

Definition H2_spec (m : model) (n : nat) : R :=
  - Rsum (seq 1 (n_total_jumps m + 1)) (fun k =>
      if decide (gnf m (k - 1) = n) then tm m k - tsf m (k - 1) else 0).

Definition H3_spec (m : model) (G_i : list R) (i n u : nat) : R :=
  - Rsum (seq 1 (n_total_jumps m + 1)) (fun k =>
      if decide (gnf m (k - 1) = n) then get 0 G_i (get_index m k i u) else 0).

Definition g_rec (m : model) (gb : list R) : Prop :=
  forall u j k, (u < length (decays m))%nat -> (j < n_nodes m)%nat ->
    (1 <= k <= n_total_jumps m + 1)%nat ->
    get 0 gb (get_index m k j u) =
      get 0 gb (get_index m (k - 1) j u) * ebt m (decay_of m u) k
      + fold_sum m j (lag_of m u) k (g_contrib (decay_of m u)).

Definition g_zero (m : model) (gb : list R) : Prop :=
  forall u j, (u < length (decays m))%nat -> (j < n_nodes m)%nat ->
    get 0 gb (get_index m 0 j u) = 0.

Definition G_rec (m : model) (gb Gb : list R) : Prop :=
  forall u j k, (u < length (decays m))%nat -> (j < n_nodes m)%nat ->
    (1 <= k <= n_total_jumps m + 1)%nat ->
    get 0 Gb (get_index m k j u) =
      (1 - ebt m (decay_of m u) k) / decay_of m u
      * get 0 gb (get_index m (k - 1) j u)
      + fold_sum m j (lag_of m u) k (G_contrib (decay_of m u)).

Definition stats_ok (m : model) (i : nat) (Gb h1 h2 h3 : list R) : Prop :=
  length h1 = MaxN_of_f m /\ length h2 = MaxN_of_f m /\
  length h3 = (MaxN_of_f m * length (decays m))%nat /\
  (forall n, get 0 h1 n = H1_spec m i n) /\
  (forall n, get 0 h2 n = H2_spec m n) /\
  (forall n u, (n < MaxN_of_f m)%nat -> (u < length (decays m))%nat ->
     get 0 h3 (n * length (decays m) + u) = H3_spec m Gb i n u).

Definition data_eq (m m' : model) : Prop :=
  decays m' = decays m /\ lags m' = lags m /\ MaxN_of_f m' = MaxN_of_f m /\
  n_nodes m' = n_nodes m /\ n_total_jumps m' = n_total_jumps m /\
  n_jumps_per_node m' = n_jumps_per_node m /\ timestamps m' = timestamps m /\
  end_time m' = end_time m /\ global_timestamps m' = global_timestamps m /\
  type_n m' = type_n m /\ global_n m' = global_n m.

Definition g_buf (m : model) : list R := get [] (g m) 0.
Definition G_buf (m : model) (i : nat) : list R := get [] (G m) i.
Definition H1_buf (m : model) (i : nat) : list R := get [] (H1 m) i.
Definition H2_buf (m : model) (i : nat) : list R := get [] (H2 m) i.
Definition H3_buf (m : model) (i : nat) : list R := get [] (H3 m) i.

Record cache_ok (m : model) : Prop := {
  co_g : (0 < length (g m))%nat;
  co_g_len : length (g_buf m) = cells m;
  co_g_zero : g_zero m (g_buf m);
  co_g_rec : g_rec m (g_buf m);
  co_G_len : length (G m) = n_nodes m;
  co_sum_G_len : length (sum_G m) = n_nodes m;
  co_H1_len : length (H1 m) = n_nodes m;
  co_H2_len : length (H2 m) = n_nodes m;
  co_H3_len : length (H3 m) = n_nodes m;
  co_G : forall i, (i < n_nodes m)%nat ->
    length (G_buf m i) = cells m /\ G_rec m (g_buf m) (G_buf m i);
  co_stats : forall i, (i < n_nodes m)%nat ->
    stats_ok m i (G_buf m i) (H1_buf m i) (H2_buf m i) (H3_buf m i);
  co_total :
    Total_events m =
    ulong_sub (Z.of_nat (n_total_jumps m))
      (Z.of_nat (get 0%nat (n_jumps_per_node m) (n_nodes m)))
}.

(** The positions of the [alpha_{u,i,j}] lie in the block that follows
    the [n_nodes] baselines. *)
Definition alpha_layout (alpha_index : nat -> nat -> nat -> nat -> nat -> nat)
  (m : model) : Prop :=
  forall u i j, (u < length (decays m))%nat -> (i < n_nodes m)%nat ->
    (j < n_nodes m)%nat ->
    (n_nodes m <= get_alpha_u_i_j_index alpha_index m u i j
     < n_nodes m + n_nodes m * n_nodes m * length (decays m))%nat.

Definition gv (m : model) (k j u : nat) : R :=
  get 0 (g_buf m) (get_index m k j u).
Definition Gv (m : model) (i k j u : nat) : R :=
  get 0 (G_buf m i) (get_index m k j u).

Section LossSpec.
Variable aidx : nat -> nat -> nat -> nat -> nat -> nat.
Variable m : model.
Variable coeffs : list R.

Definition mu_of (i : nat) : R := get 0 coeffs i.
Definition alpha_of (u i j : nat) : R :=
  get 0 coeffs (get_alpha_u_i_j_index aidx m u i j).
Definition f_of (i n : nat) : R := get 0 coeffs (f_index m i n).

(** [mu_i + sum_j sum_u alpha_{u,i,j} g(k,j,u)]. *)
Definition intensity_spec (i k : nat) : R :=
  mu_of i
  + Rsum (seq 0 (n_nodes m)) (fun j =>
      Rsum (seq 0 (length (decays m))) (fun u =>
        alpha_of u i j * gv m k j u)).

Definition term_A (i : nat) : R :=
  Rsum (seq 1 (n_total_jumps m)) (fun k =>
    if decide (tyf m k = (i + 1)%nat)
    then ln (f_of i (gnf m (k - 1))) else 0).

Definition term_B (i : nat) : R :=
  Rsum (seq 1 (n_total_jumps m)) (fun k =>
    if decide (tyf m k = (i + 1)%nat)
    then ln (intensity_spec i k) else 0).

Definition term_C (i : nat) : R :=
  - Rsum (seq 1 (n_total_jumps m + 1)) (fun k =>
      mu_of i * (tm m k - tsf m (k - 1)) * f_of i (gnf m (k - 1))).

Definition term_D (i : nat) : R :=
  - Rsum (seq 0 (n_nodes m)) (fun j =>
      Rsum (seq 0 (length (decays m))) (fun u =>
        alpha_of u i j
        * Rsum (seq 1 (n_total_jumps m + 1)) (fun k =>
            Gv m i k j u * f_of i (gnf m (k - 1))))).

Definition loss_dim_spec (i : nat) : R :=
  - end_time m - (term_A i + term_B i + term_C i + term_D i).

Definition loss_spec : R :=
  Rsum (seq 0 (n_nodes m)) loss_dim_spec / IZR (Total_events m).

(** The intensity is positive at every event of dimension [i]. *)
Definition positive_dim (i : nat) : Prop :=
  forall k, (1 <= k <= n_total_jumps m)%nat -> tyf m k = (i + 1)%nat ->
    0 < intensity_spec i k.
End LossSpec.

(** The state of the model when a loss or gradient call starts: the
    data is well-formed and, if the weights have been computed, the
    cache holds them. *)
Definition ready (m : model) : Prop :=
  valid_data m /\ (weights_computed m = true -> cache_ok m).

(** The model with its weight cache, as [loss] and [grad] see it
    after [if (!weights_computed) compute_weights()]. *)
Definition cached (m : model) : model := (ensure_weights m).2.

Definition H1v (m : model) (i n : nat) : R := get 0 (H1_buf m i) n.
Definition H2v (m : model) (i n : nat) : R := get 0 (H2_buf m i) n.
Definition H3v (m : model) (i n u : nat) : R :=
  get 0 (H3_buf m i) (n * length (decays m) + u).

Section GradSpec.
Variable aidx : nat -> nat -> nat -> nat -> nat -> nat.
Variable m : model.
Variable coeffs : list R.

(** What [grad_dim_i] leaves in [out[i]]: the events of dimension
    [i], and the baseline compensator. *)
Definition grad_mu_spec (i : nat) : R :=
  Rsum (seq 1 (n_total_jumps m)) (fun k =>
    if decide (tyf m k = (i + 1)%nat)
    then 1 / intensity_spec aidx m coeffs i k else 0)
  - Rsum (seq 1 (n_total_jumps m + 1)) (fun k =>
      (tm m k - tsf m (k - 1)) * f_of m coeffs i (gnf m (k - 1))).

(** What [grad_dim_i] writes for [f_i[n]]. *)
Definition grad_f_spec (i n : nat) : R :=
  H1v m i n / f_of m coeffs i n + mu_of coeffs i * H2v m i n
  + Rsum (seq 0 (n_nodes m)) (fun j =>
      Rsum (seq 0 (length (decays m))) (fun u =>
        alpha_of aidx m coeffs u i j * H3v m j n u)).
End GradSpec.

(** The cells of [out] that belong to the [alpha] block. *)
Definition in_alpha_block (m : model) (c : nat) : Prop :=
  (n_nodes m <= c
   < n_nodes m + n_nodes m * n_nodes m * length (decays m))%nat.

(** The two [alpha] loops write inside the [alpha] block only. *)
Definition alpha_frame (m : model) (out out' : list R) : Prop :=
  length out' = length out /\
  forall c, ~ in_alpha_block m c -> get 0 out' c = get 0 out c.

(** The cells of [out] that [grad_dim_i] can write for dimension
    [i]. *)
Definition dim_cells (m : model) (i c : nat) : Prop :=
  c = i \/ in_alpha_block m c \/
  exists k, (k < MaxN_of_f m)%nat /\ c = f_index m i k.

(** [reset_of m m']: the model [m'] is [m] with some of its [sum_G]
    accumulators reset to zero, and nothing else changed. *)
Definition reset_of (m m' : model) : Prop :=
  exists sg,
    m' = with_sum_G m sg /\ length sg = length (sum_G m) /\
    forall i old, sum_G m !! i = Some old ->
      sg !! i = Some old \/ sg !! i = Some (zeros (length old)).

(** The direct pairwise definition of the convolution at event [k]:
    the sum over the events of node [j] that are strictly earlier
    than [t_k]. *)
Definition brute_force (m : model) (decay : R) (j k : nat) : R :=
  Rsum (seq 1 (n_total_jumps m)) (fun e =>
    if decide (tyf m e = (j + 1)%nat /\ tsf m e < tsf m k)
    then decay * exp (- decay * (tsf m k - tsf m e)) else 0).

(** The claim of the specification about the delay gate, with the
    inclusive comparison [t_e <= t_k - lag]. *)
Definition eligible_le (m : model) (lag : R) (k e : nat) : Prop :=
  tsf m e <= tm m k - lag.

Definition newly_eligible_le (m : model) (lag : R) (k e : nat) : Prop :=
  eligible_le m lag k e /\ ~ ((2 <= k)%nat /\ eligible_le m lag (k - 1) e).

#[global] Instance eligible_le_dec m lag k e : Decision (eligible_le m lag k e).
Proof. unfold eligible_le. apply _. Defined.

#[global] Instance newly_eligible_le_dec m lag k e :
  Decision (newly_eligible_le m lag k e).
Proof. unfold newly_eligible_le. apply _. Defined.

Definition fold_sum_le (m : model) (j : nat) (lag : R) (k : nat) (c : R -> R)
  : R :=
  Rsum (seq 1 (n_total_jumps m)) (fun e =>
    if decide (tyf m e = (j + 1)%nat /\ newly_eligible_le m lag k e)
    then c (tm m k - lag - tsf m e) else 0).

(** The delay gate as the weight cache of [m'] realises it: at every
    step [k], [g] is the decayed previous value plus the contributions
    of the events that [fold] selects, and [G] likewise. *)
Definition lag_gate
  (fold : model -> nat -> R -> nat -> (R -> R) -> R) (m' : model) : Prop :=
  forall i u j k, (i < n_nodes m')%nat -> (u < length (decays m'))%nat ->
    (j < n_nodes m')%nat -> (1 <= k <= n_total_jumps m' + 1)%nat ->
    gv m' k j u =
      gv m' (k - 1) j u * ebt m' (decay_of m' u) k
      + fold m' j (lag_of m' u) k (g_contrib (decay_of m' u)) /\
    Gv m' i k j u =
      (1 - ebt m' (decay_of m' u) k) / decay_of m' u * gv m' (k - 1) j u
      + fold m' j (lag_of m' u) k (G_contrib (decay_of m' u)).

(** An offset scheme for the [alpha_{u,i,j}], used in the examples. *)
Definition example_alpha_index (D U u i j : nat) : nat :=
  (D + D * U * i + U * j + u)%nat.

(** A model as [set_data] leaves it, with an empty weight cache. *)
Definition bound_model (decays lags : list R) (S D M : nat)
  (streams : list (list R)) (T : R) (gts : list R) (ty gn : list nat)
  : model :=
  {| decays := decays; lags := lags; MaxN_of_f := S;
     n_nodes := D; n_total_jumps := M;
     n_jumps_per_node := map length streams;
     timestamps := streams; end_time := T;
     global_timestamps := gts; type_n := ty; global_n := gn;
     weights_computed := false; Total_events := 0;
     g := []; G := []; sum_G := []; H1 := []; H2 := []; H3 := [] |}.

(** One modelled dimension with an event at [t = 1], an empty
    auxiliary stream, [T = 2]; one kernel with decay 1 and no lag; one
    state. *)
Definition ex_one : model :=
  bound_model [1] [0] 1 1 1 [[1]; []] 2 [0; 1] [0; 1]%nat [0; 0]%nat.

(** One modelled dimension with events at [t = 1] and [t = 2], an
    empty auxiliary stream, [T = 3]; one kernel with decay 1 and lag
    1. *)
Definition ex_lag : model :=
  bound_model [1] [1] 1 1 2 [[1; 2]; []] 3 [0; 1; 2] [0; 1; 1]%nat
    [0; 0; 0]%nat.

(** No event at all: two empty streams. *)
Definition ex_empty : model :=
  bound_model [1] [0] 1 1 0 [[]; []] 1 [0] [0]%nat [0]%nat.

(** An admissible coefficient vector: the intensity is positive at
    every event of every dimension, and so is the link-function
    table. *)
Definition admissible (aidx : nat -> nat -> nat -> nat -> nat -> nat)
  (m : model) (coeffs : list R) : Prop :=
  (forall i, (i < n_nodes m)%nat -> positive_dim aidx m coeffs i) /\
  (forall i n, (i < n_nodes m)%nat -> (n < MaxN_of_f m)%nat ->
     0 < f_of m coeffs i n).

(** The claim of the specification about the gradient entry of
    [mu_i]: the events of dimension [i], the terminal step
    [k = M + 1], and the baseline compensator. *)
Definition grad_mu_claimed (aidx : nat -> nat -> nat -> nat -> nat -> nat)
  (m : model) (coeffs : list R) (i : nat) : R :=
  Rsum (seq 1 (n_total_jumps m)) (fun k =>
    if decide (tyf m k = (i + 1)%nat)
    then 1 / intensity_spec aidx m coeffs i k else 0)
  + 1 / intensity_spec aidx m coeffs i (n_total_jumps m + 1)
  - Rsum (seq 1 (n_total_jumps m + 1)) (fun k =>
      (tm m k - tsf m (k - 1)) * f_of m coeffs i (gnf m (k - 1))).

(** The model as its constructor leaves it: the kernel specification
    and the size of the link-function table, and no data. *)
Definition constructed (decays lags : list R) (S : nat) : model :=
  {| decays := decays; lags := lags; MaxN_of_f := S;
     n_nodes := 0; n_total_jumps := 0; n_jumps_per_node := [];
     timestamps := []; end_time := 0;
     global_timestamps := []; type_n := []; global_n := [];
     weights_computed := false; Total_events := 0;
     g := []; G := []; sum_G := []; H1 := []; H2 := []; H3 := [] |}.

(** A sort with index for the examples: insertion sort on the values,
    each paired with its position. *)
Fixpoint insert_by_time (x : R * nat) (l : list (R * nat))
  : list (R * nat) :=
  match l with
  | [] => [x]
  | y :: l' =>
    if Rle_dec x.1 y.1 then x :: l else y :: insert_by_time x l'
  end.

Definition example_sort (a : list R) : list R * list nat :=
  let s := foldr insert_by_time [] (zip a (seq 0 (length a))) in
  (map fst s, map snd s).

(** Case analysis on a small index. *)
Ltac small_index k :=
  repeat (destruct k as [|k]; [|try lia]); try lia.

(** A single stream with an event at [t = 1], bound by [set_data]:
    the stream is counted as the auxiliary one. *)
Definition ex_single : model :=
  bound_model [1] [0] 1 0 1 [[1]] 2 [0; 1] [0; 1]%nat [0; 0]%nat.

(** No stream at all, bound by [set_data]: [n_nodes] has wrapped
    around. *)
Definition ex_none : model :=
  bound_model [1] [0] 1 ulong_max 0 [] 1 [0] [0]%nat [0]%nat.

(** Two modelled dimensions with one event each, at [t = 1] and
    [t = 2], an empty auxiliary stream, [T = 3]; one kernel with decay
    1 and no lag; two states. *)
Definition ex_two : model :=
  bound_model [1] [0] 2 2 2 [[1]; [2]; []] 3 [0; 1; 2] [0; 1; 2]%nat
    [0; 1; 0]%nat.

(** The lagged convolution at step [k], written out pairwise: the
    sum, over the events [e] of node [j] with [t_e < t_k - lag], of
    [decay * exp (- decay * (t_k - lag - t_e))]. *)
Definition lagged_sum (m : model) (decay lag : R) (j k : nat) : R :=
  Rsum (seq 1 (n_total_jumps m)) (fun e =>
    if decide (tyf m e = (j + 1)%nat /\ eligible m lag k e)
    then decay * exp (- decay * (tm m k - lag - tsf m e)) else 0).

(** The integral of the lagged kernels over the interval that ends at
    step [k], written out pairwise: an event [e] of node [j] with
    [t_e < t_k - lag] adds the integral of its kernel from
    [t_{k-1}], or from [t_e + lag] when that is later, to [t_k]. *)
Definition lagged_integral (m : model) (decay lag : R) (j k : nat) : R :=
  Rsum (seq 1 (n_total_jumps m)) (fun e =>
    if decide (tyf m e = (j + 1)%nat /\ eligible m lag k e)
    then (if decide ((2 <= k)%nat /\ eligible m lag (k - 1) e)
          then exp (- decay * (tm m (k - 1) - lag - tsf m e)) else 1)
         - exp (- decay * (tm m k - lag - tsf m e))
    else 0).

(** The number of events of dimension [i], as a real. *)
Definition n_events_of (m : model) (i : nat) : R :=
  Rsum (seq 1 (n_total_jumps m)) (fun k =>
    if decide (tyf m k = (i + 1)%nat) then 1 else 0).

(** Distinct triples [(u, i, j)] have distinct positions in the
    coefficient vector. *)
Definition alpha_injective (alpha_index : nat -> nat -> nat -> nat -> nat -> nat)
  (m : model) : Prop :=
  forall u i j u' i' j',
    (u < length (decays m))%nat -> (i < n_nodes m)%nat ->
    (j < n_nodes m)%nat ->
    (u' < length (decays m))%nat -> (i' < n_nodes m)%nat ->
    (j' < n_nodes m)%nat ->
    get_alpha_u_i_j_index alpha_index m u i j
    = get_alpha_u_i_j_index alpha_index m u' i' j' ->
    u = u' /\ i = i' /\ j = j'.

(** What [grad_dim_i] adds to [out] at the position of
    [alpha_{u,i,j}]: [g(k,j,u) / denominator] at the events of
    dimension [i] and at the terminal step, minus the interaction
    compensator. *)
Definition grad_alpha_spec (aidx : nat -> nat -> nat -> nat -> nat -> nat)
  (m : model) (coeffs : list R) (i j u : nat) : R :=
  Rsum (seq 1 (n_total_jumps m + 1)) (fun k =>
    if decide (k = (n_total_jumps m + 1)%nat \/ tyf m k = (i + 1)%nat)
    then gv m k j u / intensity_spec aidx m coeffs i k else 0)
  - Rsum (seq 1 (n_total_jumps m + 1)) (fun k =>
      Gv m i k j u * f_of m coeffs i (gnf m (k - 1))).

(** The array that [set_data] hands to the sort: the origin [0]
    followed by the streams in the order they were supplied, the
    auxiliary stream included. *)
Definition merged_input (streams : list (list R)) : list R :=
  0 :: concat streams.

(** The origins of the merged events before the sort: [j + 1] for
    every event of stream [j], after a [0] for the origin. *)
Fixpoint stream_tags (j : nat) (streams : list (list R)) : list nat :=
  match streams with
  | [] => []
  | t :: rest => replicate (length t) (j + 1)%nat ++ stream_tags (S j) rest
  end.

Definition merged_tags (streams : list (list R)) : list nat :=
  0%nat :: stream_tags 0 streams.

(** Every accumulator of [sum_G] holds zeros only. *)
Definition sum_G_clear (m : model) : Prop :=
  forall i sg, sum_G m !! i = Some sg -> sg = zeros (length sg).

(** What the embedding needs of [ArrayDouble::sort(index)] on the
    array [a]: the sorted array has the length of [a] and is in
    increasing order, and the index holds a position of [a] for every
    position. *)
Definition sorts_with_index (sort : list R -> list R * list nat)
  (a : list R) : Prop :=
  length (sort a).1 = length a /\ length (sort a).2 = length a /\
  (forall k, (k < length a)%nat -> (get 0%nat (sort a).2 k < length a)%nat) /\
  (forall i j, (i <= j < length a)%nat ->
     get 0 (sort a).1 i <= get 0 (sort a).1 j).

(** One modelled dimension with events at [t = 1], [2] and [3], an
    empty auxiliary stream, [T = 4]; one kernel with decay 1 and no
    lag; one state. *)
Definition ex_three : model :=
  bound_model [1] [0] 1 1 3 [[1; 2; 3]; []] 4 [0; 1; 2; 3]
    [0; 1; 1; 1]%nat [0; 0; 0; 0]%nat.

(** The tasks [compute_weights_dim_i] of a weight pass, run one at a
    time in the order that the list [order] gives. *)
Fixpoint run_tasks (order : list nat) (m : model) : result model :=
  match order with
  | [] => Ok m
  | i :: rest => m' ← compute_weights_dim_i i m; run_tasks rest m'
  end.

(** A schedule of the [D] tasks of a weight pass that runs every task
    once, and the task of dimension 0, which fills the shared [g],
    before the others. *)
Definition task_0_first (D : nat) (order : list nat) : Prop :=
  (exists rest, order = 0%nat :: rest) /\ order ≡ₚ seq 0 D.

(** Three modelled dimensions with one event each, at [t = 1], [2]
    and [3], an empty auxiliary stream, [T = 4]; one kernel with decay
    1 and no lag; two states. *)
Definition ex_tri : model :=
  bound_model [1] [0] 2 3 3 [[1]; [2]; [3]; []] 4 [0; 1; 2; 3]
    [0; 1; 2; 3]%nat [0; 1; 0; 1]%nat.

(** A coefficient vector for [ex_tri]: three baselines, nine
    [alpha_{u,i,j}] and three link-function tables of two entries. *)
Definition ex_tri_coeffs : list R :=
  [1; 1; 1; 1; 0; 1; 0; 1; 0; 1; 0; 1; 1; 2; 1; 2; 1; 2].

(** * Proofs *)

(** ** The result monad and the arrays *)

Lemma bind_Ok {A B} (a : A) (f : A -> result B) : (Ok a ≫= f) = f a.
Proof. reflexivity. Qed.

Lemma bind_Err {A B} (e : error) (f : A -> result B) : (Err e ≫= f) = Err e.
Proof. reflexivity. Qed.

Lemma bind_Ok_inv {A B} (c : result A) (f : A -> result B) (b : B) :
  c ≫= f = Ok b -> exists a, c = Ok a /\ f a = Ok b.
Proof. destruct c as [a|e]; [eauto | discriminate]. Qed.

Lemma get_lookup {A} (d : A) (a : list A) (i : nat) (x : A) :
  a !! i = Some x -> get d a i = x.
Proof. unfold get. intros ->. reflexivity. Qed.

Lemma lookup_get {A} (d : A) (a : list A) (i : nat) :
  (i < length a)%nat -> a !! i = Some (get d a i).
Proof.
  intros Hi. destruct (lookup_lt_is_Some_2 a i Hi) as [x Hx].
  rewrite Hx. f_equal. symmetry. by apply get_lookup.
Qed.

Lemma rd_get {A} (d : A) (a : list A) (i : nat) :
  (i < length a)%nat -> rd a i = Ok (get d a i).
Proof. intros Hi. unfold rd. by rewrite (lookup_get d a i Hi). Qed.

Lemma rd_ge {A} (a : list A) (i : nat) :
  (length a <= i)%nat -> rd a i = Err OutOfBounds.
Proof. intros Hi. unfold rd. by rewrite (proj2 (lookup_ge_None a i) Hi). Qed.

Lemma rd_Ok_inv {A} (a : list A) (i : nat) (x : A) :
  rd a i = Ok x -> a !! i = Some x.
Proof. unfold rd. destruct (a !! i); intros [=]. by subst. Qed.

Lemma wr_lt {A} (a : list A) (i : nat) (v : A) :
  (i < length a)%nat -> wr a i v = Ok (<[i := v]> a).
Proof. intros Hi. unfold wr. by rewrite decide_True. Qed.

Lemma get_insert {A} (d : A) (a : list A) (i j : nat) (v : A) :
  (i < length a)%nat ->
  get d (<[i := v]> a) j = if decide (j = i) then v else get d a j.
Proof.
  intros Hi. unfold get. destruct (decide (j = i)) as [->|Hne].
  - by rewrite list_lookup_insert_eq.
  - by rewrite list_lookup_insert_ne.
Qed.

Lemma get_insert_eq {A} (d : A) (a : list A) (i : nat) (v : A) :
  (i < length a)%nat -> get d (<[i := v]> a) i = v.
Proof. intros Hi. rewrite get_insert by done. by rewrite decide_True. Qed.

Lemma get_insert_ne {A} (d : A) (a : list A) (i j : nat) (v : A) :
  j <> i -> get d (<[i := v]> a) j = get d a j.
Proof. intros Hne. unfold get. by rewrite list_lookup_insert_ne. Qed.

Lemma add_at_lt (a : list R) (i : nat) (v : R) :
  (i < length a)%nat -> add_at a i v = Ok (<[i := get 0 a i + v]> a).
Proof.
  intros Hi. unfold add_at. rewrite (rd_get 0) by done.
  rewrite bind_Ok. by apply wr_lt.
Qed.

Lemma sub_at_lt (a : list R) (i : nat) (v : R) :
  (i < length a)%nat -> sub_at a i v = Ok (<[i := get 0 a i - v]> a).
Proof.
  intros Hi. unfold sub_at. rewrite (rd_get 0) by done.
  rewrite bind_Ok. by apply wr_lt.
Qed.

Lemma insert_get_id (a : list R) (i : nat) (v : R) :
  (i < length a)%nat -> v = get 0 a i -> <[i := v]> a = a.
Proof. intros Hi ->. apply list_insert_id. by apply lookup_get. Qed.

(** ** Loops *)

Lemma for_range_snoc {S} (start n : nat) (body : nat -> S -> result S)
  (s : S) :
  for_range start (Datatypes.S n) body s =
  for_range start n body s ≫= body (start + n)%nat.
Proof.
  revert start s. induction n as [|n IH]; intros start s.
  - cbn. rewrite Nat.add_0_r. destruct (body start s); reflexivity.
  - change (for_range start (Datatypes.S (Datatypes.S n)) body s)
      with (body start s ≫= for_range (Datatypes.S start) (Datatypes.S n) body).
    change (for_range start (Datatypes.S n) body s)
      with (body start s ≫= for_range (Datatypes.S start) n body).
    destruct (body start s) as [s'|e]; [|reflexivity].
    rewrite !bind_Ok, IH. by rewrite Nat.add_succ_comm.
Qed.

(** The loop rule: an invariant that every iteration re-establishes
    holds when the loop ends, and the loop ends without an error. *)
Lemma for_range_inv {S} (P : nat -> S -> Prop) (start n : nat)
  (body : nat -> S -> result S) (s : S) :
  P start s ->
  (forall k s, (start <= k < start + n)%nat -> P k s ->
     exists s', body k s = Ok s' /\ P (Datatypes.S k) s') ->
  exists s', for_range start n body s = Ok s' /\ P (start + n)%nat s'.
Proof.
  revert start s. induction n as [|n IH]; intros start s H0 Hstep.
  - exists s. rewrite Nat.add_0_r. by split.
  - destruct (Hstep start s ltac:(lia) H0) as (s1 & Hb & H1).
    destruct (IH (Datatypes.S start) s1 H1) as (s2 & Hl & H2).
    { intros k s' Hk. apply Hstep. lia. }
    exists s2. split; [|by rewrite <- Nat.add_succ_comm].
    cbn. by rewrite Hb, bind_Ok.
Qed.

Lemma for_range_ext {S} (start n : nat) (body body' : nat -> S -> result S)
  (s : S) :
  (forall k s, (start <= k < start + n)%nat -> body k s = body' k s) ->
  for_range start n body s = for_range start n body' s.
Proof.
  revert start s. induction n as [|n IH]; intros start s Hb; [done|].
  cbn. rewrite Hb by lia. destruct (body' start s); [|done].
  rewrite !bind_Ok. apply IH. intros. apply Hb. lia.
Qed.

Lemma Rsum_app (l1 l2 : list nat) (f : nat -> R) :
  Rsum (l1 ++ l2) f = Rsum l1 f + Rsum l2 f.
Proof.
  unfold Rsum. induction l1 as [|e l1 IH]; simpl; [lra|]. rewrite IH. lra.
Qed.

Lemma Rsum_ext (l : list nat) (f f' : nat -> R) :
  (forall e, e ∈ l -> f e = f' e) -> Rsum l f = Rsum l f'.
Proof.
  unfold Rsum. induction l as [|e l IH]; intros Hf; [done|]. simpl.
  rewrite Hf by left. rewrite IH; [done|]. intros. apply Hf. by right.
Qed.

Lemma Rsum_zero (l : list nat) (f : nat -> R) :
  (forall e, e ∈ l -> f e = 0) -> Rsum l f = 0.
Proof.
  unfold Rsum. induction l as [|e l IH]; intros Hf; [done|]. simpl.
  rewrite Hf by left. rewrite IH; [lra|]. intros. apply Hf. by right.
Qed.

Lemma Rsum_seq_snoc (a n : nat) (f : nat -> R) :
  Rsum (seq a (Datatypes.S n)) f = Rsum (seq a n) f + f (a + n)%nat.
Proof. rewrite seq_S, Rsum_app. unfold Rsum. simpl. lra. Qed.

(** A loop that adds [f k] to its accumulator at every step. *)
Lemma for_range_sum (start n : nat) (body : nat -> R -> result R)
  (f : nat -> R) (s : R) :
  (forall k s, (start <= k < start + n)%nat -> body k s = Ok (s + f k)) ->
  for_range start n body s = Ok (s + Rsum (seq start n) f).
Proof.
  revert start s. induction n as [|n IH]; intros start s Hb.
  - simpl. f_equal. unfold Rsum. simpl. lra.
  - simpl. rewrite Hb by lia. rewrite bind_Ok, IH.
    + f_equal. unfold Rsum. simpl. lra.
    + intros. apply Hb. lia.
Qed.

Lemma insert_val_eq (a : list R) (i : nat) (v v' : R) :
  v = v' -> <[i := v]> a = <[i := v']> a.
Proof. by intros ->. Qed.

Lemma fold_event_spec (i : nat) (decay : R) (idx : nat) (d : R) (g_i G_i : list R) :
  (idx < length g_i)%nat -> (idx < length G_i)%nat ->
  fold_event i decay idx d (g_i, G_i) =
  Ok (if decide (i = 0%nat) then <[idx := get 0 g_i idx + g_contrib decay d]> g_i else g_i,
      <[idx := get 0 G_i idx + G_contrib decay d]> G_i).
Proof.
  intros Hg HG. unfold fold_event.
  destruct (decide (i = 0%nat)).
  - by rewrite !add_at_lt, !bind_Ok by done.
  - by rewrite !add_at_lt, !bind_Ok by done.
Qed.

Lemma Rsum_cons (e : nat) (l : list nat) (f : nat -> R) :
  Rsum (e :: l) f = f e + Rsum l f.
Proof. reflexivity. Qed.

Lemma insert_acc (a : list R) (i : nat) (x y : R) :
  (i < length a)%nat ->
  <[i := get 0 (<[i := get 0 a i + x]> a) i + y]> (<[i := get 0 a i + x]> a) =
  <[i := get 0 a i + (x + y)]> a.
Proof.
  intros Hi. rewrite list_insert_insert_eq, get_insert_eq by done.
  apply insert_val_eq. lra.
Qed.

Lemma insert_acc_0 (a : list R) (i : nat) :
  (i < length a)%nat -> <[i := get 0 a i + 0]> a = a.
Proof. intros Hi. apply insert_get_id; [done | lra]. Qed.

Section ScanProof.
Variable m : model.
Variables i u j : nat.
Variables decay lag : R.
Variable k : nat.
Variable t_k : R.
Hypothesis Hts : length (global_timestamps m) = (n_total_jumps m + 1)%nat.
Hypothesis Hty : length (type_n m) = (n_total_jumps m + 1)%nat.

Lemma scan_spec (fuel last : nat) (g_i G_i : list R) :
  (n_total_jumps m - last <= fuel)%nat ->
  (last <= n_total_jumps m)%nat ->
  (get_index m k j u < length g_i)%nat ->
  (get_index m k j u < length G_i)%nat ->
  exists last',
    (last <= last' <= n_total_jumps m + 1)%nat /\
    (forall e, (last <= e < last')%nat -> tsf m e < t_k - lag) /\
    ((last' <= n_total_jumps m)%nat -> ~ tsf m last' < t_k - lag) /\
    scan m i u j decay lag k t_k fuel last (g_i, G_i) =
    Ok (last',
        (if decide (i = 0%nat)
         then <[get_index m k j u :=
                  get 0 g_i (get_index m k j u)
                  + Rsum (seq last (last' - last))
                      (scan_term m j lag t_k (g_contrib decay))]> g_i
         else g_i,
         <[get_index m k j u :=
             get 0 G_i (get_index m k j u)
             + Rsum (seq last (last' - last))
                 (scan_term m j lag t_k (G_contrib decay))]> G_i)).
Proof.
  revert last g_i G_i.
  induction fuel as [|fuel IH]; intros last g_i G_i Hfuel Hlast Hg HG.
  all: cbn [scan].
  all: rewrite (rd_get 0) by lia; rewrite bind_Ok; cbv beta; fold (tsf m last).
  all: destruct (Rlt_dec (tsf m last) (t_k - lag)) as [Hlt|Hge].
  all: try (exists last; rewrite Nat.sub_diag; unfold Rsum; simpl;
            rewrite !insert_acc_0 by done;
            split; [lia|]; split; [intros; lia|]; split; [done|];
            by destruct (decide (i = 0%nat))).
  all: rewrite (rd_get 0%nat) by lia; rewrite bind_Ok; cbv beta; fold (tyf m last).
  all: assert (Hev :
    (if decide (tyf m last = (j + 1)%nat)
     then fold_event i decay (get_index m k j u) (t_k - lag - tsf m last)
            (g_i, G_i)
     else Ok (g_i, G_i)) =
    Ok (if decide (i = 0%nat)
        then <[get_index m k j u :=
                 get 0 g_i (get_index m k j u)
                 + scan_term m j lag t_k (g_contrib decay) last]> g_i
        else g_i,
        <[get_index m k j u :=
            get 0 G_i (get_index m k j u)
            + scan_term m j lag t_k (G_contrib decay) last]> G_i)).
  1,3: unfold scan_term; destruct (decide (tyf m last = (j + 1)%nat));
       [ by apply fold_event_spec
       | rewrite !insert_acc_0 by done; by destruct (decide (i = 0%nat)) ].
  all: rewrite Hev, bind_Ok; cbv beta; clear Hev.
  all: destruct (decide (n_total_jumps m < S last)%nat) as [Hbr|Hbr].
  1,3: exists (S last); replace (S last - last)%nat with 1%nat by lia;
       unfold Rsum; simpl; rewrite !Rplus_0_r;
       split; [lia|]; split;
       [intros e He; by replace e with last by lia|]; split; [lia | done].
  - lia.
  - set (g1 := if decide (i = 0%nat) then _ else g_i).
    set (G1 := <[_ := _]> G_i).
    destruct (IH (S last) g1 G1) as (last' & Hr & Hel & Hex & Hscan).
    { lia. } { lia. }
    { subst g1. destruct (decide (i = 0%nat)); by rewrite ?length_insert. }
    { subst G1. by rewrite length_insert. }
    exists last'. split; [lia|]. split.
    { intros e He. destruct (decide (e = last)) as [->|]; [done|].
      apply Hel. lia. }
    split; [done|]. rewrite Hscan. f_equal. f_equal.
    replace (last' - last)%nat with (S (last' - S last)) by lia.
    cbn [seq]. rewrite !Rsum_cons.
    subst g1 G1. rewrite insert_acc by done.
    destruct (decide (i = 0%nat)); by rewrite ?insert_acc.
Qed.
End ScanProof.

Lemma get_index_lt m k j u :
  (k <= n_total_jumps m + 1)%nat -> (j < n_nodes m)%nat ->
  (u < length (decays m))%nat -> (get_index m k j u < cells m)%nat.
Proof.
  unfold get_index, cells, get_n_decays. intros Hk Hj Hu.
  set (D := n_nodes m) in *. set (U := length (decays m)) in *.
  set (M := n_total_jumps m) in *.
  assert (U * j + u < D * U)%nat by nia.
  nia.
Qed.

Lemma tm_event m k : (k <= n_total_jumps m)%nat -> tm m k = tsf m k.
Proof. intros Hk. unfold tm. rewrite decide_False by lia. done. Qed.

Lemma time_at_tm m k :
  length (global_timestamps m) = (n_total_jumps m + 1)%nat ->
  (k <= n_total_jumps m + 1)%nat -> time_at m k = Ok (tm m k).
Proof.
  intros Hlen Hk. unfold time_at, tm.
  destruct (decide (k = (1 + n_total_jumps m)%nat)) as [->|Hne].
  - by rewrite decide_False by (intros H; by apply H).
  - rewrite decide_True by done. by apply rd_get; lia.
Qed.

Lemma seq_split (a b n : nat) :
  (a <= b)%nat -> seq a (b - a) ++ seq b n = seq a (n + (b - a)).
Proof.
  intros Hab. rewrite (Nat.add_comm n), seq_app.
  by replace (a + (b - a))%nat with b by lia.
Qed.

Section StepProof.
Variable m : model.
Variables i u j : nat.
Variables decay lag : R.
Hypothesis Hv : valid_data m.
Hypothesis Hj : (j < n_nodes m)%nat.
Hypothesis Hu : (u < length (decays m))%nat.
Hypothesis Hlag : 0 <= lag.

Lemma eligible_mono k k' e :
  (k' <= k <= n_total_jumps m)%nat ->
  eligible m lag k' e -> eligible m lag k e.
Proof.
  unfold eligible. intros Hk He. rewrite tm_event in * by lia.
  pose proof (vd_sorted m Hv k' k ltac:(lia)). lra.
Qed.

Lemma eligible_before k e :
  (k <= n_total_jumps m)%nat -> (e <= n_total_jumps m)%nat ->
  eligible m lag k e -> (e < k)%nat.
Proof.
  unfold eligible. intros Hk He Hel. rewrite tm_event in Hel by lia.
  destruct (decide (e < k)%nat); [done|].
  pose proof (vd_sorted m Hv k e ltac:(lia)). lra.
Qed.

Lemma scanned_le k last :
  (1 <= k <= n_total_jumps m + 1)%nat -> scanned m lag k last ->
  (last <= n_total_jumps m)%nat /\ (last <= k)%nat.
Proof.
  intros Hk (H1 & Hs & _). pose proof (vd_events m Hv).
  destruct (decide (last = 1%nat)) as [->|Hne]; [lia|].
  destruct (Hs (last - 1)%nat ltac:(lia)) as (k' & Hk' & Hel).
  pose proof (eligible_before k' (last - 1)%nat ltac:(lia) ltac:(lia) Hel).
  lia.
Qed.

(** The events folded in at step [k] are those of the pointer range
    [last, last'). *)
Lemma range_sum_fold k last last' (c : R -> R) :
  (1 <= k <= n_total_jumps m + 1)%nat ->
  scanned m lag k last ->
  (last <= last' <= n_total_jumps m + 1)%nat ->
  (forall e, (last <= e < last')%nat -> tsf m e < tm m k - lag) ->
  ((last' <= n_total_jumps m)%nat -> ~ tsf m last' < tm m k - lag) ->
  Rsum (seq last (last' - last)) (scan_term m j lag (tm m k) c) =
  fold_sum m j lag k c.
Proof.
  intros Hk Hsc Hr Hin Hout.
  destruct (scanned_le k last Hk Hsc) as [HlM Hlk].
  destruct Hsc as (H1 & Hs & Hp).
  unfold fold_sum.
  replace (seq 1 (n_total_jumps m)) with
    (seq 1 (last - 1) ++ seq last (last' - last)
     ++ seq last' (n_total_jumps m + 1 - last')).
  2:{ rewrite (seq_split last last') by lia.
      rewrite (seq_split 1 last) by lia.
      f_equal. lia. }
  rewrite !Rsum_app.
  rewrite (Rsum_zero (seq 1 (last - 1))), (Rsum_zero (seq last' _)).
  - rewrite Rplus_0_l, Rplus_0_r. apply Rsum_ext.
    intros e He%elem_of_seq. unfold scan_term.
    assert (newly_eligible m lag k e) as Hnew.
    { split; [apply Hin; lia|]. intros [H2 Hel].
      apply (Hp H2 HlM). unfold eligible in *.
      pose proof (vd_sorted m Hv last e ltac:(lia)). lra. }
    destruct (decide (tyf m e = (j + 1)%nat)).
    + by rewrite decide_True.
    + rewrite decide_False; [done | tauto].
  - intros e He%elem_of_seq. rewrite decide_False; [done|].
    intros [_ [Hel _]]. apply Hout; [lia|]. unfold eligible in Hel.
    pose proof (vd_sorted m Hv last' e ltac:(lia)). lra.
  - intros e He%elem_of_seq. rewrite decide_False; [done|].
    intros [_ [_ Hn]]. apply Hn.
    destruct (Hs e ltac:(lia)) as (k' & Hk' & Hel).
    split; [lia|]. apply (eligible_mono (k - 1) k' e); [lia | done].
Qed.

Lemma kernel_step_spec k last (g_i G_i : list R) :
  (1 <= k <= n_total_jumps m + 1)%nat ->
  scanned m lag k last ->
  length g_i = cells m -> length G_i = cells m ->
  exists last',
    scanned m lag (S k) last' /\
    kernel_step m i u j decay lag k (last, (g_i, G_i)) =
    Ok (last',
        (if decide (i = 0%nat)
         then <[get_index m k j u :=
                  get 0 g_i (get_index m (k - 1) j u) * ebt m decay k
                  + fold_sum m j lag k (g_contrib decay)]> g_i
         else g_i,
         <[get_index m k j u :=
             (1 - ebt m decay k) / decay * get 0 g_i (get_index m (k - 1) j u)
             + fold_sum m j lag k (G_contrib decay)]> G_i)).
Proof.
  intros Hk Hsc Hg HG.
  destruct (scanned_le k last Hk Hsc) as [HlM Hlk].
  pose proof (get_index_lt m k j u ltac:(lia) Hj Hu) as Hik.
  pose proof (get_index_lt m (k - 1) j u ltac:(lia) Hj Hu) as Hik1.
  unfold kernel_step.
  rewrite (time_at_tm m k (vd_ts_len m Hv)) by lia. rewrite bind_Ok. cbv beta.
  rewrite (rd_get 0 (global_timestamps m)) by (rewrite (vd_ts_len m Hv); lia).
  rewrite bind_Ok. cbv beta. fold (tsf m (k - 1)). fold (ebt m decay k).
  rewrite !(rd_get 0 g_i) by lia. rewrite bind_Ok. cbv beta.
  rewrite wr_lt by lia. rewrite bind_Ok. cbv beta.
  set (G1 := <[_ := _]> G_i).
  set (g1 := if decide (i = 0%nat)
             then <[get_index m k j u :=
                      get 0 g_i (get_index m (k - 1) j u) * ebt m decay k]> g_i
             else g_i).
  assert ((if decide (i = 0%nat)
           then Ok (get 0 g_i (get_index m (k - 1) j u))
                ≫= (fun g_prev' => wr g_i (get_index m k j u)
                                      (g_prev' * ebt m decay k))
           else Ok g_i) = Ok g1) as ->.
  { subst g1. destruct (decide (i = 0%nat)); [|done].
    rewrite bind_Ok. by rewrite wr_lt by lia. }
  rewrite bind_Ok. cbv beta.
  assert (length g1 = cells m) as Hg1.
  { subst g1. destruct (decide (i = 0%nat)); by rewrite ?length_insert. }
  assert (length G1 = cells m) as HG1 by (subst G1; by rewrite length_insert).
  destruct (scan_spec m i u j decay lag k (tm m k)
              (vd_ts_len m Hv) (vd_ty_len m Hv)
              (n_total_jumps m - last)%nat last g1 G1)
    as (last' & Hr & Hin & Hout & Hscan); [lia..|].
  exists last'. split.
  - destruct Hsc as (H1 & Hs & Hp). split; [lia|]. split.
    + intros e He. destruct (decide (e < last)%nat) as [Hlt|Hge].
      * destruct (Hs e ltac:(lia)) as (k' & Hk' & Hel).
        exists k'. split; [lia | done].
      * exists k. split; [lia|]. apply Hin. lia.
    + intros _ Hl'. replace (S k - 1)%nat with k by lia. by apply Hout.
  - rewrite Hscan. rewrite !(range_sum_fold k last last') by done.
    f_equal. f_equal. f_equal.
    + subst g1. destruct (decide (i = 0%nat)); [|done].
      rewrite get_insert_eq, list_insert_insert_eq by lia. done.
    + subst G1. rewrite get_insert_eq, list_insert_insert_eq by lia. done.
Qed.
End StepProof.

Lemma get_index_inj m k j u k' j' u' :
  (j < n_nodes m)%nat -> (u < length (decays m))%nat ->
  (j' < n_nodes m)%nat -> (u' < length (decays m))%nat ->
  get_index m k j u = get_index m k' j' u' -> k = k' /\ j = j' /\ u = u'.
Proof.
  unfold get_index, get_n_decays.
  set (D := n_nodes m). set (U := length (decays m)).
  intros Hj Hu Hj' Hu' Heq.
  assert (U * j + u < D * U)%nat by nia.
  assert (U * j' + u' < D * U)%nat by nia.
  assert (k = k') as -> by nia.
  assert (j = j') as -> by nia.
  split; [done|]. split; [done|]. lia.
Qed.

Section ColumnProof.
Variable m : model.
Variables i u j : nat.
Variables decay lag : R.
Hypothesis Hv : valid_data m.
Hypothesis Hj : (j < n_nodes m)%nat.
Hypothesis Hu : (u < length (decays m))%nat.
Hypothesis Hlag : 0 <= lag.

Lemma col_after_length n b :
  length (col_after m i u j decay lag n b).1 = length b.1 /\
  length (col_after m i u j decay lag n b).2 = length b.2.
Proof.
  induction n as [|n IH]; [done|]. cbn [col_after].
  destruct (col_after m i u j decay lag n b) as [g' G']. cbn in *.
  destruct IH as [<- <-]. rewrite length_insert.
  destruct (decide (i = 0%nat)); by rewrite ?length_insert.
Qed.

Lemma col_after_frame n b c :
  (forall k, (1 <= k <= n)%nat -> c <> get_index m k j u) ->
  get 0 (col_after m i u j decay lag n b).1 c = get 0 b.1 c /\
  get 0 (col_after m i u j decay lag n b).2 c = get 0 b.2 c.
Proof.
  induction n as [|n IH]; intros Hc; [done|]. cbn [col_after].
  destruct (col_after m i u j decay lag n b) as [g' G']. cbn in *.
  destruct IH as [<- <-]; [intros; apply Hc; lia|].
  pose proof (Hc (S n) ltac:(lia)).
  rewrite get_insert_ne by done.
  destruct (decide (i = 0%nat)); by rewrite ?get_insert_ne.
Qed.

Lemma col_after_not0 n b :
  i <> 0%nat -> (col_after m i u j decay lag n b).1 = b.1.
Proof.
  intros Hi. induction n as [|n IH]; [done|]. cbn [col_after].
  destruct (col_after m i u j decay lag n b) as [g' G']. cbn in *.
  by rewrite decide_False.
Qed.

Lemma col_after_rec n b k :
  length b.1 = cells m -> length b.2 = cells m ->
  (n <= n_total_jumps m + 1)%nat -> (1 <= k <= n)%nat ->
  get 0 (col_after m i u j decay lag n b).2 (get_index m k j u) =
    (1 - ebt m decay k) / decay
    * get 0 (col_after m i u j decay lag n b).1 (get_index m (k - 1) j u)
    + fold_sum m j lag k (G_contrib decay) /\
  (i = 0%nat ->
   get 0 (col_after m i u j decay lag n b).1 (get_index m k j u) =
     get 0 (col_after m i u j decay lag n b).1 (get_index m (k - 1) j u)
     * ebt m decay k
     + fold_sum m j lag k (g_contrib decay)).
Proof.
  intros Hg HG. induction n as [|n IH]; intros Hn Hk; [lia|].
  pose proof (col_after_length n b) as [Hl1 Hl2].
  cbn [col_after].
  destruct (col_after m i u j decay lag n b) as [g' G']. cbn in *.
  pose proof (get_index_lt m (S n) j u ltac:(lia) Hj Hu) as Hin.
  assert (forall k', k' <> S n ->
            get_index m k' j u <> get_index m (S n) j u) as Hne.
  { intros k' Hk' Heq.
    by destruct (get_index_inj m _ _ _ _ _ _ Hj Hu Hj Hu Heq). }
  destruct (decide (k = S n)) as [->|Hkn].
  - replace (S n - 1)%nat with n by lia.
    rewrite get_insert_eq by lia. split.
    + f_equal. f_equal.
      destruct (decide (i = 0%nat)); [|done].
      rewrite get_insert_ne; [done | apply Hne; lia].
    + intros Hi. rewrite !decide_True by done.
      rewrite get_insert_eq by lia.
      rewrite get_insert_ne; [done | apply Hne; lia].
  - destruct IH as [IH1 IH2]; [lia..|].
    rewrite get_insert_ne by (apply Hne; lia). split.
    + rewrite IH1. f_equal. f_equal.
      destruct (decide (i = 0%nat)); [|done].
      rewrite get_insert_ne; [done | apply Hne; lia].
    + intros Hi. rewrite !decide_True by done.
      rewrite !get_insert_ne by (apply Hne; lia). by apply IH2.
Qed.

Lemma kernel_column_eq b :
  length b.1 = cells m -> length b.2 = cells m ->
  kernel_column m i u j decay lag b =
  Ok (col_after m i u j decay lag (n_total_jumps m + 1) b).
Proof.
  intros Hg HG. unfold kernel_column.
  destruct (for_range_inv
    (fun k s => exists last,
       s = (last, col_after m i u j decay lag (k - 1) b) /\
       scanned m lag k last)
    1 (n_total_jumps m + 1) (kernel_step m i u j decay lag) (1%nat, b))
    as (s' & Hs' & last & -> & _).
  - exists 1%nat. split; [done|]. pose proof (vd_events m Hv).
    split; [lia|]. split; intros; lia.
  - intros k s Hk (last & -> & Hsc).
    pose proof (col_after_length (k - 1) b) as [Hl1 Hl2].
    destruct (col_after m i u j decay lag (k - 1) b) as [g' G'] eqn:Hc.
    cbn in Hl1, Hl2.
    destruct (kernel_step_spec m i u j decay lag Hv Hj Hu Hlag
                k last g' G') as (last' & Hsc' & Hstep);
      [lia | done | congruence | congruence |].
    eexists. split; [exact Hstep|]. exists last'. split; [|done].
    f_equal. replace (S k - 1)%nat with (S (k - 1)) by lia.
    cbn [col_after]. rewrite Hc.
    by replace (S (k - 1)) with k by lia.
  - rewrite Hs', bind_Ok. cbv beta.
    by replace (1 + (n_total_jumps m + 1) - 1)%nat
      with (n_total_jumps m + 1)%nat by lia.
Qed.

Lemma kernel_column_spec b :
  length b.1 = cells m -> length b.2 = cells m ->
  exists b',
    kernel_column m i u j decay lag b = Ok b' /\
    length b'.1 = cells m /\ length b'.2 = cells m /\
    col_done m i u j decay lag b' /\
    (i <> 0%nat -> b'.1 = b.1) /\
    (forall c,
       (forall k, (1 <= k <= n_total_jumps m + 1)%nat ->
          c <> get_index m k j u) ->
       get 0 b'.1 c = get 0 b.1 c /\ get 0 b'.2 c = get 0 b.2 c).
Proof.
  intros Hg HG. eexists. split; [by apply kernel_column_eq|].
  pose proof (col_after_length (n_total_jumps m + 1) b) as [Hl1 Hl2].
  split; [congruence|]. split; [congruence|]. split.
  { intros k Hk. by apply col_after_rec. }
  split; [apply col_after_not0|]. apply col_after_frame.
Qed.
End ColumnProof.

Lemma col_done_agree m i u j decay lag (b b' : list R * list R) :
  (forall k, (k <= n_total_jumps m + 1)%nat ->
     get 0 b'.1 (get_index m k j u) = get 0 b.1 (get_index m k j u) /\
     get 0 b'.2 (get_index m k j u) = get 0 b.2 (get_index m k j u)) ->
  col_done m i u j decay lag b -> col_done m i u j decay lag b'.
Proof.
  intros Hag Hd k Hk. destruct (Hd k Hk) as [H1 H2].
  destruct (Hag k ltac:(lia)) as [-> ->].
  destruct (Hag (k - 1)%nat ltac:(lia)) as [-> _]. done.
Qed.

Section WeightsProof.
Variable m : model.
Variable i : nat.
Hypothesis Hv : valid_data m.

Lemma kernel_weights_spec b :
  length b.1 = cells m -> length b.2 = cells m ->
  exists b',
    kernel_weights m i b = Ok b' /\
    length b'.1 = cells m /\ length b'.2 = cells m /\
    weights_done m i b' /\
    (i <> 0%nat -> b'.1 = b.1) /\
    (forall c, unwritten m c ->
       get 0 b'.1 c = get 0 b.1 c /\ get 0 b'.2 c = get 0 b.2 c).
Proof.
  intros Hg HG. unfold kernel_weights.
  set (P := fun (u' j' : nat) (b' : list R * list R) =>
    length b'.1 = cells m /\ length b'.2 = cells m /\
    (forall u j, (u < u' \/ (u = u' /\ j < j'))%nat ->
       (u < length (decays m))%nat -> (j < n_nodes m)%nat ->
       col_done m i u j (decay_of m u) (lag_of m u) b') /\
    (i <> 0%nat -> b'.1 = b.1) /\
    (forall c, unwritten m c ->
       get 0 b'.1 c = get 0 b.1 c /\ get 0 b'.2 c = get 0 b.2 c)).
  destruct (for_range_inv (fun u' b' => P u' 0%nat b')
              0 (length (decays m))
              (fun u b =>
                 decay ← rd (decays m) u;
                 lag ← rd (lags m) u;
                 for_range 0 (n_nodes m)
                   (fun j b => kernel_column m i u j decay lag b) b)
              b) as (b' & Hb' & HP).
  3:{ exists b'. split; [exact Hb'|].
      destruct HP as (H1 & H2 & H3 & H4 & H5).
      split; [done|]. split; [done|]. split; [|by split].
      intros u j Hu Hj. apply H3; [lia | done | done]. }
  { unfold P. split; [done|]. split; [done|]. split; [|by split].
    intros u j [Hlt|[_ Hlt]]; inversion Hlt. }
  intros u b1 Hu HP.
  rewrite (rd_get 0 (decays m)) by lia. rewrite bind_Ok. cbv beta.
  rewrite (rd_get 0 (lags m)) by (rewrite (vd_lags_len m Hv); lia).
  rewrite bind_Ok. cbv beta. fold (decay_of m u). fold (lag_of m u).
  destruct (for_range_inv (fun j' b' => P u j' b')
              0 (n_nodes m)
              (fun j b => kernel_column m i u j (decay_of m u) (lag_of m u) b)
              b1 HP) as (b2 & Hb2 & HP2).
  2:{ exists b2. split; [exact Hb2|].
      destruct HP2 as (H1 & H2 & H3 & H4 & H5).
      split; [done|]. split; [done|]. split; [|by split].
      intros u0 j0 Hlt Hu0 Hj0. apply H3; [lia | done | done]. }
  intros j b3 Hj (H1 & H2 & H3 & H4 & H5).
  destruct (kernel_column_spec m i u j (decay_of m u) (lag_of m u) Hv
              ltac:(lia) ltac:(lia)
              ltac:(apply (vd_lags m Hv); rewrite (vd_lags_len m Hv); lia)
              b3 H1 H2)
    as (b4 & Hb4 & L1 & L2 & Hd & Hn0 & Hfr).
  exists b4. split; [exact Hb4|]. unfold P.
  split; [done|]. split; [done|]. split; [|split].
  - intros u0 j0 Hlt Hu0 Hj0.
    destruct (decide (u0 = u /\ j0 = j)) as [[-> ->]|Hne]; [done|].
    apply (col_done_agree m i u0 j0 _ _ b3).
    + intros k Hk. apply Hfr. intros k' Hk' Heq.
      destruct (get_index_inj m k j0 u0 k' j u Hj0 Hu0
                  ltac:(lia) ltac:(lia) Heq) as (_ & -> & ->).
      by apply Hne.
    + apply H3; [lia | done | done].
  - intros Hi. rewrite Hn0 by done. by apply H4.
  - intros c Hc. destruct (H5 c Hc) as [<- <-].
    apply Hfr. intros k Hk. apply Hc; lia.
Qed.
End WeightsProof.

Lemma get_zeros n c : get 0 (zeros n) c = 0.
Proof.
  unfold get, zeros. destruct (replicate n 0 !! c) as [x|] eqn:E; [|done].
  by apply lookup_replicate in E as [-> _].
Qed.

Lemma length_zeros n : length (zeros n) = n.
Proof. apply length_replicate. Qed.

Section StatsProof.
Variable m : model.
Variable i : nat.
Hypothesis Hv : valid_data m.

Lemma H12_loop :
  exists h1 h2,
    for_range 1 (n_total_jumps m + 1) (H12_step m i)
      (<[gnf m (n_total_jumps m) := get 0 (zeros (MaxN_of_f m)) (gnf m (n_total_jumps m)) - 1]>
         (zeros (MaxN_of_f m)), zeros (MaxN_of_f m)) = Ok (h1, h2) /\
    length h1 = MaxN_of_f m /\ length h2 = MaxN_of_f m /\
    (forall n, get 0 h1 n = H1_spec m i n) /\
    (forall n, get 0 h2 n = H2_spec m n).
Proof.
  pose proof (vd_states m Hv) as Hst.
  destruct (for_range_inv
    (fun k (h : list R * list R) =>
       length h.1 = MaxN_of_f m /\ length h.2 = MaxN_of_f m /\
       (forall n, get 0 h.1 n =
          Rsum (seq 1 (Nat.min (k - 1) (n_total_jumps m))) (fun k =>
            if decide (gnf m (k - 1) = n)
            then (if decide (tyf m k = (i + 1)%nat) then 1 else 0) else 0)
          - (if decide (gnf m (n_total_jumps m) = n) then 1 else 0)) /\
       (forall n, get 0 h.2 n =
          - Rsum (seq 1 (k - 1)) (fun k =>
              if decide (gnf m (k - 1) = n)
              then tm m k - tsf m (k - 1) else 0)))
    1 (n_total_jumps m + 1) (H12_step m i)
    (<[gnf m (n_total_jumps m) := get 0 (zeros (MaxN_of_f m)) (gnf m (n_total_jumps m)) - 1]>
         (zeros (MaxN_of_f m)), zeros (MaxN_of_f m)))
    as ([h1 h2] & Hl & L1 & L2 & E1 & E2).
  - cbn. rewrite length_insert, length_zeros.
    split; [done|]. split; [done|]. split.
    + intros n. rewrite get_insert by (rewrite length_zeros; apply Hst; lia).
      rewrite !get_zeros. unfold Rsum. cbn.
      destruct (decide (n = gnf m (n_total_jumps m))) as [->|Hne].
      * rewrite decide_True by done. lra.
      * rewrite decide_False by done. lra.
    + intros n. rewrite get_zeros. unfold Rsum. cbn. lra.
  - intros k [h1 h2] Hk (L1 & L2 & E1 & E2). cbn in L1, L2, E1, E2.
    unfold H12_step.
    set (h1' := if decide (k <> (1 + n_total_jumps m)%nat)
                then <[gnf m (k - 1) := get 0 h1 (gnf m (k - 1))
                         + (if decide (tyf m k = (i + 1)%nat) then 1 else 0)]> h1
                else h1).
    assert ((if decide (k <> (1 + n_total_jumps m)%nat)
             then n ← rd (global_n m) (k - 1);
                  ty ← rd (type_n m) k;
                  add_at h1 n (if decide (ty = (i + 1)%nat) then 1 else 0)
             else Ok h1) = Ok h1') as ->.
    { subst h1'. destruct (decide (k <> (1 + n_total_jumps m)%nat)); [|done].
      rewrite (rd_get 0%nat (global_n m)) by (rewrite (vd_gn_len m Hv); lia).
      rewrite bind_Ok. cbv beta.
      rewrite (rd_get 0%nat (type_n m)) by (rewrite (vd_ty_len m Hv); lia).
      rewrite bind_Ok. cbv beta. fold (gnf m (k - 1)). fold (tyf m k).
      rewrite add_at_lt by (rewrite L1; apply Hst; lia). done. }
    rewrite bind_Ok. cbv beta.
    rewrite (time_at_tm m k (vd_ts_len m Hv)) by lia.
    rewrite bind_Ok. cbv beta.
    rewrite (rd_get 0%nat (global_n m)) by (rewrite (vd_gn_len m Hv); lia).
    rewrite bind_Ok. cbv beta.
    rewrite (rd_get 0 (global_timestamps m)) by (rewrite (vd_ts_len m Hv); lia).
    rewrite bind_Ok. cbv beta. fold (gnf m (k - 1)). fold (tsf m (k - 1)).
    rewrite sub_at_lt by (rewrite L2; apply Hst; lia). rewrite bind_Ok.
    eexists. split; [reflexivity|]. cbn [fst snd].
    rewrite length_insert.
    assert (length h1' = MaxN_of_f m) as L1'.
    { subst h1'. destruct (decide _); by rewrite ?length_insert. }
    split; [done|]. split; [done|]. split.
    + intros n. subst h1'.
      destruct (decide (k <> (1 + n_total_jumps m)%nat)) as [Hne|Heq].
      * replace (Nat.min (S k - 1) (n_total_jumps m)) with (S (k - 1)) by lia.
        rewrite Rsum_seq_snoc. replace (1 + (k - 1))%nat with k by lia.
        rewrite get_insert by (rewrite L1; apply Hst; lia).
        rewrite !E1.
        replace (Nat.min (k - 1) (n_total_jumps m)) with (k - 1)%nat by lia.
        destruct (decide (n = gnf m (k - 1))) as [->|Hn].
        -- rewrite (decide_True (P := gnf m (k - 1) = gnf m (k - 1))) by done.
           lra.
        -- rewrite (decide_False (P := gnf m (k - 1) = n)) by done. lra.
      * rewrite E1. f_equal. f_equal. f_equal. lia.
    + intros n. replace (S k - 1)%nat with (S (k - 1)) by lia.
      rewrite Rsum_seq_snoc. replace (1 + (k - 1))%nat with k by lia.
      rewrite get_insert by (rewrite L2; apply Hst; lia).
      rewrite !E2.
      destruct (decide (n = gnf m (k - 1))) as [->|Hn].
      -- rewrite (decide_True (P := gnf m (k - 1) = gnf m (k - 1))) by done.
         lra.
      -- rewrite (decide_False (P := gnf m (k - 1) = n)) by done. lra.
  - exists h1, h2. split; [exact Hl|]. cbn [fst snd] in *.
    split; [done|]. split; [done|]. split.
    + intros n. rewrite E1. unfold H1_spec.
      by replace (Nat.min (1 + (n_total_jumps m + 1) - 1) (n_total_jumps m))
        with (n_total_jumps m) by lia.
    + intros n. rewrite E2. unfold H2_spec.
      by replace (1 + (n_total_jumps m + 1) - 1)%nat
        with (n_total_jumps m + 1)%nat by lia.
Qed.

Lemma H3_index_inj (n n' u u' : nat) :
  (u < length (decays m))%nat -> (u' < length (decays m))%nat ->
  (n * length (decays m) + u = n' * length (decays m) + u')%nat ->
  n = n' /\ u = u'.
Proof. intros Hu Hu' Heq. assert (n = n') by nia. split; [done | nia]. Qed.

Lemma H3_loop (G_i : list R) :
  (i < n_nodes m)%nat -> length G_i = cells m ->
  exists h3,
    for_range 0 (length (decays m)) (fun u h =>
      for_range 1 (n_total_jumps m + 1) (H3_step m i G_i u) h)
      (zeros (MaxN_of_f m * length (decays m))) = Ok h3 /\
    length h3 = (MaxN_of_f m * length (decays m))%nat /\
    (forall n u, (n < MaxN_of_f m)%nat -> (u < length (decays m))%nat ->
       get 0 h3 (n * length (decays m) + u) = H3_spec m G_i i n u).
Proof.
  intros Hi HG. pose proof (vd_states m Hv) as Hst.
  destruct (for_range_inv
    (fun u' (h : list R) =>
       length h = (MaxN_of_f m * length (decays m))%nat /\
       (forall n u, (n < MaxN_of_f m)%nat -> (u < length (decays m))%nat ->
          get 0 h (n * length (decays m) + u) =
          if decide (u < u')%nat then H3_spec m G_i i n u else 0))
    0 (length (decays m)) (fun u h => for_range 1 (n_total_jumps m + 1) (H3_step m i G_i u) h)
    (zeros (MaxN_of_f m * length (decays m)))) as (h3 & Hl & L & E).
  - rewrite length_zeros. split; [done|]. intros n u _ _.
    rewrite get_zeros. by rewrite decide_False by lia.
  - intros u' h Hu' (L & E).
    destruct (for_range_inv
      (fun k (h' : list R) =>
         length h' = (MaxN_of_f m * length (decays m))%nat /\
         (forall n u, (n < MaxN_of_f m)%nat -> (u < length (decays m))%nat ->
            get 0 h' (n * length (decays m) + u) =
            (if decide (u < u')%nat then H3_spec m G_i i n u else 0)
            - (if decide (u = u')
               then Rsum (seq 1 (k - 1)) (fun k =>
                      if decide (gnf m (k - 1) = n)
                      then get 0 G_i (get_index m k i u') else 0)
               else 0)))
      1 (n_total_jumps m + 1) (H3_step m i G_i u') h) as (h' & Hl' & L' & E').
    + split; [done|]. intros n u Hn Hu. rewrite E by done.
      unfold Rsum. cbn. destruct (decide (u = u')); lra.
    + intros k h1 Hk (L1 & E1). unfold H3_step.
      rewrite (rd_get 0%nat (global_n m)) by (rewrite (vd_gn_len m Hv); lia).
      rewrite bind_Ok. cbv beta. fold (gnf m (k - 1)).
      pose proof (get_index_lt m k i u' ltac:(lia) Hi ltac:(lia)).
      rewrite (rd_get 0 G_i) by lia. rewrite bind_Ok. cbv beta.
      pose proof (Hst (k - 1)%nat ltac:(lia)) as Hn1.
      assert (gnf m (k - 1) * length (decays m) + u' < MaxN_of_f m * length (decays m))%nat as Hin
        by nia.
      rewrite sub_at_lt by lia.
      eexists. split; [reflexivity|]. rewrite length_insert.
      split; [done|]. intros n u Hn Hu.
      replace (S k - 1)%nat with (S (k - 1)) by lia.
      rewrite Rsum_seq_snoc. replace (1 + (k - 1))%nat with k by lia.
      rewrite get_insert by lia. rewrite !E1 by (done || lia).
      destruct (decide ((n * length (decays m) + u)%nat = (gnf m (k - 1) * length (decays m) + u')%nat))
        as [Heq|Hne].
      * apply H3_index_inj in Heq as [-> ->]; [|done|lia].
        rewrite !(decide_True (P := u' = u')) by done.
        rewrite (decide_True (P := gnf m (k - 1) = gnf m (k - 1))) by done.
        lra.
      * destruct (decide (u = u')) as [->|Hu'']; [|lra].
        rewrite (decide_False (P := gnf m (k - 1) = n)); [lra|].
        intros <-. by apply Hne.
    + exists h'. split; [exact Hl'|]. split; [done|].
      intros n u Hn Hu. rewrite E' by done.
      replace (1 + (n_total_jumps m + 1) - 1)%nat
        with (n_total_jumps m + 1)%nat by lia.
      destruct (decide (u = u')) as [->|Hne].
      * rewrite decide_False by lia. rewrite decide_True by lia.
        unfold H3_spec. lra.
      * destruct (decide (u < u')%nat).
        -- rewrite decide_True by lia. lra.
        -- rewrite decide_False by lia. lra.
  - exists h3. split; [exact Hl|]. split; [done|].
    intros n u Hn Hu. rewrite E by done. by rewrite decide_True by lia.
Qed.
End StatsProof.

Lemma rd_lookup {A} (a : list A) (i : nat) (x : A) :
  a !! i = Some x -> rd a i = Ok x.
Proof. unfold rd. by intros ->. Qed.

Lemma compute_weights_dim_i_spec (m : model) (i : nat) (g0 Gi0 : list R) :
  valid_data m -> (i < n_nodes m)%nat ->
  g m !! 0%nat = Some g0 -> length g0 = cells m ->
  G m !! i = Some Gi0 -> length Gi0 = cells m ->
  H1 m !! i = Some (zeros (MaxN_of_f m)) ->
  H2 m !! i = Some (zeros (MaxN_of_f m)) ->
  H3 m !! i = Some (zeros (MaxN_of_f m * length (decays m))) ->
  exists g' G' h1 h2 h3,
    compute_weights_dim_i i m =
    Ok (with_cache m (<[0%nat := g']> (g m)) (<[i := G']> (G m))
          (<[i := h1]> (H1 m)) (<[i := h2]> (H2 m)) (<[i := h3]> (H3 m))) /\
    length g' = cells m /\ length G' = cells m /\
    G_rec m g' G' /\ (i = 0%nat -> g_rec m g') /\
    (i <> 0%nat -> g' = g0) /\
    (forall c, unwritten m c -> get 0 g' c = get 0 g0 c) /\
    stats_ok m i G' h1 h2 h3.
Proof.
  intros Hv Hi Hg Hgl HG HGl Hh1 Hh2 Hh3.
  destruct (kernel_weights_spec m i Hv (g0, Gi0) Hgl HGl)
    as ([g' G'] & Hkw & L1 & L2 & Hdone & Hn0 & Hfr).
  cbn [fst snd] in *.
  destruct (H12_loop m i Hv) as (h1 & h2 & H12 & Lh1 & Lh2 & E1 & E2).
  destruct (H3_loop m i Hv G' Hi L2) as (h3 & H3l & Lh3 & E3).
  exists g', G', h1, h2, h3. split.
  - unfold compute_weights_dim_i.
    rewrite (rd_lookup _ _ _ Hg), bind_Ok. cbv beta.
    rewrite (rd_lookup _ _ _ HG), bind_Ok. cbv beta.
    rewrite Hkw, bind_Ok. cbv beta iota.
    rewrite (rd_lookup _ _ _ Hh1), bind_Ok. cbv beta.
    rewrite (rd_lookup _ _ _ Hh2), bind_Ok. cbv beta.
    rewrite (rd_lookup _ _ _ Hh3), bind_Ok. cbv beta.
    rewrite (rd_get 0%nat (global_n m)) by (rewrite (vd_gn_len m Hv); lia).
    rewrite bind_Ok. cbv beta. fold (gnf m (n_total_jumps m)).
    rewrite sub_at_lt
      by (rewrite length_zeros; apply (vd_states m Hv); lia).
    rewrite bind_Ok. cbv beta.
    rewrite H12, bind_Ok. cbv beta iota.
    rewrite H3l, bind_Ok. done.
  - split; [done|]. split; [done|]. split; [|split; [|split; [|split]]].
    + intros u j k Hu Hj Hk. by apply (Hdone u j Hu Hj k Hk).
    + intros -> u j k Hu Hj Hk. by apply (Hdone u j Hu Hj k Hk).
    + done.
    + intros c Hc. by apply Hfr.
    + done.
Qed.

Lemma data_eq_refl m : data_eq m m.
Proof. by repeat split. Qed.

Lemma data_eq_trans m1 m2 m3 : data_eq m1 m2 -> data_eq m2 m3 -> data_eq m1 m3.
Proof.
  unfold data_eq. intros H1 H2. destruct_and!. repeat split; congruence.
Qed.

Lemma valid_data_eq m m' : data_eq m m' -> valid_data m -> valid_data m'.
Proof.
  intros He Hv. destruct m, m'. unfold data_eq in He. cbn in He.
  destruct_and!. subst. destruct Hv. by constructor.
Qed.

Lemma compute_weights_ok (m : model) :
  valid_data m ->
  exists m',
    compute_weights m = (Ok (), m') /\ data_eq m m' /\ cache_ok m' /\
    weights_computed m' = true.
Proof.
  intros Hv. unfold compute_weights, allocate_weights, parallel_run.
  pose proof (vd_nodes m Hv) as HD.
  rewrite decide_False by lia.
  rewrite (rd_get 0%nat) by (apply (vd_counts m Hv)).
  rewrite bind_Ok. cbv beta zeta.
  match goal with |- context [for_range 0 _ _ ?x] => set (m1 := x) end.
  change (n_nodes m1) with (n_nodes m).
  assert (data_eq m m1) as Hd1 by (by repeat split).
  pose proof (valid_data_eq m m1 Hd1 Hv) as Hv1.
  destruct (for_range_inv
    (fun n m' =>
       exists gs Gs h1s h2s h3s gb,
         m' = with_cache m1 gs Gs h1s h2s h3s /\
         length Gs = n_nodes m /\ length h1s = n_nodes m /\
         length h2s = n_nodes m /\ length h3s = n_nodes m /\
         gs !! 0%nat = Some gb /\ length gb = cells m /\ g_zero m gb /\
         ((1 <= n)%nat -> g_rec m gb) /\
         forall i, (i < n_nodes m)%nat ->
           exists Gb h1 h2 h3,
             Gs !! i = Some Gb /\ h1s !! i = Some h1 /\ h2s !! i = Some h2 /\
             h3s !! i = Some h3 /\ length Gb = cells m /\
             ((i < n)%nat -> G_rec m gb Gb /\ stats_ok m i Gb h1 h2 h3) /\
             ((n <= i)%nat ->
                h1 = zeros (MaxN_of_f m) /\ h2 = zeros (MaxN_of_f m) /\
                h3 = zeros (MaxN_of_f m * length (decays m))))
    0 (n_nodes m) compute_weights_dim_i m1)
    as (m2 & Hloop & gs & Gs & h1s & h2s & h3s & gb & -> & LG & L1 & L2 & L3
        & Hgb & Lgb & Hz & Hrec & Hall).
  - exists (g m1), (G m1), (H1 m1), (H2 m1), (H3 m1), (zeros (cells m)).
    subst m1. cbn [g G H1 H2 H3].
    split; [done|]. rewrite !length_replicate.
    split; [done|]. split; [done|]. split; [done|]. split; [done|].
    split.
    { rewrite list_lookup_insert_eq; [done|]. rewrite length_replicate. lia. }
    split; [apply length_zeros|]. split.
    { intros u j _ _. apply get_zeros. }
    split; [lia|]. intros i Hi.
    exists (zeros (cells m)), (zeros (MaxN_of_f m)), (zeros (MaxN_of_f m)),
      (zeros (MaxN_of_f m * length (decays m))).
    rewrite !lookup_replicate_2 by done.
    split; [done|]. split; [done|]. split; [done|]. split; [done|].
    split; [apply length_zeros|]. split; [lia | done].
  - intros n m' Hn (gs & Gs & h1s & h2s & h3s & gb & -> & LG & L1 & L2 & L3
                    & Hgb & Lgb & Hz & Hrec & Hall).
    destruct (Hall n ltac:(lia))
      as (Gb & h1 & h2 & h3 & HGb & Hh1 & Hh2 & Hh3 & LGb & _ & Hzero).
    destruct (Hzero ltac:(lia)) as (-> & -> & ->).
    destruct (compute_weights_dim_i_spec
                (with_cache m1 gs Gs h1s h2s h3s) n gb Gb)
      as (g' & G' & h1' & h2' & h3' & Hc & Lg' & LG' & HGr & Hgr & Hn0 & Hfr
          & Hst); try done.
    { apply (valid_data_eq m); [by repeat split | done]. }
    { cbn. lia. }
    eexists. split; [exact Hc|].
    exists (<[0%nat := g']> gs), (<[n := G']> Gs), (<[n := h1']> h1s),
      (<[n := h2']> h2s), (<[n := h3']> h3s), g'.
    split; [done|]. rewrite !length_insert.
    split; [done|]. split; [done|]. split; [done|]. split; [done|].
    split.
    { apply list_lookup_insert_eq. by apply lookup_lt_Some in Hgb. }
    split; [done|]. split.
    { intros u j Hu Hj. rewrite Hfr; [by apply Hz|].
      intros k j' u' Hk Hj' Hu' Heq.
      destruct (get_index_inj m 0 j u k j' u' Hj Hu Hj' Hu' Heq). lia. }
    split.
    { intros _. destruct (decide (n = 0%nat)) as [->|Hne]; [by apply Hgr|].
      rewrite Hn0 by done. apply Hrec. lia. }
    intros i Hi. destruct (decide (i = n)) as [->|Hne].
    + exists G', h1', h2', h3'.
      rewrite !list_lookup_insert_eq by lia.
      split; [done|]. split; [done|]. split; [done|]. split; [done|].
      split; [done|]. split; [done | lia].
    + destruct (Hall i Hi)
        as (Gb' & k1 & k2 & k3 & HGb' & Hk1 & Hk2 & Hk3 & LGb' & Hlt & Hge).
      exists Gb', k1, k2, k3.
      rewrite !list_lookup_insert_ne by done.
      split; [done|]. split; [done|]. split; [done|]. split; [done|].
      split; [done|]. split.
      * intros Hin. assert (n <> 0%nat) by lia.
        rewrite Hn0 by done. apply Hlt. lia.
      * intros Hin. apply Hge. lia.
  - rewrite Hloop. eexists. split; [reflexivity|].
    split; [by repeat split|]. split; [|done].
    assert (forall i, (i < n_nodes m)%nat ->
              exists Gb h1 h2 h3,
                Gs !! i = Some Gb /\ h1s !! i = Some h1 /\
                h2s !! i = Some h2 /\ h3s !! i = Some h3 /\
                length Gb = cells m /\ G_rec m gb Gb /\
                stats_ok m i Gb h1 h2 h3) as Hall'.
    { intros i Hi. destruct (Hall i Hi)
        as (Gb & h1 & h2 & h3 & ? & ? & ? & ? & ? & Hlt & _).
      destruct (Hlt ltac:(lia)). by exists Gb, h1, h2, h3. }
    constructor; cbn.
    + by apply lookup_lt_Some in Hgb.
    + unfold g_buf. cbn. by rewrite (get_lookup _ _ _ _ Hgb).
    + unfold g_buf. cbn. by rewrite (get_lookup _ _ _ _ Hgb).
    + unfold g_buf. cbn. rewrite (get_lookup _ _ _ _ Hgb). apply Hrec. lia.
    + done.
    + by rewrite length_replicate.
    + done.
    + done.
    + done.
    + intros i Hi. destruct (Hall' i Hi)
        as (Gb & h1 & h2 & h3 & H1' & H2' & H3' & H4' & ? & ? & ?).
      unfold G_buf, g_buf. cbn.
      rewrite (get_lookup _ _ _ _ Hgb), (get_lookup _ _ _ _ H1'). done.
    + intros i Hi. destruct (Hall' i Hi)
        as (Gb & h1 & h2 & h3 & H1' & H2' & H3' & H4' & ? & ? & ?).
      unfold G_buf, H1_buf, H2_buf, H3_buf. cbn.
      rewrite (get_lookup _ _ _ _ H1'), (get_lookup _ _ _ _ H2'),
        (get_lookup _ _ _ _ H3'), (get_lookup _ _ _ _ H4'). done.
    + done.
Qed.

Lemma Rsum_snoc (l : list nat) (e : nat) (f : nat -> R) :
  Rsum (l ++ [e]) f = Rsum l f + f e.
Proof. rewrite Rsum_app. unfold Rsum at 2. simpl. lra. Qed.

(** A loop whose steps add [f k], or raise [e] at the steps that
    satisfy [bad]. *)
Lemma for_range_sum_err (start n : nat) (body : nat -> R -> result R)
  (f : nat -> R) (bad : nat -> Prop) (e : error) (s : R) :
  (forall k s, (start <= k < start + n)%nat ->
     (~ bad k /\ body k s = Ok (s + f k)) \/ (bad k /\ body k s = Err e)) ->
  ((forall k, (start <= k < start + n)%nat -> ~ bad k) /\
   for_range start n body s = Ok (s + Rsum (seq start n) f)) \/
  ((exists k, (start <= k < start + n)%nat /\ bad k) /\
   for_range start n body s = Err e).
Proof.
  revert start s. induction n as [|n IH]; intros start s Hb.
  - left. split; [intros; lia|]. simpl. f_equal. unfold Rsum. simpl. lra.
  - cbn [for_range seq]. destruct (Hb start s ltac:(lia)) as [[Hnb ->]|[Hbad ->]].
    + rewrite bind_Ok.
      destruct (IH (S start) (s + f start)) as [[Hall ->]|[(k & Hk & Hbk) ->]].
      { intros. apply Hb. lia. }
      * left. split.
        -- intros k Hk. destruct (decide (k = start)) as [->|]; [done|].
           apply Hall. lia.
        -- f_equal. rewrite Rsum_cons. lra.
      * right. split; [|done]. exists k. split; [lia | done].
    + right. split; [|done]. exists start. split; [lia | done].
Qed.

Lemma Rsum_opp (l : list nat) (f : nat -> R) :
  Rsum l (fun k => - f k) = - Rsum l f.
Proof.
  unfold Rsum. induction l as [|e l IH]; simpl; [lra|]. rewrite IH. lra.
Qed.

Section LossProof.
Variable aidx : nat -> nat -> nat -> nat -> nat -> nat.
Variable m : model.
Variable coeffs : list R.
Hypothesis Hv : valid_data m.
Hypothesis Hc : cache_ok m.
Hypothesis Hlay : alpha_layout aidx m.
Hypothesis Hlen : length coeffs = get_n_coeffs m.

Lemma aidx_lt u i j :
  (u < length (decays m))%nat -> (i < n_nodes m)%nat -> (j < n_nodes m)%nat ->
  (get_alpha_u_i_j_index aidx m u i j < length coeffs)%nat.
Proof.
  intros Hu Hi Hj. pose proof (Hlay u i j Hu Hi Hj).
  rewrite Hlen. unfold get_n_coeffs. lia.
Qed.

Lemma f_index_lt i k :
  (i < n_nodes m)%nat -> (k < MaxN_of_f m)%nat ->
  (f_index m i k < length coeffs)%nat.
Proof.
  intros Hi Hk. rewrite Hlen. unfold get_n_coeffs, f_index. nia.
Qed.

Lemma read_f_i_spec i :
  (i < n_nodes m)%nat ->
  exists f_i,
    read_f_i m i coeffs = Ok f_i /\ length f_i = MaxN_of_f m /\
    forall k, (k < MaxN_of_f m)%nat -> get 0 f_i k = f_of m coeffs i k.
Proof.
  intros Hi. unfold read_f_i.
  destruct (for_range_inv
    (fun k (f_i : list R) =>
       length f_i = MaxN_of_f m /\
       forall k', (k' < k)%nat -> get 0 f_i k' = f_of m coeffs i k')
    0 (MaxN_of_f m)
    (fun k f_i => v ← rd coeffs (f_index m i k); wr f_i k v)
    (zeros (MaxN_of_f m))) as (f_i & Hl & L & E).
  - split; [apply length_zeros | intros; lia].
  - intros k f_i Hk [L E].
    rewrite (rd_get 0) by (apply f_index_lt; lia).
    rewrite bind_Ok. cbv beta. rewrite wr_lt by lia.
    eexists. split; [done|]. rewrite length_insert. split; [done|].
    intros k' Hk'. rewrite get_insert by lia.
    destruct (decide (k' = k)) as [->|]; [done|]. apply E. lia.
  - exists f_i. split; [done|]. split; [done|]. intros. apply E. lia.
Qed.

Lemma intensity_eq i k :
  (i < n_nodes m)%nat -> (k <= n_total_jumps m + 1)%nat ->
  intensity aidx m i coeffs (g_buf m) (mu_of coeffs i) k =
  Ok (intensity_spec aidx m coeffs i k).
Proof.
  intros Hi Hk. unfold intensity, intensity_spec.
  apply for_range_sum. intros j s Hj.
  apply for_range_sum. intros u s' Hu.
  rewrite (rd_get 0 coeffs) by (apply aidx_lt; lia).
  rewrite bind_Ok. cbv beta.
  rewrite (rd_get 0 (g_buf m))
    by (rewrite (co_g_len m Hc); apply get_index_lt; lia).
  by rewrite bind_Ok.
Qed.

Lemma sum_G_i_j_u_eq i j u f_i :
  (i < n_nodes m)%nat -> (j < n_nodes m)%nat ->
  (u < length (decays m))%nat ->
  length f_i = MaxN_of_f m ->
  (forall k, (k < MaxN_of_f m)%nat -> get 0 f_i k = f_of m coeffs i k) ->
  sum_G_i_j_u m (G_buf m i) f_i j u =
  Ok (Rsum (seq 1 (n_total_jumps m + 1)) (fun k =>
        Gv m i k j u * f_of m coeffs i (gnf m (k - 1)))).
Proof.
  intros Hi Hj Hu Lf Ef. unfold sum_G_i_j_u.
  rewrite (for_range_sum _ _ _ (fun k =>
    Gv m i k j u * f_of m coeffs i (gnf m (k - 1)))).
  { f_equal. lra. }
  intros k s Hk.
  destruct (co_G m Hc i Hi) as [LG _].
  rewrite (rd_get 0 (G_buf m i)) by (rewrite LG; apply get_index_lt; lia).
  rewrite bind_Ok. cbv beta.
  rewrite (rd_get 0%nat (global_n m)) by (rewrite (vd_gn_len m Hv); lia).
  rewrite bind_Ok. cbv beta. fold (gnf m (k - 1)).
  pose proof (vd_states m Hv (k - 1)%nat ltac:(lia)).
  rewrite (rd_get 0 f_i) by lia. rewrite bind_Ok.
  rewrite Ef by done. done.
Qed.

Lemma loss_term_1_eq (i : nat) (f_i : list R) (s : R) :
  (i < n_nodes m)%nat -> length f_i = MaxN_of_f m ->
  (forall k, (k < MaxN_of_f m)%nat -> get 0 f_i k = f_of m coeffs i k) ->
  loss_term_1 m i f_i s = Ok (s + term_A m coeffs i).
Proof.
  intros Hi Lf Ef. unfold loss_term_1, term_A. apply for_range_sum. intros k s' Hk.
  rewrite (rd_get 0%nat (type_n m)) by (rewrite (vd_ty_len m Hv); lia).
  rewrite bind_Ok. cbv beta. fold (tyf m k).
  destruct (decide (tyf m k = (i + 1)%nat)); [|f_equal; lra].
  rewrite (rd_get 0%nat (global_n m)) by (rewrite (vd_gn_len m Hv); lia).
  rewrite bind_Ok. cbv beta. fold (gnf m (k - 1)).
  pose proof (vd_states m Hv (k - 1)%nat ltac:(lia)).
  rewrite (rd_get 0 f_i) by lia. rewrite bind_Ok.
  by rewrite Ef by done.
Qed.

Lemma loss_term_2_cases (i : nat) (s : R) :
  (i < n_nodes m)%nat ->
  (positive_dim aidx m coeffs i /\
   (loss_term_2 aidx m i coeffs (g_buf m) (mu_of coeffs i) s =
    Ok (s + term_B aidx m coeffs i))) \/
  ((exists k, (1 <= k <= n_total_jumps m)%nat /\
              (tyf m k = (i + 1)%nat) /\
              (intensity_spec aidx m coeffs i k <= 0)) /\
   (loss_term_2 aidx m i coeffs (g_buf m) (mu_of coeffs i) s =
    Err DomainError)).
Proof.
  intros Hi. unfold loss_term_2, term_B.
  destruct (for_range_sum_err 1 (n_total_jumps m)
    (fun k loss =>
       ty ← rd (type_n m) k;
       if decide (ty = (i + 1)%nat) then
         tmp_s ← intensity aidx m i coeffs (g_buf m) (mu_of coeffs i) k;
         if Rle_dec tmp_s 0 then Err DomainError
         else Ok (loss + ln tmp_s)
       else Ok loss)
    (fun k => if decide (tyf m k = (i + 1)%nat)
              then ln (intensity_spec aidx m coeffs i k) else 0)
    (fun k => tyf m k = (i + 1)%nat /\
              intensity_spec aidx m coeffs i k <= 0)
    DomainError s) as [[Hall Hr]|[(k & Hk & Hty & Hle) Hr]].
  - intros k s' Hk.
    rewrite (rd_get 0%nat (type_n m)) by (rewrite (vd_ty_len m Hv); lia).
    rewrite bind_Ok. cbv beta. fold (tyf m k).
    destruct (decide (tyf m k = (i + 1)%nat)) as [Hty|Hty].
    + rewrite intensity_eq by (done || lia). rewrite bind_Ok. cbv beta.
      destruct (Rle_dec (intensity_spec aidx m coeffs i k) 0).
      * by right.
      * left. split; [tauto | done].
    + left. split; [tauto|]. f_equal. lra.
  - left. split; [|done]. intros k Hk Hty.
    destruct (Rlt_dec 0 (intensity_spec aidx m coeffs i k)); [done|].
    exfalso. apply (Hall k ltac:(lia)). split; [done | lra].
  - right. split; [|done]. exists k. split; [lia | done].
Qed.

Lemma loss_term_3_4_eq (i : nat) (f_i : list R) (s : R) :
  (i < n_nodes m)%nat -> length f_i = MaxN_of_f m ->
  (forall k, (k < MaxN_of_f m)%nat -> get 0 f_i k = f_of m coeffs i k) ->
  loss_term_3_4 m f_i (mu_of coeffs i) s = Ok (s + term_C m coeffs i).
Proof.
  intros Hi Lf Ef. unfold loss_term_3_4, term_C.
  rewrite (for_range_sum _ _ _ (fun k =>
    - (mu_of coeffs i * (tm m k - tsf m (k - 1))
       * f_of m coeffs i (gnf m (k - 1))))).
  2:{ intros k s' Hk.
      rewrite !(rd_get 0 (global_timestamps m))
        by (rewrite (vd_ts_len m Hv); lia).
      rewrite !bind_Ok. cbv beta.
      rewrite (rd_get 0%nat (global_n m)) by (rewrite (vd_gn_len m Hv); lia).
      rewrite bind_Ok. cbv beta. fold (gnf m (k - 1)).
      pose proof (vd_states m Hv (k - 1)%nat ltac:(lia)).
      rewrite (rd_get 0 f_i) by lia. rewrite bind_Ok.
      rewrite Ef by done. rewrite tm_event by lia. unfold tsf.
      f_equal; try lra. }
  rewrite bind_Ok. cbv beta.
  rewrite (rd_get 0 (global_timestamps m))
    by (rewrite (vd_ts_len m Hv); lia).
  rewrite bind_Ok. cbv beta.
  rewrite (rd_get 0%nat (global_n m)) by (rewrite (vd_gn_len m Hv); lia).
  rewrite bind_Ok. cbv beta. fold (gnf m (n_total_jumps m)).
  pose proof (vd_states m Hv (n_total_jumps m) ltac:(lia)).
  rewrite (rd_get 0 f_i) by lia. rewrite bind_Ok.
  rewrite Ef by done. f_equal.
  rewrite Nat.add_1_r, Rsum_seq_snoc.
  replace (1 + n_total_jumps m - 1)%nat with (n_total_jumps m) by lia.
  assert (tm m (1 + n_total_jumps m) = end_time m) as ->
    by (unfold tm; by rewrite decide_True).
  fold (tsf m (n_total_jumps m)).
  rewrite Rsum_opp. lra.
Qed.

Lemma loss_term_5_6_eq (i : nat) (f_i : list R) (s : R) :
  (i < n_nodes m)%nat -> length f_i = MaxN_of_f m ->
  (forall k, (k < MaxN_of_f m)%nat -> get 0 f_i k = f_of m coeffs i k) ->
  loss_term_5_6 aidx m i coeffs (G_buf m i) f_i s =
  Ok (s + term_D aidx m coeffs i).
Proof.
  intros Hi Lf Ef. unfold loss_term_5_6, term_D.
  rewrite (for_range_sum _ _ _ (fun j =>
    Rsum (seq 0 (length (decays m))) (fun u =>
      - (alpha_of aidx m coeffs u i j
         * Rsum (seq 1 (n_total_jumps m + 1)) (fun k =>
             Gv m i k j u * f_of m coeffs i (gnf m (k - 1))))))).
  - f_equal. f_equal. rewrite <- Rsum_opp. apply Rsum_ext. intros j _.
    by rewrite <- Rsum_opp.
  - intros j s' Hj. apply for_range_sum. intros u s'' Hu.
    rewrite (rd_get 0 coeffs) by (apply aidx_lt; lia).
    rewrite bind_Ok. cbv beta.
    rewrite sum_G_i_j_u_eq by (done || lia).
    rewrite bind_Ok. cbv beta. f_equal; try lra.
Qed.

Lemma loss_dim_i_spec i :
  (i < n_nodes m)%nat ->
  (positive_dim aidx m coeffs i /\
   (loss_dim_i aidx i coeffs m =
    (Ok (loss_dim_spec aidx m coeffs i),
     with_sum_G m (<[i := zeros (length (get [] (sum_G m) i))]> (sum_G m)))))
  \/
  ((exists k, (1 <= k <= n_total_jumps m)%nat /\
              (tyf m k = (i + 1)%nat) /\
              (intensity_spec aidx m coeffs i k <= 0)) /\
   (loss_dim_i aidx i coeffs m = (Err DomainError, m))).
Proof.
  intros Hi. unfold loss_dim_i, loss_before.
  rewrite (rd_get 0 coeffs) by (rewrite Hlen; unfold get_n_coeffs; lia).
  rewrite bind_Ok. cbv beta. fold (mu_of coeffs i).
  destruct (read_f_i_spec i Hi) as (f_i & -> & Lf & Ef).
  rewrite bind_Ok. cbv beta.
  rewrite (rd_get [] (g m)) by (apply (co_g m Hc)).
  rewrite bind_Ok. cbv beta. fold (g_buf m).
  rewrite (rd_get [] (G m)) by (rewrite (co_G_len m Hc); lia).
  rewrite bind_Ok. cbv beta. fold (G_buf m i).
  rewrite loss_term_1_eq by done. rewrite bind_Ok. cbv beta.
  destruct (loss_term_2_cases i (0 + term_A m coeffs i) Hi)
    as [[Hpos ->]|[Hbad ->]].
  - left. split; [done|]. rewrite bind_Ok. cbv beta.
    rewrite loss_term_3_4_eq by done. rewrite bind_Ok. cbv beta iota.
    unfold clean_sum_G.
    rewrite (rd_get [] (sum_G m)) by (rewrite (co_sum_G_len m Hc); lia).
    rewrite bind_Ok. cbv beta iota.
    rewrite loss_term_5_6_eq by done. rewrite bind_Ok. cbv beta.
    unfold loss_dim_spec. f_equal. f_equal. lra.
  - right. split; [done|]. reflexivity.
Qed.
End LossProof.

Lemma cache_ok_sum_G m sg :
  length sg = n_nodes m -> cache_ok m -> cache_ok (with_sum_G m sg).
Proof. intros Hl Hc. destruct Hc. by constructor. Qed.

Lemma valid_data_sum_G m sg : valid_data m -> valid_data (with_sum_G m sg).
Proof. apply valid_data_eq. by repeat split. Qed.

Lemma ensure_weights_ok m :
  ready m ->
  exists m',
    ensure_weights m = (Ok (), m') /\ data_eq m m' /\ valid_data m' /\
    cache_ok m' /\ weights_computed m' = true.
Proof.
  intros [Hv Hc]. unfold ensure_weights.
  destruct (weights_computed m) eqn:Hw.
  - exists m. split; [done|]. split; [apply data_eq_refl|]. auto.
  - destruct (compute_weights_ok m Hv) as (m' & -> & Hd & Hc' & Hw').
    exists m'. split; [done|]. split; [done|].
    split; [by apply (valid_data_eq m)|]. done.
Qed.

Section ReduceProof.
Variable aidx : nat -> nat -> nat -> nat -> nat -> nat.
Variable coeffs : list R.

Lemma reduce_spec (n : nat) : forall (start : nat) (acc : R) (m : model),
  valid_data m -> cache_ok m -> alpha_layout aidx m ->
  length coeffs = get_n_coeffs m ->
  (start + n <= n_nodes m)%nat ->
  ((forall i, (start <= i < start + n)%nat -> positive_dim aidx m coeffs i) /\
   (parallel_map_additive_reduce start n
      (fun i => loss_dim_i aidx i coeffs) acc m).1 =
   Ok (acc + Rsum (seq start n) (loss_dim_spec aidx m coeffs))) \/
  ((exists i k, (start <= i < start + n)%nat /\
       (1 <= k <= n_total_jumps m)%nat /\ (tyf m k = (i + 1)%nat) /\
       (intensity_spec aidx m coeffs i k <= 0)) /\
   (parallel_map_additive_reduce start n
      (fun i => loss_dim_i aidx i coeffs) acc m).1 = Err DomainError).
Proof.
  induction n as [|n IH]; intros start acc m Hv Hc Hlay Hlen Hn.
  - left. split; [intros; lia|]. cbn. f_equal. unfold Rsum. simpl. lra.
  - cbn [parallel_map_additive_reduce].
    destruct (loss_dim_i_spec aidx m coeffs Hv Hc Hlay Hlen start
                ltac:(lia)) as [[Hpos ->]|[(k & Hk & Hty & Hle) ->]].
    + set (m1 := with_sum_G m _).
      destruct (IH (S start) (acc + loss_dim_spec aidx m coeffs start) m1)
        as [[Hall Hr]|[(i & k & Hi & Hk & Hty & Hle) Hr]].
      * by apply valid_data_sum_G.
      * apply cache_ok_sum_G; [|done]. rewrite length_insert.
        apply (co_sum_G_len m Hc).
      * done.
      * done.
      * cbn. lia.
      * left. split.
        -- intros i Hi. destruct (decide (i = start)) as [->|]; [done|].
           apply (Hall i). lia.
        -- rewrite Hr. f_equal. cbn [seq]. rewrite Rsum_cons.
           change (loss_dim_spec aidx m1 coeffs)
             with (loss_dim_spec aidx m coeffs). lra.
      * right. split; [|done]. exists i, k. split; [lia|]. done.
    + right. split; [|done]. exists start, k. split; [lia|]. done.
Qed.
End ReduceProof.

Lemma alpha_layout_eq aidx m m' :
  data_eq m m' -> alpha_layout aidx m -> alpha_layout aidx m'.
Proof.
  intros Hd Hl. destruct m, m'. unfold data_eq in Hd. cbn in Hd.
  destruct_and!. subst. exact Hl.
Qed.

Lemma get_n_coeffs_eq m m' : data_eq m m' -> get_n_coeffs m' = get_n_coeffs m.
Proof.
  intros Hd. destruct m, m'. unfold data_eq in Hd. cbn in Hd.
  destruct_and!. by subst.
Qed.

Lemma cached_ok m :
  ready m ->
  ensure_weights m = (Ok (), cached m) /\ data_eq m (cached m) /\
  valid_data (cached m) /\ cache_ok (cached m) /\
  weights_computed (cached m) = true.
Proof.
  intros Hr. destruct (ensure_weights_ok m Hr) as (m' & He & H).
  unfold cached. by rewrite He.
Qed.

Lemma with_sum_G_id m : with_sum_G m (sum_G m) = m.
Proof. by destruct m. Qed.

(** [loss_dim_i] leaves the model as it is, or resets [sum_G[i]]. *)
Lemma loss_dim_i_state aidx i coeffs m :
  (loss_dim_i aidx i coeffs m).2 = m \/
  exists sg, sum_G m !! i = Some sg /\
    (loss_dim_i aidx i coeffs m).2 =
    with_sum_G m (<[i := zeros (length sg)]> (sum_G m)).
Proof.
  unfold loss_dim_i.
  destruct (loss_before aidx i coeffs m) as [[[f_i G_i] l]|e]; [|by left].
  unfold clean_sum_G, rd. destruct (sum_G m !! i) as [sg|] eqn:E; [|by left].
  right. exists sg. by split.
Qed.

Lemma reduce_state aidx coeffs (n : nat) : forall start acc m,
  exists sg,
    (parallel_map_additive_reduce start n
       (fun i => loss_dim_i aidx i coeffs) acc m).2 = with_sum_G m sg.
Proof.
  induction n as [|n IH]; intros start acc m.
  - exists (sum_G m). cbn. by rewrite with_sum_G_id.
  - cbn [parallel_map_additive_reduce].
    pose proof (loss_dim_i_state aidx start coeffs m) as Hst.
    destruct (loss_dim_i aidx start coeffs m) as [[v|e] m1]; cbn in Hst.
    + destruct (IH (S start) (acc + v) m1) as (sg & ->).
      destruct Hst as [->|(sg1 & _ & ->)]; by exists sg.
    + cbn. destruct Hst as [->|(sg1 & _ & ->)].
      * exists (sum_G m). by rewrite with_sum_G_id.
      * by eexists.
Qed.

(** The two outcomes of [loss]. *)
Lemma loss_cases aidx coeffs m :
  ready m -> alpha_layout aidx m -> length coeffs = get_n_coeffs m ->
  ((forall i, (i < n_nodes m)%nat -> positive_dim aidx (cached m) coeffs i) /\
   (loss aidx coeffs m).1 = Ok (loss_spec aidx (cached m) coeffs)) \/
  ((exists i k, (i < n_nodes m)%nat /\ (1 <= k <= n_total_jumps m)%nat /\
       (tyf m k = (i + 1)%nat) /\
       (intensity_spec aidx (cached m) coeffs i k <= 0)) /\
   (loss aidx coeffs m).1 = Err DomainError).
Proof.
  intros Hr Hlay Hlen.
  destruct (cached_ok m Hr) as (He & Hd & Hv & Hc & Hw).
  assert (n_nodes (cached m) = n_nodes m) as HD by apply Hd.
  assert (n_total_jumps (cached m) = n_total_jumps m) as HM by apply Hd.
  assert (type_n (cached m) = type_n m) as HT by apply Hd.
  unfold loss. rewrite He.
  destruct (reduce_state aidx coeffs (n_nodes (cached m)) 0 0 (cached m))
    as (sg & Hst).
  destruct (reduce_spec aidx coeffs (n_nodes (cached m)) 0 0 (cached m)
              Hv Hc (alpha_layout_eq _ _ _ Hd Hlay)
              ltac:(by rewrite (get_n_coeffs_eq _ _ Hd)) ltac:(lia))
    as [[Hall Hred]|[(i & k & Hi & Hk & Hty & Hle) Hred]].
  - left. split; [intros i Hi; apply Hall; lia|].
    destruct (parallel_map_additive_reduce _ _ _ _ _) as [r m2] eqn:E.
    cbn in Hred, Hst. subst r m2. cbn. unfold loss_spec. f_equal.
    by rewrite Rplus_0_l.
  - right. split.
    + exists i, k. split; [lia|]. split; [lia|]. split; [|done].
      unfold tyf in *. by rewrite <- HT.
    + destruct (parallel_map_additive_reduce _ _ _ _ _) as [r m2] eqn:E.
      cbn in Hred. by subst r.
Qed.

(** A loop that adds [f k] to the cell [c] at every step. *)
Lemma for_range_add_at (start n : nat) (body : nat -> list R -> result (list R))
  (c : nat) (f : nat -> R) (out : list R) :
  (c < length out)%nat ->
  (forall k o, (start <= k < start + n)%nat -> length o = length out ->
     exists x, x = get 0 o c + f k /\ body k o = Ok (<[c := x]> o)) ->
  for_range start n body out =
  Ok (<[c := get 0 out c + Rsum (seq start n) f]> out).
Proof.
  revert start out. induction n as [|n IH]; intros start out Hc Hb.
  - cbn [for_range seq]. unfold Rsum. simpl. by rewrite insert_acc_0.
  - cbn [for_range seq].
    destruct (Hb start out ltac:(lia) eq_refl) as (x & -> & ->).
    rewrite bind_Ok, IH.
    + rewrite Rsum_cons. by rewrite insert_acc.
    + by rewrite length_insert.
    + intros k o Hk Ho. apply Hb; [lia|]. by rewrite Ho, length_insert.
Qed.

(** The loop rule for an invariant that does not mention the loop
    counter. *)
Lemma for_range_pres {S} (P : S -> Prop) (start n : nat)
  (body : nat -> S -> result S) (s : S) :
  P s ->
  (forall k s, (start <= k < start + n)%nat -> P s ->
     exists s', body k s = Ok s' /\ P s') ->
  exists s', for_range start n body s = Ok s' /\ P s'.
Proof.
  intros H0 Hstep.
  by apply (for_range_inv (fun _ s => P s) start n body s H0).
Qed.

Lemma f_index_inj (m : model) i k i' k' :
  (k < MaxN_of_f m)%nat -> (k' < MaxN_of_f m)%nat ->
  f_index m i k = f_index m i' k' -> i = i' /\ k = k'.
Proof.
  unfold f_index. intros Hk Hk' Heq.
  assert (i = i') by nia. split; [done | nia].
Qed.

Section GradProof.
Variable aidx : nat -> nat -> nat -> nat -> nat -> nat.
Variable m : model.
Variable coeffs : list R.
Hypothesis Hv : valid_data m.
Hypothesis Hc : cache_ok m.
Hypothesis Hlay : alpha_layout aidx m.
Hypothesis Hlen : length coeffs = get_n_coeffs m.

Lemma tmp_flag_event i k :
  (1 <= k <= n_total_jumps m)%nat ->
  tmp_flag m i k = Ok (bool_decide (tyf m k = (i + 1)%nat)).
Proof.
  intros Hk. unfold tmp_flag. rewrite decide_False by lia.
  rewrite (rd_get 0%nat (type_n m)) by (rewrite (vd_ty_len m Hv); lia).
  by rewrite bind_Ok.
Qed.

Lemma tmp_flag_terminal i :
  tmp_flag m i (n_total_jumps m + 1) = Ok true.
Proof. unfold tmp_flag. by rewrite decide_True. Qed.

Lemma grad_mu_events_eq i out :
  (i < n_nodes m)%nat -> (i < length out)%nat ->
  grad_mu_events aidx m i coeffs (g_buf m) (mu_of coeffs i) out =
  Ok (<[i := get 0 out i
             + Rsum (seq 1 (n_total_jumps m)) (fun k =>
                 if decide (tyf m k = (i + 1)%nat)
                 then 1 / intensity_spec aidx m coeffs i k else 0)]> out).
Proof.
  intros Hi Ho. unfold grad_mu_events. apply for_range_add_at; [done|].
  intros k o Hk Lo. rewrite tmp_flag_event by lia.
  rewrite bind_Ok. cbv beta.
  destruct (decide (tyf m k = (i + 1)%nat)) as [Hty|Hty].
  - rewrite bool_decide_eq_true_2 by done.
    rewrite (intensity_eq aidx m coeffs Hc Hlay Hlen) by (done || lia).
    rewrite bind_Ok. cbv beta. rewrite add_at_lt by lia. by eexists.
  - rewrite bool_decide_eq_false_2 by done.
    eexists. split; [reflexivity|]. by rewrite insert_acc_0 by lia.
Qed.

Lemma grad_mu_compensator_eq i f_i out :
  (i < n_nodes m)%nat -> (i < length out)%nat ->
  length f_i = MaxN_of_f m ->
  (forall k, (k < MaxN_of_f m)%nat -> get 0 f_i k = f_of m coeffs i k) ->
  grad_mu_compensator m i f_i out =
  Ok (<[i := get 0 out i
             + - Rsum (seq 1 (n_total_jumps m + 1)) (fun k =>
                   (tm m k - tsf m (k - 1))
                   * f_of m coeffs i (gnf m (k - 1)))]> out).
Proof.
  intros Hi Ho Lf Ef. unfold grad_mu_compensator. rewrite <- Rsum_opp.
  apply for_range_add_at; [done|]. intros k o Hk Lo.
  rewrite (time_at_tm m k (vd_ts_len m Hv)) by lia.
  rewrite bind_Ok. cbv beta.
  rewrite (rd_get 0 (global_timestamps m))
    by (rewrite (vd_ts_len m Hv); lia).
  rewrite bind_Ok. cbv beta.
  rewrite (rd_get 0%nat (global_n m)) by (rewrite (vd_gn_len m Hv); lia).
  rewrite bind_Ok. cbv beta. fold (gnf m (k - 1)). fold (tsf m (k - 1)).
  pose proof (vd_states m Hv (k - 1)%nat ltac:(lia)).
  rewrite (rd_get 0 f_i) by lia. rewrite bind_Ok. cbv beta.
  rewrite Ef by done. rewrite sub_at_lt by lia.
  eexists. split; [|reflexivity]. lra.
Qed.

Lemma alpha_frame_refl out : alpha_frame m out out.
Proof. by split. Qed.

Lemma alpha_frame_step out out1 i j u x :
  (i < n_nodes m)%nat -> (j < n_nodes m)%nat ->
  (u < length (decays m))%nat ->
  alpha_frame m out out1 ->
  alpha_frame m out (<[get_alpha_u_i_j_index aidx m u i j := x]> out1).
Proof.
  intros Hi Hj Hu [L F]. split; [by rewrite length_insert|].
  intros c Hnc. rewrite get_insert_ne; [by apply F|].
  intros ->. apply Hnc. by apply Hlay.
Qed.

Lemma grad_alpha_events_frame i out :
  (i < n_nodes m)%nat -> length out = get_n_coeffs m ->
  exists out',
    grad_alpha_events aidx m i coeffs (g_buf m) (mu_of coeffs i) out =
    Ok out' /\ alpha_frame m out out'.
Proof.
  intros Hi Lo. unfold grad_alpha_events.
  apply for_range_pres; [apply alpha_frame_refl|].
  intros k o Hk Hf.
  assert (exists b, tmp_flag m i k = Ok b) as [b ->].
  { destruct (decide (k = (n_total_jumps m + 1)%nat)) as [->|].
    - rewrite tmp_flag_terminal. by eexists.
    - rewrite tmp_flag_event by lia. by eexists. }
  rewrite bind_Ok. cbv beta. destruct b; [|by exists o].
  rewrite (intensity_eq aidx m coeffs Hc Hlay Hlen) by (done || lia).
  rewrite bind_Ok. cbv beta.
  apply for_range_pres; [done|]. intros j o1 Hj Hf1.
  apply for_range_pres; [done|]. intros u o2 Hu Hf2.
  rewrite (rd_get 0 (g_buf m))
    by (rewrite (co_g_len m Hc); apply get_index_lt; lia).
  rewrite bind_Ok. cbv beta.
  rewrite add_at_lt.
  2:{ destruct Hf2 as [-> _]. rewrite Lo, <- Hlen.
      apply (aidx_lt aidx m coeffs Hlay Hlen); lia. }
  eexists. split; [reflexivity|]. apply alpha_frame_step; (lia || done).
Qed.
Lemma grad_alpha_compensator_frame i f_i out :
  (i < n_nodes m)%nat -> length out = get_n_coeffs m ->
  length f_i = MaxN_of_f m ->
  (forall k, (k < MaxN_of_f m)%nat -> get 0 f_i k = f_of m coeffs i k) ->
  exists out',
    grad_alpha_compensator aidx m i (G_buf m i) f_i out = Ok out' /\
    alpha_frame m out out'.
Proof.
  intros Hi Lo Lf Ef. unfold grad_alpha_compensator.
  apply for_range_pres; [apply alpha_frame_refl|]. intros j o1 Hj Hf1.
  apply for_range_pres; [done|]. intros u o2 Hu Hf2.
  rewrite (sum_G_i_j_u_eq m coeffs Hv Hc Hlen i j u f_i) by (done || lia).
  rewrite bind_Ok. cbv beta.
  rewrite sub_at_lt.
  2:{ destruct Hf2 as [-> _]. rewrite Lo, <- Hlen.
      apply (aidx_lt aidx m coeffs Hlay Hlen); lia. }
  eexists. split; [reflexivity|]. apply alpha_frame_step; (lia || done).
Qed.

Lemma result_dot_eq i n :
  (i < n_nodes m)%nat -> (n < MaxN_of_f m)%nat ->
  result_dot aidx m i coeffs n =
  Ok (Rsum (seq 0 (n_nodes m)) (fun j =>
        Rsum (seq 0 (length (decays m))) (fun u =>
          alpha_of aidx m coeffs u i j * H3v m j n u))).
Proof.
  intros Hi Hn. unfold result_dot.
  rewrite (for_range_sum _ _ _ (fun j =>
    Rsum (seq 0 (length (decays m))) (fun u =>
      alpha_of aidx m coeffs u i j * H3v m j n u))).
  { f_equal. lra. }
  intros j s Hj.
  rewrite (rd_get [] (H3 m)) by (rewrite (co_H3_len m Hc); lia).
  rewrite bind_Ok. cbv beta. fold (H3_buf m j).
  apply for_range_sum. intros u s' Hu.
  rewrite (rd_get 0 coeffs)
    by (apply (aidx_lt aidx m coeffs Hlay Hlen); lia).
  rewrite bind_Ok. cbv beta.
  destruct (co_stats m Hc j ltac:(lia)) as (_ & _ & L3 & _).
  rewrite (rd_get 0 (H3_buf m j)) by (rewrite L3; nia).
  by rewrite bind_Ok.
Qed.

Lemma grad_f_spec_eq i f_i :
  (i < n_nodes m)%nat -> length f_i = MaxN_of_f m ->
  (forall k, (k < MaxN_of_f m)%nat -> get 0 f_i k = f_of m coeffs i k) ->
  exists grad_f_i,
    grad_f aidx m i coeffs f_i (mu_of coeffs i) = Ok grad_f_i /\
    length grad_f_i = MaxN_of_f m /\
    forall n, (n < MaxN_of_f m)%nat ->
      get 0 grad_f_i n = grad_f_spec aidx m coeffs i n.
Proof.
  intros Hi Lf Ef. unfold grad_f.
  rewrite (rd_get [] (H1 m)) by (rewrite (co_H1_len m Hc); lia).
  rewrite bind_Ok. cbv beta. fold (H1_buf m i).
  rewrite (rd_get [] (H2 m)) by (rewrite (co_H2_len m Hc); lia).
  rewrite bind_Ok. cbv beta. fold (H2_buf m i).
  destruct (co_stats m Hc i Hi) as (L1 & L2 & _).
  destruct (for_range_inv
    (fun n (gf : list R) =>
       length gf = MaxN_of_f m /\
       forall n', (n' < n)%nat ->
         get 0 gf n' = grad_f_spec aidx m coeffs i n')
    0 (MaxN_of_f m)
    (fun n grad_f_i =>
       dot ← result_dot aidx m i coeffs n;
       h1 ← rd (H1_buf m i) n;
       fv ← rd f_i n;
       h2 ← rd (H2_buf m i) n;
       wr grad_f_i n (h1 / fv + mu_of coeffs i * h2 + dot))
    (zeros (MaxN_of_f m))) as (gf & Hr & L & E).
  - split; [apply length_zeros | intros; lia].
  - intros n gf Hn [L E].
    rewrite result_dot_eq by (done || lia). rewrite bind_Ok. cbv beta.
    rewrite (rd_get 0 (H1_buf m i)) by lia. rewrite bind_Ok. cbv beta.
    rewrite (rd_get 0 f_i) by lia. rewrite bind_Ok. cbv beta.
    rewrite (rd_get 0 (H2_buf m i)) by lia. rewrite bind_Ok. cbv beta.
    rewrite wr_lt by lia. eexists. split; [reflexivity|].
    rewrite length_insert. split; [done|]. intros n' Hn'.
    rewrite get_insert by lia.
    destruct (decide (n' = n)) as [->|]; [|apply E; lia].
    rewrite Ef by lia. reflexivity.
  - exists gf. split; [exact Hr|]. split; [done|]. intros. apply E. lia.
Qed.

Lemma grad_f_store i grad_f_i out :
  (i < n_nodes m)%nat -> length out = get_n_coeffs m ->
  length grad_f_i = MaxN_of_f m ->
  exists out',
    for_range 0 (MaxN_of_f m) (fun k out =>
      v ← rd grad_f_i k; wr out (f_index m i k) v) out = Ok out' /\
    length out' = length out /\
    (forall k, (k < MaxN_of_f m)%nat ->
       get 0 out' (f_index m i k) = get 0 grad_f_i k) /\
    (forall c, (forall k, (k < MaxN_of_f m)%nat -> c <> f_index m i k) ->
       get 0 out' c = get 0 out c).
Proof.
  intros Hi Lo Lg.
  destruct (for_range_inv
    (fun n (o : list R) =>
       length o = length out /\
       (forall k, (k < n)%nat ->
          get 0 o (f_index m i k) = get 0 grad_f_i k) /\
       (forall c, (forall k, (k < MaxN_of_f m)%nat -> c <> f_index m i k) ->
          get 0 o c = get 0 out c))
    0 (MaxN_of_f m)
    (fun k out => v ← rd grad_f_i k; wr out (f_index m i k) v) out)
    as (out' & Hr & L & E & F).
  - split; [done|]. split; [intros; lia | done].
  - intros n o Hn (L & E & F).
    rewrite (rd_get 0 grad_f_i) by lia. rewrite bind_Ok. cbv beta.
    assert (f_index m i n < length o)%nat as Hin.
    { rewrite L, Lo. unfold get_n_coeffs, f_index. nia. }
    rewrite wr_lt by done. eexists. split; [reflexivity|].
    rewrite length_insert. split; [done|]. split.
    + intros k Hk. rewrite get_insert by done.
      destruct (decide (f_index m i k = f_index m i n)) as [Heq|Hne].
      * by apply (f_index_inj m) in Heq as [_ ->]; [|lia..].
      * apply E. destruct (decide (k = n)) as [->|]; [done | lia].
    + intros c Hcc. rewrite get_insert_ne by (apply Hcc; lia).
      by apply F.
  - exists out'. split; [exact Hr|]. split; [done|]. split; [|done].
    intros. apply E. lia.
Qed.

Lemma grad_dim_i_spec i out :
  (i < n_nodes m)%nat -> length out = get_n_coeffs m ->
  exists out',
    grad_dim_i aidx i coeffs m out = Ok out' /\
    length out' = length out /\
    get 0 out' i = grad_mu_spec aidx m coeffs i /\
    (forall n, (n < MaxN_of_f m)%nat ->
       get 0 out' (f_index m i n) = grad_f_spec aidx m coeffs i n) /\
    (forall c, ~ dim_cells m i c -> get 0 out' c = get 0 out c).
Proof.
  intros Hi Lo. unfold grad_dim_i.
  assert (i < length out)%nat as Hio
    by (rewrite Lo; unfold get_n_coeffs; lia).
  rewrite (rd_get 0 coeffs) by (rewrite Hlen, <- Lo; done).
  rewrite bind_Ok. cbv beta. fold (mu_of coeffs i).
  rewrite (rd_get 0 out) by done. rewrite bind_Ok. cbv beta.
  destruct (read_f_i_spec m coeffs Hlen i Hi) as (f_i & -> & Lf & Ef).
  rewrite bind_Ok. cbv beta.
  rewrite (rd_get [] (g m)) by (apply (co_g m Hc)).
  rewrite bind_Ok. cbv beta. fold (g_buf m).
  rewrite (rd_get [] (G m)) by (rewrite (co_G_len m Hc); lia).
  rewrite bind_Ok. cbv beta. fold (G_buf m i).
  rewrite wr_lt by done. rewrite bind_Ok. cbv beta.
  rewrite grad_mu_events_eq by (by rewrite ?length_insert).
  rewrite bind_Ok. cbv beta.
  rewrite (grad_mu_compensator_eq i f_i)
    by (by rewrite ?length_insert).
  rewrite bind_Ok. cbv beta.
  rewrite !list_insert_insert_eq, !get_insert_eq
    by (by rewrite ?length_insert).
  set (out1 := <[i := _]> out).
  assert (length out1 = get_n_coeffs m) as Lo1
    by (subst out1; by rewrite length_insert).
  destruct (grad_alpha_events_frame i out1 Hi Lo1) as (out2 & -> & L2 & F2).
  rewrite bind_Ok. cbv beta.
  destruct (grad_alpha_compensator_frame i f_i out2 Hi ltac:(lia) Lf Ef)
    as (out3 & -> & L3 & F3).
  rewrite bind_Ok. cbv beta.
  destruct (grad_f_spec_eq i f_i Hi Lf Ef) as (gf & -> & Lgf & Egf).
  rewrite bind_Ok. cbv beta.
  destruct (grad_f_store i gf out3 Hi ltac:(lia) Lgf)
    as (out4 & -> & L4 & E4 & F4).
  assert (~ in_alpha_block m i) as Hni by (unfold in_alpha_block; lia).
  assert (forall k, (k < MaxN_of_f m)%nat -> i <> f_index m i k) as Hnf
    by (intros k Hk; unfold f_index; lia).
  exists out4. split; [done|]. split; [by rewrite L4, L3, L2, Lo1, Lo|].
  split; [|split].
  - rewrite F4 by done. rewrite F3, F2 by done. subst out1.
    rewrite get_insert_eq by done. unfold grad_mu_spec. lra.
  - intros n Hn. rewrite E4 by done. by apply Egf.
  - intros c Hnc. rewrite F4.
    2:{ intros k Hk ->. apply Hnc. right. right. by exists k. }
    rewrite F3, F2 by (intros ?; apply Hnc; right; by left).
    subst out1. rewrite get_insert_ne; [done|].
    intros ->. apply Hnc. by left.
Qed.
End GradProof.

Lemma get_map (f : R -> R) (l : list R) (c : nat) :
  (c < length l)%nat -> get 0 (map f l) c = f (get 0 l c).
Proof.
  intros Hc. unfold get. rewrite list_lookup_fmap.
  destruct (lookup_lt_is_Some_2 l c Hc) as [x ->]. done.
Qed.

Lemma negate_loop (n : nat) (out : list R) :
  (n <= length out)%nat ->
  exists out',
    for_range 0 n (fun k out => x ← rd out k; wr out k (- x)) out = Ok out' /\
    length out' = length out /\
    forall c, (c < n)%nat -> get 0 out' c = - get 0 out c.
Proof.
  intros Hn.
  destruct (for_range_inv
    (fun k (o : list R) =>
       length o = length out /\
       forall c, get 0 o c = if decide (c < k)%nat then - get 0 out c
                             else get 0 out c)
    0 n (fun k out => x ← rd out k; wr out k (- x)) out)
    as (out' & Hr & L & E).
  - split; [done|]. intros c. by rewrite decide_False by lia.
  - intros k o Hk [L E]. rewrite (rd_get 0 o) by lia.
    rewrite bind_Ok. cbv beta. rewrite wr_lt by lia.
    eexists. split; [reflexivity|]. rewrite length_insert. split; [done|].
    intros c. rewrite get_insert by lia. rewrite !E.
    destruct (decide (c = k)) as [->|].
    + rewrite decide_False by lia. by rewrite decide_True by lia.
    + destruct (decide (c < k)%nat).
      * by rewrite decide_True by lia.
      * by rewrite decide_False by lia.
  - exists out'. split; [exact Hr|]. split; [done|]. intros c Hc.
    rewrite E. by rewrite decide_True by lia.
Qed.

(** The gradient that [grad] returns: it never raises the domain
    error. *)
Lemma grad_spec aidx coeffs out m :
  ready m -> alpha_layout aidx m -> length coeffs = get_n_coeffs m ->
  length out = get_n_coeffs m ->
  exists out',
    (grad aidx coeffs out m).1 = Ok out' /\
    length out' = get_n_coeffs m /\
    forall i, (i < n_nodes m)%nat ->
      get 0 out' i =
        - (grad_mu_spec aidx (cached m) coeffs i
           / IZR (Total_events (cached m))) /\
      forall n, (n < MaxN_of_f m)%nat ->
        get 0 out' (f_index m i n) =
          - (grad_f_spec aidx (cached m) coeffs i n
             / IZR (Total_events (cached m))).
Proof.
  intros Hr Hlay Hlen Lo.
  destruct (cached_ok m Hr) as (He & Hd & Hv & Hc & Hw).
  assert (n_nodes (cached m) = n_nodes m) as HD by apply Hd.
  assert (MaxN_of_f (cached m) = MaxN_of_f m) as HS by apply Hd.
  pose proof (get_n_coeffs_eq _ _ Hd) as HN.
  pose proof (alpha_layout_eq _ _ _ Hd Hlay) as Hlay'.
  assert (forall i n, f_index (cached m) i n = f_index m i n) as Hfi.
  { intros. unfold f_index. rewrite HD, HS.
    by replace (decays (cached m)) with (decays m) by (symmetry; apply Hd). }
  unfold grad. rewrite He. cbn [fst].
  set (m1 := cached m) in *.
  destruct (for_range_inv
    (fun n (o : list R) =>
       length o = get_n_coeffs m1 /\
       forall i, (i < n)%nat ->
         get 0 o i = grad_mu_spec aidx m1 coeffs i /\
         forall k, (k < MaxN_of_f m1)%nat ->
           get 0 o (f_index m1 i k) = grad_f_spec aidx m1 coeffs i k)
    0 (n_nodes m1) (fun i out => grad_dim_i aidx i coeffs m1 out)
    (map (fun _ => 0) out)) as (o1 & Hrun & L1 & E1).
  - rewrite length_map. split; [lia | intros; lia].
  - intros n o Hn [L E].
    destruct (grad_dim_i_spec aidx m1 coeffs Hv Hc Hlay' ltac:(lia) n o
                ltac:(lia) L) as (o' & Hg & L' & Emu & Ef & F).
    exists o'. split; [exact Hg|]. split; [lia|]. intros i Hi.
    destruct (decide (i = n)) as [->|Hne]; [by split|].
    destruct (E i ltac:(lia)) as [Ei Efi]. split.
    + rewrite F; [done|]. intros [Hc1|[Hc2|(k & Hk & Hc3)]].
      * done.
      * unfold in_alpha_block in Hc2. lia.
      * unfold f_index in Hc3. lia.
    + intros k Hk. rewrite F; [by apply Efi|].
      intros [Hc1|[Hc2|(k' & Hk' & Hc3)]].
      * unfold f_index in Hc1. lia.
      * unfold in_alpha_block, f_index in Hc2. lia.
      * by apply (f_index_inj m1) in Hc3 as [? _].
  - unfold parallel_run. rewrite Hrun, bind_Ok. cbv beta zeta.
    destruct (negate_loop (get_n_coeffs m1)
                (map (fun x => x / IZR (Total_events m1)) o1))
      as (o2 & -> & L2 & E2); [rewrite length_map; lia|].
    rewrite length_map in L2.
    exists o2. split; [done|]. split; [lia|]. intros i Hi.
    destruct (E1 i ltac:(lia)) as [Ei Efi]. split.
    + rewrite E2 by (unfold get_n_coeffs; lia).
      rewrite get_map by (rewrite L1; unfold get_n_coeffs; lia).
      by rewrite Ei.
    + intros n Hn. rewrite <- Hfi.
      assert (f_index m1 i n < get_n_coeffs m1)%nat
        by (unfold f_index, get_n_coeffs; nia).
      rewrite E2 by done. rewrite get_map by lia.
      rewrite Efi by lia. done.
Qed.

Lemma reset_of_refl m : reset_of m m.
Proof.
  exists (sum_G m). split; [by rewrite with_sum_G_id|]. split; [done|]. auto.
Qed.

Lemma zeros_length_zeros n : zeros (length (zeros n)) = zeros n.
Proof. by rewrite length_zeros. Qed.

Lemma reset_of_trans m1 m2 m3 :
  reset_of m1 m2 -> reset_of m2 m3 -> reset_of m1 m3.
Proof.
  intros (sg2 & -> & L2 & H2) (sg3 & -> & L3 & H3). cbn in L3, H3.
  exists sg3. split; [done|]. split; [lia|].
  intros i old Hi. destruct (H2 i old Hi) as [Hs|Hs].
  - destruct (H3 i old Hs); auto.
  - destruct (H3 i _ Hs) as [Hs'|Hs']; [auto|].
    right. by rewrite zeros_length_zeros in Hs'.
Qed.

(** A task of the loss pass that ran on [m] runs the same on a model
    that only differs by accumulators already reset. *)
Lemma loss_dim_i_reset aidx i coeffs m m' r m1 :
  loss_dim_i aidx i coeffs m = (r, m1) -> reset_of m1 m' ->
  loss_dim_i aidx i coeffs m' = (r, m').
Proof.
  unfold loss_dim_i. intros Hl (sg' & -> & L' & H').
  destruct (loss_before aidx i coeffs m) as [[[f_i G_i] l]|e] eqn:Hb.
  - unfold clean_sum_G, rd in Hl.
    destruct (sum_G m !! i) as [sg|] eqn:Hsg; cbn in Hl.
    + injection Hl as <- <-. cbn in L', H'.
      change (loss_before aidx i coeffs (with_sum_G _ sg'))
        with (loss_before aidx i coeffs m). rewrite Hb.
      unfold clean_sum_G, rd. cbn [sum_G with_sum_G].
      rewrite length_insert in L'.
      assert (sg' !! i = Some (zeros (length sg))) as Hi.
      { destruct (H' i (zeros (length sg))) as [Hs|Hs].
        - apply list_lookup_insert_eq. by apply lookup_lt_Some in Hsg.
        - done.
        - by rewrite zeros_length_zeros in Hs. }
      rewrite Hi. cbn. rewrite zeros_length_zeros.
      by rewrite (list_insert_id _ _ _ Hi).
    + injection Hl as <- <-.
      change (loss_before aidx i coeffs (with_sum_G m sg'))
        with (loss_before aidx i coeffs m). rewrite Hb.
      unfold clean_sum_G, rd. cbn [sum_G with_sum_G].
      rewrite (proj2 (lookup_ge_None sg' i)); [done|].
      rewrite L'. by apply lookup_ge_None.
  - injection Hl as <- <-.
    change (loss_before aidx i coeffs (with_sum_G m sg'))
      with (loss_before aidx i coeffs m). by rewrite Hb.
Qed.

Lemma loss_dim_i_reset_of aidx i coeffs m :
  reset_of m (loss_dim_i aidx i coeffs m).2.
Proof.
  destruct (loss_dim_i_state aidx i coeffs m) as [->|(sg & Hsg & ->)].
  - apply reset_of_refl.
  - eexists. split; [reflexivity|]. rewrite length_insert. split; [done|].
    intros i' old Hi'. destruct (decide (i' = i)) as [->|Hne].
    + right. rewrite Hsg in Hi'. injection Hi' as <-.
      apply list_lookup_insert_eq. by apply lookup_lt_Some in Hsg.
    + left. by rewrite list_lookup_insert_ne.
Qed.

Section ReduceTwice.
Variable aidx : nat -> nat -> nat -> nat -> nat -> nat.
Variable coeffs : list R.

Lemma reduce_reset_of (n : nat) : forall start acc m,
  reset_of m (parallel_map_additive_reduce start n
                (fun i => loss_dim_i aidx i coeffs) acc m).2.
Proof.
  induction n as [|n IH]; intros start acc m; [apply reset_of_refl|].
  cbn [parallel_map_additive_reduce].
  pose proof (loss_dim_i_reset_of aidx start coeffs m) as Hst.
  destruct (loss_dim_i aidx start coeffs m) as [[v|e] m1]; cbn in Hst.
  - by apply (reset_of_trans _ m1).
  - done.
Qed.

Lemma reduce_reset (n : nat) : forall start acc m r m2 m',
  parallel_map_additive_reduce start n
    (fun i => loss_dim_i aidx i coeffs) acc m = (r, m2) ->
  reset_of m2 m' ->
  parallel_map_additive_reduce start n
    (fun i => loss_dim_i aidx i coeffs) acc m' = (r, m').
Proof.
  induction n as [|n IH]; intros start acc m r m2 m' Hp Hr.
  - cbn in *. by injection Hp as <- <-.
  - cbn [parallel_map_additive_reduce] in *.
    destruct (loss_dim_i aidx start coeffs m) as [[v|e] m1] eqn:Hl.
    + pose proof (reduce_reset_of n (S start) (acc + v) m1) as H12.
      rewrite Hp in H12. cbn in H12.
      rewrite (loss_dim_i_reset _ _ _ _ m' _ _ Hl
                 (reset_of_trans _ _ _ H12 Hr)).
      by apply (IH _ _ m1 _ m2).
    + injection Hp as <- <-.
      by rewrite (loss_dim_i_reset _ _ _ _ m' _ _ Hl Hr).
Qed.
End ReduceTwice.

Lemma allocate_weights_again m m1 :
  allocate_weights m = Ok m1 -> allocate_weights m1 = Ok m1.
Proof.
  unfold allocate_weights. destruct (decide (n_nodes m = 0%nat)); [done|].
  destruct (rd (n_jumps_per_node m) (n_nodes m)) as [nj|] eqn:Hnj; [|done].
  rewrite bind_Ok. intros [= <-]. cbn [n_nodes n_jumps_per_node].
  rewrite decide_False by done. rewrite Hnj. reflexivity.
Qed.

(** The lazy computation of the weights is done once. *)
Lemma ensure_weights_again m :
  ensure_weights (ensure_weights m).2 = ensure_weights m.
Proof.
  unfold ensure_weights. destruct (weights_computed m) eqn:Hw.
  - cbn. by rewrite Hw.
  - unfold compute_weights, parallel_run.
    destruct (allocate_weights m) as [m1|e] eqn:Ha.
    + assert (weights_computed m1 = false) as Hw1.
      { unfold allocate_weights in Ha.
        destruct (decide (n_nodes m = 0%nat)); [done|].
        destruct (rd (n_jumps_per_node m) (n_nodes m)); [|done].
        rewrite bind_Ok in Ha. by injection Ha as <-. }
      destruct (for_range 0 (n_nodes m1) compute_weights_dim_i m1)
        as [m2|e] eqn:Hl.
      * reflexivity.
      * cbn [snd]. rewrite Hw1, (allocate_weights_again m m1 Ha). by rewrite Hl.
    + cbn [snd]. by rewrite Hw, Ha.
Qed.

Lemma loss_twice aidx coeffs m :
  loss aidx coeffs (loss aidx coeffs m).2 = loss aidx coeffs m.
Proof.
  unfold loss at 2 3.
  pose proof (ensure_weights_again m) as He.
  destruct (ensure_weights m) as [[[]|e] m1] eqn:Hen; cbn [snd] in He.
  - destruct (parallel_map_additive_reduce 0 (n_nodes m1) _ 0 m1)
      as [r m2] eqn:Hp.
    pose proof (reduce_reset_of aidx coeffs (n_nodes m1) 0 0 m1) as Hr.
    rewrite Hp in Hr. cbn in Hr.
    assert (ensure_weights m2 = (Ok (), m2)) as He2.
    { destruct Hr as (sg & -> & _). unfold ensure_weights in *.
      cbn [weights_computed with_sum_G].
      destruct (weights_computed m1) eqn:Hw1; [done|].
      exfalso. unfold compute_weights, parallel_run in He.
      destruct (allocate_weights m1); [|done].
      destruct (for_range _ _ _ _); [|done].
      injection He as He. apply (f_equal weights_computed) in He.
      cbn in He. congruence. }
    assert (n_nodes m2 = n_nodes m1) as HD by (by destruct Hr as (sg & -> & _)).
    assert (loss aidx coeffs m2 =
            (match r with Ok l => Ok (l / IZR (Total_events m2)) | Err e => Err e end, m2)) as Hl2.
    { unfold loss. rewrite He2, HD.
      rewrite (reduce_reset aidx coeffs _ _ _ _ _ _ m2 Hp (reset_of_refl m2)).
      by destruct r. }
    destruct r as [l|e]; cbn [snd]; by rewrite Hl2.
  - cbn [snd]. unfold loss. by rewrite He.
Qed.

Lemma grad_twice aidx coeffs out1 out2 m :
  length out2 = length out1 ->
  grad aidx coeffs out2 (grad aidx coeffs out1 m).2 = grad aidx coeffs out1 m.
Proof.
  intros Hlen. unfold grad at 2 3.
  pose proof (ensure_weights_again m) as He.
  assert (map (fun _ : R => 0) out2 = map (fun _ : R => 0) out1) as Hz.
  { revert out2 Hlen. induction out1 as [|x o1 IH]; intros [|y o2] Hl;
      try done. cbn. f_equal. apply IH. by injection Hl. }
  destruct (ensure_weights m) as [[[]|e] m1] eqn:Hen; cbn [snd] in *.
  - unfold grad. rewrite He. by rewrite Hz.
  - unfold grad. by rewrite He.
Qed.

Lemma set_data_counts sort m streams gn T m1 :
  set_data sort m streams gn T = Ok m1 ->
  n_nodes m1 = ulong_decr (length streams) /\
  n_total_jumps m1 = sum_counts streams /\
  n_jumps_per_node m1 = map length streams.
Proof.
  unfold set_data. intros H.
  apply bind_Ok_inv in H as (gn' & _ & H).
  apply bind_Ok_inv in H as ([[c gts] pre] & _ & H).
  destruct (sort gts) as [sorted tmp_index].
  apply bind_Ok_inv in H as (ty & _ & H).
  injection H as <-. done.
Qed.

Lemma sum_counts_app l1 l2 :
  sum_counts (l1 ++ l2) = (sum_counts l1 + sum_counts l2)%nat.
Proof.
  unfold sum_counts. induction l1 as [|t l1 IH]; cbn; [done|].
  rewrite IH. lia.
Qed.

Lemma sum_counts_last streams D last :
  length streams = S D -> streams !! D = Some last ->
  sum_counts streams = (sum_counts (take D streams) + length last)%nat.
Proof.
  intros Hl Hlast.
  rewrite <- (take_drop_middle streams D last Hlast) at 1.
  rewrite sum_counts_app.
  assert (drop (S D) streams = []) as -> by (apply drop_ge; lia).
  unfold sum_counts at 2. cbn. lia.
Qed.

(** [Total_events], from the data bound by [set_data]. *)
Lemma Rsum_scale (l : list nat) (f : nat -> R) (c : R) :
  Rsum l f * c = Rsum l (fun e => f e * c).
Proof.
  unfold Rsum. induction l as [|e l IH]; simpl; [lra|]. rewrite <- IH. lra.
Qed.

Lemma Rsum_plus (l : list nat) (f f' : nat -> R) :
  Rsum l f + Rsum l f' = Rsum l (fun e => f e + f' e).
Proof.
  unfold Rsum. induction l as [|e l IH]; simpl; [lra|]. rewrite <- IH. lra.
Qed.

(** With a single kernel and no lag, the recurrence of the weight
    cache is the direct sum. *)
Lemma g_rec_brute_force (m : model) (decay : R) (gb : list R) :
  valid_data m -> decays m = [decay] -> lags m = [0] ->
  g_zero m gb -> g_rec m gb ->
  forall j k, (j < n_nodes m)%nat -> (k <= n_total_jumps m)%nat ->
    get 0 gb (get_index m k j 0) =
    if decide (k = 0%nat) then 0 else brute_force m decay j k.
Proof.
  intros Hv Hdec Hlag Hz Hrec j k Hj.
  assert (0 < length (decays m))%nat as HU by (rewrite Hdec; cbn; lia).
  assert (decay_of m 0 = decay) as Hd0 by (unfold decay_of; by rewrite Hdec).
  assert (lag_of m 0 = 0) as Hl0 by (unfold lag_of; by rewrite Hlag).
  induction k as [|k IH]; intros Hk.
  - rewrite decide_True by done. by apply Hz.
  - rewrite decide_False by done.
    rewrite (Hrec 0%nat j (S k) HU Hj ltac:(lia)).
    replace (S k - 1)%nat with k by lia. rewrite IH by lia.
    rewrite Hd0, Hl0. unfold ebt. replace (S k - 1)%nat with k by lia.
    rewrite tm_event by lia.
    unfold fold_sum, brute_force.
    pose proof (vd_sorted m Hv k (S k) ltac:(lia)) as Hs.
    assert (forall e,
      (if decide (tyf m e = (j + 1)%nat /\ newly_eligible m 0 (S k) e)
       then g_contrib decay (tm m (S k) - 0 - tsf m e) else 0) =
      (if decide (tyf m e = (j + 1)%nat /\ tsf m e < tsf m (S k) /\
                  ~ ((1 <= k)%nat /\ tsf m e < tsf m k))
       then decay * exp (- decay * (tsf m (S k) - tsf m e)) else 0)) as Hnew.
    { intros e. etrans.
      - apply (decide_ext _
          (tyf m e = (j + 1)%nat /\ tsf m e < tsf m (S k) /\
           ~ ((1 <= k)%nat /\ tsf m e < tsf m k))).
        unfold newly_eligible, eligible.
        replace (S k - 1)%nat with k by lia. rewrite !tm_event by lia.
        rewrite !Rminus_0_r. split.
        + intros (? & ? & Hn). split; [done|]. split; [done|].
          intros [? ?]. apply Hn. split; [lia | done].
        + intros (? & ? & Hn). split; [done|]. split; [done|].
          intros [? ?]. apply Hn. split; [lia | done].
      - repeat case_decide; try done; try tauto.
        all: unfold g_contrib; rewrite tm_event by lia.
        all: f_equal; f_equal; lra. }
    rewrite (Rsum_ext _ _ _ (fun e _ => Hnew e)).
    destruct (decide (k = 0%nat)) as [->|Hk0].
    + rewrite Rmult_0_l, Rplus_0_l. apply Rsum_ext. intros e He%elem_of_seq.
      apply decide_ext. split.
      * intros (? & ? & _). done.
      * intros (? & ?). split; [done|]. split; [done | lia].
    + rewrite Rsum_scale, Rsum_plus. apply Rsum_ext.
      intros e He%elem_of_seq.
      destruct (decide (tyf m e = (j + 1)%nat)) as [Hty|Hty].
      * destruct (Rlt_dec (tsf m e) (tsf m k)) as [Hlt|Hge].
        -- rewrite (decide_True (P := _ /\ tsf m e < tsf m k)) by done.
           rewrite (decide_True (P := _ /\ tsf m e < tsf m (S k)))
             by (split; [done | lra]).
           rewrite decide_False.
           2:{ intros [_ [_ Hn]]. apply Hn. split; [lia | lra]. }
           rewrite Rplus_0_r, Rmult_assoc, <- exp_plus. f_equal. f_equal. lra.
        -- rewrite (decide_False (P := _ /\ tsf m e < tsf m k)) by tauto.
           rewrite Rmult_0_l, Rplus_0_l.
           apply decide_ext. split.
           ++ intros (? & ? & _). done.
           ++ intros (? & ?). split; [done|]. split; [done | tauto].
      * rewrite !decide_False by tauto. lra.
Qed.

Lemma data_eq_funs m m' :
  data_eq m m' ->
  tsf m' = tsf m /\ tyf m' = tyf m /\ gnf m' = gnf m /\ tm m' = tm m /\
  get_index m' = get_index m /\ ebt m' = ebt m /\
  fold_sum m' = fold_sum m /\ fold_sum_le m' = fold_sum_le m /\
  decay_of m' = decay_of m /\ lag_of m' = lag_of m /\
  H1_spec m' = H1_spec m /\ H2_spec m' = H2_spec m /\
  H3_spec m' = H3_spec m /\ brute_force m' = brute_force m /\
  f_index m' = f_index m.
Proof.
  intros Hd. destruct m, m'. unfold data_eq in Hd. cbn in Hd.
  destruct_and!. subst. repeat split; reflexivity.
Qed.

Lemma example_alpha_layout m : alpha_layout example_alpha_index m.
Proof.
  intros u i j Hu Hi Hj.
  unfold get_alpha_u_i_j_index, example_alpha_index, get_n_decays.
  set (D := n_nodes m) in *. set (U := length (decays m)) in *.
  assert (U * j + u < U * D)%nat by nia.
  assert (D * U * i + D * U <= D * U * D)%nat by nia.
  nia.
Qed.

Lemma fresh_ready m : valid_data m -> weights_computed m = false -> ready m.
Proof. intros Hv Hw. split; [done|]. congruence. Qed.

Lemma cached_fresh m :
  weights_computed m = false -> cached m = (compute_weights m).2.
Proof. intros Hw. unfold cached, ensure_weights. by rewrite Hw. Qed.

Lemma ex_one_valid : valid_data ex_one.
Proof.
  constructor; cbn; try lia; try done.
  - intros a b Hab. small_index a; small_index b;
      unfold tsf, get; cbn; lra.
  - intros u Hu. small_index u. unfold get. cbn. lra.
  - intros k Hk. small_index k; unfold gnf, get; cbn; lia.
Qed.

Lemma ex_lag_valid : valid_data ex_lag.
Proof.
  constructor; cbn; try lia; try done.
  - intros a b Hab. small_index a; small_index b;
      unfold tsf, get; cbn; lra.
  - intros u Hu. small_index u. unfold get. cbn. lra.
  - intros k Hk. small_index k; unfold gnf, get; cbn; lia.
Qed.

(** The weight cache after [compute_weights]. *)
Lemma computed_cache m :
  valid_data m ->
  data_eq m (compute_weights m).2 /\ cache_ok (compute_weights m).2 /\
  (compute_weights m).1 = Ok ().
Proof.
  intros Hv. destruct (compute_weights_ok m Hv) as (m' & -> & Hd & Hc & _).
  done.
Qed.

Lemma lag_gate_strict m :
  valid_data m -> lag_gate fold_sum (compute_weights m).2.
Proof.
  intros Hv. destruct (computed_cache m Hv) as (Hd & Hc & _).
  intros i u j k Hi Hu Hj Hk. split.
  - by apply (co_g_rec _ Hc).
  - by apply (co_G _ Hc i Hi).
Qed.

Lemma newly_eligible_once m lag e k1 k2 :
  valid_data m ->
  (1 <= k1 <= n_total_jumps m + 1)%nat ->
  (1 <= k2 <= n_total_jumps m + 1)%nat ->
  newly_eligible m lag k1 e -> newly_eligible m lag k2 e -> k1 = k2.
Proof.
  intros Hv Hk1 Hk2 [He1 Hn1] [He2 Hn2].
  destruct (decide (k1 = k2)) as [|Hne]; [done|]. exfalso.
  destruct (decide (k1 < k2)%nat).
  - apply Hn2. split; [lia|].
    unfold eligible in *. rewrite tm_event in * by lia.
    pose proof (vd_sorted m Hv k1 (k2 - 1)%nat ltac:(lia)). lra.
  - apply Hn1. split; [lia|].
    unfold eligible in *. rewrite tm_event in * by lia.
    pose proof (vd_sorted m Hv k2 (k1 - 1)%nat ltac:(lia)). lra.
Qed.

(** C2 (as amended). After [compute_weights], at every step [k] of
    every column, [g] is its previous value decayed plus
    [decay * exp (- decay * (t_k - lag - t_e))] for every event [e] of
    the tracked node that is newly eligible at [k], that is with
    [t_e < t_k - lag] strictly and not already eligible at step
    [k - 1]; [G] receives [1 - exp (- decay * (t_k - lag - t_e))] for
    the same events; and an event is newly eligible at one step at
    most, so it is never revisited. *)
Theorem delay_gate_is_strict (m : model) :
  valid_data m ->
  lag_gate fold_sum (compute_weights m).2 /\
  forall lag e k1 k2,
    (1 <= k1 <= n_total_jumps m + 1)%nat ->
    (1 <= k2 <= n_total_jumps m + 1)%nat ->
    newly_eligible m lag k1 e -> newly_eligible m lag k2 e -> k1 = k2.
Proof.
  intros Hv. split; [by apply lag_gate_strict|].
  intros lag e k1 k2. by apply newly_eligible_once.
Qed.

Lemma delay_gate_is_strict_witness :
  lag_gate fold_sum (compute_weights ex_lag).2 /\
  forall lag e k1 k2,
    (1 <= k1 <= n_total_jumps ex_lag + 1)%nat ->
    (1 <= k2 <= n_total_jumps ex_lag + 1)%nat ->
    newly_eligible ex_lag lag k1 e -> newly_eligible ex_lag lag k2 e ->
    k1 = k2.
Proof. exact (delay_gate_is_strict ex_lag ex_lag_valid). Defined.

(** C2, counterexample. With lag 1 and events at [t = 1] and [t = 2],
    the event at [t_e = 1 = t_2 - lag] is not folded in at step 2: the
    inclusive gate of the claim does not describe the cache. *)
Lemma delay_gate_is_not_inclusive :
  ~ lag_gate fold_sum_le (compute_weights ex_lag).2.
Proof.
  intros Hle.
  pose proof (lag_gate_strict ex_lag ex_lag_valid) as Hlt.
  destruct (computed_cache ex_lag ex_lag_valid) as (Hd & _ & _).
  destruct (data_eq_funs _ _ Hd)
    as (_ & _ & _ & _ & _ & _ & Hf & Hfle & Hdec & Hlag & _).
  set (m' := (compute_weights ex_lag).2) in *.
  assert (n_nodes m' = 1%nat) as HD by apply Hd.
  assert (n_total_jumps m' = 2%nat) as HM by apply Hd.
  assert (length (decays m') = 1%nat) as HU
    by (replace (decays m') with (decays ex_lag) by (symmetry; apply Hd); done).
  destruct (Hle 0 0 0 2)%nat as [Hg1 _]; [lia..|].
  destruct (Hlt 0 0 0 2)%nat as [Hg2 _]; [lia..|].
  rewrite Hg2 in Hg1. apply Rplus_eq_reg_l in Hg1.
  rewrite Hf, Hfle, Hdec, Hlag in Hg1.
  unfold fold_sum, fold_sum_le, Rsum in Hg1.
  cbn [n_total_jumps ex_lag bound_model seq foldr] in Hg1.
  assert (lag_of ex_lag 0 = 1) as E1 by reflexivity.
  assert (decay_of ex_lag 0 = 1) as E2 by reflexivity.
  assert (tsf ex_lag 1 = 1) as E3 by reflexivity.
  assert (tsf ex_lag 2 = 2) as E4 by reflexivity.
  assert (tm ex_lag 2 = 2) as E5 by reflexivity.
  assert (tm ex_lag 1 = 1) as E6 by reflexivity.
  rewrite (decide_True (P := tyf ex_lag 1 = _ /\ newly_eligible_le _ _ _ _))
    in Hg1.
  2:{ split; [done|]. unfold newly_eligible_le, eligible_le.
      cbn [Nat.sub]. rewrite E1, E3, E5, E6. split; [lra|].
      intros [_ ?]. lra. }
  rewrite !decide_False in Hg1.
  - unfold g_contrib in Hg1. rewrite E1, E2, E3, E5 in Hg1.
    replace (- (1) * (2 - 1 - 1)) with 0 in Hg1 by lra.
    rewrite exp_0 in Hg1. lra.
  - intros [_ [He _]]. unfold eligible_le in He.
    rewrite E1, E4, E5 in He. lra.
  - intros [_ [He _]]. unfold eligible in He.
    rewrite E1, E4, E5 in He. lra.
  - intros [_ [He _]]. unfold eligible in He.
    rewrite E1, E3, E5 in He. lra.
Qed.

(** C5. With a single kernel and no lag, the value of [g] that the
    weight cache holds at every merged event [k], for every source
    node [j], is the direct pairwise sum of
    [decay * exp (- decay * (t_k - t_e))] over the events [e] of node
    [j] that are strictly earlier than [t_k]. *)
Theorem recursive_g_is_brute_force (m : model) (decay : R) :
  valid_data m -> decays m = [decay] -> lags m = [0] ->
  forall j k, (j < n_nodes m)%nat -> (1 <= k <= n_total_jumps m)%nat ->
    gv (compute_weights m).2 k j 0 = brute_force m decay j k.
Proof.
  intros Hv Hdec Hlag j k Hj Hk.
  destruct (computed_cache m Hv) as (Hd & Hc & _).
  destruct (data_eq_funs _ _ Hd) as (_ & _ & _ & _ & _ & _ & _ & _ & _ & _
                                     & _ & _ & _ & Hbf & _).
  set (m' := (compute_weights m).2) in *.
  assert (n_nodes m' = n_nodes m) as HD by apply Hd.
  assert (n_total_jumps m' = n_total_jumps m) as HM by apply Hd.
  assert (decays m' = decays m) as Hde by apply Hd.
  assert (lags m' = lags m) as Hla by apply Hd.
  unfold gv.
  rewrite (g_rec_brute_force m' decay (g_buf m')
             (valid_data_eq _ _ Hd Hv) ltac:(congruence) ltac:(congruence)
             (co_g_zero _ Hc) (co_g_rec _ Hc) j k ltac:(lia) ltac:(lia)).
  rewrite decide_False by lia. by rewrite Hbf.
Qed.

Lemma ex_two_valid : valid_data ex_two.
Proof.
  constructor; cbn; try lia; try done.
  - intros a b Hab. small_index a; small_index b;
      unfold tsf, get; cbn; lra.
  - intros u Hu. small_index u. unfold get. cbn. lra.
  - intros k Hk. small_index k; unfold gnf, get; cbn; lia.
Qed.

Lemma ex_three_valid : valid_data ex_three.
Proof.
  constructor; cbn; try lia; try done.
  - intros a b Hab. small_index a; small_index b;
      unfold tsf, get; cbn; lra.
  - intros u Hu. small_index u. unfold get. cbn. lra.
  - intros k Hk. small_index k; unfold gnf, get; cbn; lia.
Qed.

(** At the third event of [ex_three] two events are strictly earlier:
    the pairwise sum is [exp (-2) + exp (-1)]. *)
Lemma brute_force_ex_three :
  brute_force ex_three 1 0 3 = exp (- 2) + exp (- 1).
Proof.
  unfold brute_force, Rsum. cbn [n_total_jumps ex_three bound_model seq foldr].
  assert (tsf ex_three 1 = 1) as E1 by reflexivity.
  assert (tsf ex_three 2 = 2) as E2 by reflexivity.
  assert (tsf ex_three 3 = 3) as E3 by reflexivity.
  assert (forall e, (1 <= e <= 3)%nat -> tyf ex_three e = 1%nat) as Hty
    by (intros e He; small_index e; reflexivity).
  rewrite (decide_True (P := tyf ex_three 1 = _ /\ _))
    by (rewrite Hty, E1, E3 by lia; split; [reflexivity | lra]).
  rewrite (decide_True (P := tyf ex_three 2 = _ /\ _))
    by (rewrite Hty, E2, E3 by lia; split; [reflexivity | lra]).
  rewrite (decide_False (P := tyf ex_three 3 = _ /\ _))
    by (rewrite E3; intros [_ ?]; lra).
  rewrite E1, E2, E3.
  replace (- (1) * (3 - 1)) with (- 2) by lra.
  replace (- (1) * (3 - 2)) with (- 1) by lra. lra.
Qed.

Lemma recursive_g_is_brute_force_witness :
  gv (compute_weights ex_three).2 3 0 0 = brute_force ex_three 1 0 3 /\
  brute_force ex_three 1 0 3 = exp (- 2) + exp (- 1).
Proof.
  split; [|exact brute_force_ex_three].
  apply (recursive_g_is_brute_force ex_three 1 ex_three_valid eq_refl
           eq_refl); cbn; lia.
Defined.

(** C10, at the failing input. When no stream has an event
    ([n_total_jumps = 0]) the buffers are allocated, and the first
    test of the [while] loop reads [global_timestamps[1]], outside an
    array of one cell. *)
Theorem empty_dataset_reads_out_of_bounds :
  exists m1,
    allocate_weights ex_empty = Ok m1 /\
    compute_weights_dim_i 0 m1 = Err OutOfBounds.
Proof. eexists. split; reflexivity. Qed.

(** C7. On freshly bound data, [grad_dim_i] writes for [f_i[n]] the
    value [H1_i[n] / f_i[n] + mu_i * H2_i[n]
    + sum_j sum_u alpha_{u,i,j} * H3_j[n, u]] (the returned gradient
    holds it divided by [Total_events] and negated), where the cached
    statistics are: [H1_i[n]], the number of events of dimension [i]
    that follow an event of state [n], minus one if the last state is
    [n]; [H2_i[n]], minus the total length of the intervals (the
    terminal one included) in state [n]; [H3_j[n, u]], minus the sum
    of [G_j (k, j, u)] over the intervals in state [n]. *)
Theorem grad_f_entry_uses_cached_statistics
  (aidx : nat -> nat -> nat -> nat -> nat -> nat) (coeffs out : list R)
  (m : model) (i n : nat) :
  valid_data m -> weights_computed m = false ->
  alpha_layout aidx m ->
  length coeffs = get_n_coeffs m -> length out = get_n_coeffs m ->
  (i < n_nodes m)%nat -> (n < MaxN_of_f m)%nat ->
  (exists out',
     grad_dim_i aidx i coeffs (cached m) out = Ok out' /\
     get 0 out' (f_index m i n) = grad_f_spec aidx (cached m) coeffs i n) /\
  (exists out',
     (grad aidx coeffs out m).1 = Ok out' /\
     get 0 out' (f_index m i n) =
       - (grad_f_spec aidx (cached m) coeffs i n
          / IZR (Total_events (cached m)))) /\
  H1v (cached m) i n = H1_spec m i n /\
  H2v (cached m) i n = H2_spec m n /\
  forall j u, (j < n_nodes m)%nat -> (u < length (decays m))%nat ->
    H3v (cached m) j n u = H3_spec m (G_buf (cached m) j) j n u.
Proof.
  intros Hv Hw Hlay Hlen Lo Hi Hn.
  pose proof (fresh_ready m Hv Hw) as Hr.
  destruct (cached_ok m Hr) as (He & Hd & Hv' & Hc & _).
  destruct (data_eq_funs _ _ Hd) as (_ & _ & _ & _ & _ & _ & _ & _ & _ & _
                                     & HH1 & HH2 & HH3 & _ & Hfi).
  assert (n_nodes (cached m) = n_nodes m) as HD by apply Hd.
  assert (MaxN_of_f (cached m) = MaxN_of_f m) as HS by apply Hd.
  assert (decays (cached m) = decays m) as Hde by apply Hd.
  pose proof (get_n_coeffs_eq _ _ Hd) as HN.
  split; [|split; [|split; [|split]]].
  - destruct (grad_dim_i_spec aidx (cached m) coeffs Hv' Hc
                (alpha_layout_eq _ _ _ Hd Hlay) ltac:(lia) i out
                ltac:(lia) ltac:(lia)) as (out' & Hg & _ & _ & Ef & _).
    exists out'. split; [done|]. rewrite <- Hfi. apply Ef. lia.
  - destruct (grad_spec aidx coeffs out m Hr Hlay Hlen Lo)
      as (out' & Hg & _ & E).
    exists out'. split; [done|]. by apply E.
  - destruct (co_stats _ Hc i ltac:(lia)) as (_ & _ & _ & E1 & _).
    unfold H1v. by rewrite E1, HH1.
  - destruct (co_stats _ Hc i ltac:(lia)) as (_ & _ & _ & _ & E2 & _).
    unfold H2v. by rewrite E2, HH2.
  - intros j u Hj Hu.
    destruct (co_stats _ Hc j ltac:(lia)) as (_ & _ & _ & _ & _ & E3).
    unfold H3v. rewrite E3 by (rewrite ?Hde; lia). by rewrite HH3.
Qed.

Lemma grad_f_entry_uses_cached_statistics_witness :
  exists out',
    grad_dim_i example_alpha_index 0 [1; 0; 1] (cached ex_one) [0; 0; 0]
    = Ok out' /\
    get 0 out' (f_index ex_one 0 0) =
    grad_f_spec example_alpha_index (cached ex_one) [1; 0; 1] 0 0.
Proof.
  apply (grad_f_entry_uses_cached_statistics example_alpha_index
           [1; 0; 1] [0; 0; 0] ex_one 0 0 ex_one_valid eq_refl
           (example_alpha_layout ex_one) eq_refl eq_refl);
    cbn; lia.
Defined.

(** In the example with one event, no interaction weight and a
    baseline [mu], the intensity is [mu] at every step. *)
Lemma ex_one_intensity (mu f : R) (k : nat) :
  intensity_spec example_alpha_index (cached ex_one) [mu; 0; f] 0 k = mu.
Proof.
  destruct (cached_ok ex_one (fresh_ready _ ex_one_valid eq_refl))
    as (_ & Hd & _).
  unfold intensity_spec, alpha_of, get_alpha_u_i_j_index, get_n_decays.
  replace (n_nodes (cached ex_one)) with 1%nat by (symmetry; apply Hd).
  replace (decays (cached ex_one)) with (decays ex_one)
    by (symmetry; apply Hd).
  unfold Rsum, mu_of, get. cbn. lra.
Qed.

Lemma cached_data m :
  ready m ->
  n_nodes (cached m) = n_nodes m /\
  n_total_jumps (cached m) = n_total_jumps m /\
  MaxN_of_f (cached m) = MaxN_of_f m /\
  decays (cached m) = decays m /\
  tyf (cached m) = tyf m.
Proof.
  intros Hr. destruct (cached_ok m Hr) as (_ & Hd & _).
  destruct (data_eq_funs _ _ Hd) as (_ & Hty & _).
  repeat split; (apply Hd || done).
Qed.

(** C1. For a bound dataset and an admissible coefficient vector,
    [loss] returns the sum over the dimensions [i] of
    [- T - (A + B + C + D)], with [A] the sum of [log f_i[n[k-1]]] and
    [B] the sum of the logarithm of the intensity over the events of
    dimension [i], [C] the baseline compensator and [D] the
    interaction compensator over all intervals, divided by
    [Total_events]. *)
Theorem loss_is_normalised_sum_of_dimension_terms
  (aidx : nat -> nat -> nat -> nat -> nat -> nat) (coeffs : list R)
  (m : model) :
  ready m -> alpha_layout aidx m -> length coeffs = get_n_coeffs m ->
  admissible aidx (cached m) coeffs ->
  (loss aidx coeffs m).1 =
  Ok (Rsum (seq 0 (n_nodes m)) (fun i =>
        - end_time m
        - (term_A (cached m) coeffs i + term_B aidx (cached m) coeffs i
           + term_C (cached m) coeffs i + term_D aidx (cached m) coeffs i))
      / IZR (Total_events (cached m))).
Proof.
  intros Hr Hlay Hlen [Hpos _].
  destruct (cached_ok m Hr) as (_ & Hd & _).
  destruct (cached_data m Hr) as (HD & HM & _ & _ & Hty).
  destruct (loss_cases aidx coeffs m Hr Hlay Hlen)
    as [[_ ->]|[(i & k & Hi & Hk & Ht & Hle) _]].
  - unfold loss_spec, loss_dim_spec. rewrite HD.
    by replace (end_time (cached m)) with (end_time m) by (symmetry; apply Hd).
  - exfalso. apply (Rlt_not_le _ _ (Hpos i ltac:(lia) k ltac:(lia)
                                      ltac:(by rewrite Hty)) Hle).
Qed.

Lemma ex_one_admissible :
  admissible example_alpha_index (cached ex_one) [1; 0; 1].
Proof.
  destruct (cached_data ex_one (fresh_ready _ ex_one_valid eq_refl))
    as (HD & HM & HS & Hde & _).
  split.
  - intros i Hi k Hk Hty. rewrite HD in Hi. cbn in Hi.
    assert (i = 0%nat) as -> by lia. rewrite ex_one_intensity. lra.
  - intros i n Hi Hn. rewrite HD in Hi. rewrite HS in Hn. cbn in Hi, Hn.
    assert (i = 0%nat) as -> by lia. assert (n = 0%nat) as -> by lia.
    unfold f_of, f_index. rewrite HD, HS, Hde. unfold get. cbn. lra.
Qed.

Lemma loss_is_normalised_sum_of_dimension_terms_witness :
  (loss example_alpha_index [1; 0; 1] ex_one).1 =
  Ok (Rsum (seq 0 (n_nodes ex_one)) (fun i =>
        - end_time ex_one
        - (term_A (cached ex_one) [1; 0; 1] i
           + term_B example_alpha_index (cached ex_one) [1; 0; 1] i
           + term_C (cached ex_one) [1; 0; 1] i
           + term_D example_alpha_index (cached ex_one) [1; 0; 1] i))
      / IZR (Total_events (cached ex_one))).
Proof.
  exact (loss_is_normalised_sum_of_dimension_terms example_alpha_index
           [1; 0; 1] ex_one (fresh_ready _ ex_one_valid eq_refl)
           (example_alpha_layout ex_one) eq_refl ex_one_admissible).
Defined.

(** C3. If the intensity [mu_i + sum_j sum_u alpha_{u,i,j} g(k,j,u)] is
    non-positive at some event of some dimension, [loss] raises the
    domain error and returns no value; if it is positive at every
    event of every dimension, [loss] returns a value. *)
Theorem loss_raises_iff_intensity_not_positive
  (aidx : nat -> nat -> nat -> nat -> nat -> nat) (coeffs : list R)
  (m : model) :
  ready m -> alpha_layout aidx m -> length coeffs = get_n_coeffs m ->
  ((exists i k, (i < n_nodes m)%nat /\ (1 <= k <= n_total_jumps m)%nat /\
      tyf m k = (i + 1)%nat /\
      intensity_spec aidx (cached m) coeffs i k <= 0) ->
   (loss aidx coeffs m).1 = Err DomainError) /\
  ((forall i k, (i < n_nodes m)%nat -> (1 <= k <= n_total_jumps m)%nat ->
      tyf m k = (i + 1)%nat ->
      0 < intensity_spec aidx (cached m) coeffs i k) ->
   exists v, (loss aidx coeffs m).1 = Ok v).
Proof.
  intros Hr Hlay Hlen.
  destruct (cached_data m Hr) as (HD & HM & _ & _ & Hty).
  destruct (loss_cases aidx coeffs m Hr Hlay Hlen)
    as [[Hpos Hl]|[(i & k & Hi & Hk & Ht & Hle) Hl]].
  - split; [|by eexists]. intros (i & k & Hi & Hk & Ht & Hle). exfalso.
    apply (Rlt_not_le _ _ (Hpos i Hi k ltac:(lia) ltac:(by rewrite Hty)) Hle).
  - split; [done|]. intros Hpos. exfalso.
    apply (Rlt_not_le _ _ (Hpos i k Hi Hk Ht) Hle).
Qed.

Lemma loss_raises_iff_intensity_not_positive_witness :
  (loss example_alpha_index [-1; 0; 1] ex_one).1 = Err DomainError /\
  exists v, (loss example_alpha_index [1; 0; 1] ex_one).1 = Ok v.
Proof.
  split.
  - apply (loss_raises_iff_intensity_not_positive example_alpha_index
             [-1; 0; 1] ex_one (fresh_ready _ ex_one_valid eq_refl)
             (example_alpha_layout ex_one) eq_refl).
    exists 0%nat, 1%nat. rewrite ex_one_intensity.
    split; [cbn; lia|]. split; [cbn; lia|]. split; [reflexivity | lra].
  - apply (loss_raises_iff_intensity_not_positive example_alpha_index
             [1; 0; 1] ex_one (fresh_ready _ ex_one_valid eq_refl)
             (example_alpha_layout ex_one) eq_refl).
    intros i k Hi Hk Hty. cbn in Hi. assert (i = 0%nat) as -> by lia.
    rewrite ex_one_intensity. lra.
Defined.

(** C4, what the code does. [grad] has no test of the intensity: on
    well-formed input it returns a gradient, also when the intensity
    is negative at some event, where [loss] raises the domain
    error. *)
Theorem grad_returns_with_negative_intensity
  (aidx : nat -> nat -> nat -> nat -> nat -> nat) (coeffs out : list R)
  (m : model) :
  ready m -> alpha_layout aidx m -> length coeffs = get_n_coeffs m ->
  length out = get_n_coeffs m ->
  (exists i k, (i < n_nodes m)%nat /\ (1 <= k <= n_total_jumps m)%nat /\
     tyf m k = (i + 1)%nat /\
     intensity_spec aidx (cached m) coeffs i k < 0) ->
  (exists out', (grad aidx coeffs out m).1 = Ok out') /\
  (loss aidx coeffs m).1 = Err DomainError.
Proof.
  intros Hr Hlay Hlen Lo (i & k & Hi & Hk & Hty & Hneg). split.
  - destruct (grad_spec aidx coeffs out m Hr Hlay Hlen Lo) as (out' & Hg & _).
    by exists out'.
  - destruct (loss_cases aidx coeffs m Hr Hlay Hlen)
      as [[Hpos _]|[_ Hl]]; [|done].
    destruct (cached_data m Hr) as (HD & HM & _ & _ & Hty').
    exfalso.
    pose proof (Hpos i Hi k ltac:(lia) ltac:(by rewrite Hty')). lra.
Qed.

Lemma grad_returns_with_negative_intensity_witness :
  (exists out',
     (grad example_alpha_index [-1; 0; 1] [0; 0; 0] ex_one).1 = Ok out') /\
  (loss example_alpha_index [-1; 0; 1] ex_one).1 = Err DomainError.
Proof.
  apply (grad_returns_with_negative_intensity example_alpha_index
           [-1; 0; 1] [0; 0; 0] ex_one (fresh_ready _ ex_one_valid eq_refl)
           (example_alpha_layout ex_one) eq_refl eq_refl).
  exists 0%nat, 1%nat. rewrite ex_one_intensity.
  split; [cbn; lia|]. split; [cbn; lia|]. split; [reflexivity | lra].
Defined.

(** C6, what the code does. The entry that [grad_dim_i] leaves for
    [mu_i] is the claimed one without the term [1 / denominator] of
    the terminal step: the first loop stops at [k = M]. *)
Theorem grad_mu_omits_terminal_step
  (aidx : nat -> nat -> nat -> nat -> nat -> nat) (coeffs out : list R)
  (m : model) (i : nat) :
  ready m -> alpha_layout aidx m -> length coeffs = get_n_coeffs m ->
  length out = get_n_coeffs m -> (i < n_nodes m)%nat ->
  exists out',
    grad_dim_i aidx i coeffs (cached m) out = Ok out' /\
    get 0 out' i =
      grad_mu_claimed aidx (cached m) coeffs i
      - 1 / intensity_spec aidx (cached m) coeffs i (n_total_jumps m + 1).
Proof.
  intros Hr Hlay Hlen Lo Hi.
  destruct (cached_ok m Hr) as (_ & Hd & Hv & Hc & _).
  destruct (cached_data m Hr) as (HD & HM & _).
  pose proof (get_n_coeffs_eq _ _ Hd) as HN.
  destruct (grad_dim_i_spec aidx (cached m) coeffs Hv Hc
              (alpha_layout_eq _ _ _ Hd Hlay) ltac:(lia) i out
              ltac:(lia) ltac:(lia)) as (out' & Hg & _ & Emu & _).
  exists out'. split; [done|]. rewrite Emu.
  unfold grad_mu_spec, grad_mu_claimed. rewrite HM. lra.
Qed.

Lemma grad_mu_omits_terminal_step_witness :
  exists out',
    grad_dim_i example_alpha_index 0 [1; 0; 1] (cached ex_one) [0; 0; 0]
    = Ok out' /\
    get 0 out' 0 = -1 /\
    grad_mu_claimed example_alpha_index (cached ex_one) [1; 0; 1] 0 = 0.
Proof.
  destruct (grad_mu_omits_terminal_step example_alpha_index [1; 0; 1]
              [0; 0; 0] ex_one 0 (fresh_ready _ ex_one_valid eq_refl)
              (example_alpha_layout ex_one) eq_refl eq_refl)
    as (out' & Hg & Emu); [cbn; lia|].
  exists out'. split; [exact Hg|].
  assert (grad_mu_claimed example_alpha_index (cached ex_one) [1; 0; 1] 0 = 0)
    as Hcl.
  { destruct (cached_ok ex_one (fresh_ready _ ex_one_valid eq_refl))
      as (_ & Hd & _).
    destruct (data_eq_funs _ _ Hd)
      as (Hts & Hty & Hgn & Htm & _ & _ & _ & _ & _ & _ & _ & _ & _ & _ & Hfi).
    unfold grad_mu_claimed, f_of.
    replace (n_total_jumps (cached ex_one)) with 1%nat by (symmetry; apply Hd).
    rewrite Hts, Hty, Hgn, Htm, Hfi. unfold Rsum. cbn [seq foldr Nat.add].
    rewrite !ex_one_intensity.
    rewrite decide_True by reflexivity.
    unfold tm, tsf, gnf, f_index, get. cbn.
    rewrite (decide_False (P := 1%nat = 2%nat)) by lia.
    rewrite (decide_True (P := 2%nat = 2%nat)) by lia. lra. }
  split; [|exact Hcl]. rewrite Emu, Hcl, ex_one_intensity. cbn. lra.
Defined.

(** C8. Once [set_data] has bound the streams and [allocate_weights]
    has run, [Total_events] is the total merged jump count minus the
    event count of the last supplied stream (modulo 2^64, as any
    [ulong]), which is the sum of the event counts of the modelled
    dimensions, the last stream excluded. *)
Theorem Total_events_counts_modelled_dimensions
  (sort : list R -> list R * list nat) (m : model)
  (streams : list (list R)) (gn : list nat) (T : R) (m1 m2 : model) :
  set_data sort m streams gn T = Ok m1 ->
  allocate_weights m1 = Ok m2 ->
  exists D last,
    length streams = S D /\ n_nodes m2 = D /\ streams !! D = Some last /\
    n_total_jumps m2 = sum_counts streams /\
    Total_events m2 =
      ulong_sub (Z.of_nat (n_total_jumps m2)) (Z.of_nat (length last)) /\
    ((Z.of_nat (sum_counts (take D streams)) < 2 ^ 64)%Z ->
     Total_events m2 = Z.of_nat (sum_counts (take D streams))).
Proof.
  intros Hs Ha. destruct (set_data_counts _ _ _ _ _ _ Hs) as (HD & HM & HJ).
  unfold allocate_weights in Ha.
  destruct (decide (n_nodes m1 = 0%nat)) as [|Hn0]; [done|].
  apply bind_Ok_inv in Ha as (nj & Hnj & Ha). injection Ha as <-.
  cbn [n_nodes n_total_jumps Total_events].
  apply rd_Ok_inv in Hnj. rewrite HJ, list_lookup_fmap in Hnj.
  destruct (streams !! n_nodes m1) as [last|] eqn:Hlast; [|done].
  injection Hnj as <-. pose proof (lookup_lt_Some _ _ _ Hlast) as Hlt.
  destruct (length streams) as [|D] eqn:HL; [lia|]. cbn in HD.
  exists D, last. rewrite HD in *.
  split; [done|]. split; [done|]. split; [done|]. split; [done|].
  split; [done|]. intros Hsmall.
  rewrite HM, (sum_counts_last streams D last HL Hlast).
  unfold ulong_sub.
  replace (Z.of_nat (sum_counts (take D streams) + length last)
           - Z.of_nat (length last))%Z
    with (Z.of_nat (sum_counts (take D streams))) by lia.
  apply Z.mod_small. lia.
Qed.

Lemma example_sort_01 : example_sort [0; 1] = ([0; 1], [0; 1]%nat).
Proof.
  unfold example_sort. cbn. destruct (Rle_dec 0 1) as [|Hn]; [done|].
  exfalso. apply Hn. lra.
Qed.

Lemma set_data_ex_one (sort : list R -> list R * list nat) :
  sort [0; 1] = ([0; 1], [0; 1]%nat) ->
  set_data sort (constructed [1] [0] 1) [[1]; []] [0; 0]%nat 2 = Ok ex_one.
Proof.
  intros Hs. unfold set_data. cbv -[IZR]. rewrite Hs. reflexivity.
Qed.

Lemma Total_events_counts_modelled_dimensions_witness :
  exists m2,
    allocate_weights ex_one = Ok m2 /\
    n_nodes m2 = 1%nat /\ Total_events m2 = 1%Z.
Proof.
  eexists. split; [reflexivity|].
  destruct (Total_events_counts_modelled_dimensions example_sort
              (constructed [1] [0] 1) [[1]; []] [0; 0]%nat 2 ex_one _
              (set_data_ex_one example_sort example_sort_01) eq_refl)
    as (D & last & HD & Hn & Hlast & HM & HT & Hsmall).
  split; [reflexivity|]. cbn in HD. injection HD as <-.
  rewrite Hsmall; [reflexivity|]. cbn. lia.
Defined.

(** C9. A second call to [loss], and likewise to [grad] with an output
    buffer of the same size, with the same coefficients and no
    re-binding of the data, returns what the first call returned (a
    value or an error) and leaves the model as the first call left
    it. *)
Theorem repeated_calls_return_the_same
  (aidx : nat -> nat -> nat -> nat -> nat -> nat)
  (coeffs out1 out2 : list R) (m : model) :
  length out2 = length out1 ->
  loss aidx coeffs (loss aidx coeffs m).2 = loss aidx coeffs m /\
  grad aidx coeffs out2 (grad aidx coeffs out1 m).2 =
  grad aidx coeffs out1 m.
Proof.
  intros Hlen. split; [apply loss_twice | by apply grad_twice].
Qed.

Lemma repeated_calls_return_the_same_witness :
  loss example_alpha_index [1; 0; 1]
    (loss example_alpha_index [1; 0; 1] ex_one).2 =
  loss example_alpha_index [1; 0; 1] ex_one /\
  grad example_alpha_index [1; 0; 1] [5; 6; 7]
    (grad example_alpha_index [1; 0; 1] [0; 0; 0] ex_one).2 =
  grad example_alpha_index [1; 0; 1] [0; 0; 0] ex_one.
Proof.
  exact (repeated_calls_return_the_same example_alpha_index [1; 0; 1]
           [0; 0; 0] [5; 6; 7] ex_one eq_refl).
Defined.

(** ** Further properties of the embedded functions *)

Lemma unbound_raises aidx coeffs out m :
  n_nodes m = 0%nat -> weights_computed m = false ->
  loss aidx coeffs m = (Err InvalidState, m) /\
  grad aidx coeffs out m = (Err InvalidState, m).
Proof.
  intros Hn Hw.
  assert (ensure_weights m = (Err InvalidState, m)) as He.
  { unfold ensure_weights. rewrite Hw. unfold compute_weights, allocate_weights.
    by rewrite decide_True. }
  unfold loss, grad. by rewrite He.
Qed.

Lemma set_data_fields sort m streams gn T m1 :
  set_data sort m streams gn T = Ok m1 ->
  weights_computed m1 = false /\ decays m1 = decays m /\ lags m1 = lags m /\
  MaxN_of_f m1 = MaxN_of_f m /\ end_time m1 = T /\ timestamps m1 = streams.
Proof.
  unfold set_data. intros H.
  apply bind_Ok_inv in H as (gn' & _ & H).
  apply bind_Ok_inv in H as ([[c gts] pre] & _ & H).
  destruct (sort gts) as [sorted tmp_index].
  apply bind_Ok_inv in H as (ty & _ & H).
  injection H as <-. done.
Qed.

(** X13. [set_data] with a single stream: [n_nodes--] leaves no modelled
    dimension (the stream is taken for the auxiliary one), and the
    first [loss] or [grad] raises the error of [allocate_weights] and
    leaves the model as it was. *)
Theorem single_stream_leaves_no_dimension
  (sort : list R -> list R * list nat)
  (aidx : nat -> nat -> nat -> nat -> nat -> nat)
  (m m1 : model) (t : list R) (gn : list nat) (T : R) (coeffs out : list R) :
  set_data sort m [t] gn T = Ok m1 ->
  n_nodes m1 = 0%nat /\
  loss aidx coeffs m1 = (Err InvalidState, m1) /\
  grad aidx coeffs out m1 = (Err InvalidState, m1).
Proof.
  intros Hs.
  destruct (set_data_counts _ _ _ _ _ _ Hs) as (HD & _ & _). cbn in HD.
  destruct (set_data_fields _ _ _ _ _ _ Hs) as (Hw & _).
  split; [done|]. by apply unbound_raises.
Qed.

Lemma set_data_ex_single (sort : list R -> list R * list nat) :
  sort [0; 1] = ([0; 1], [0; 1]%nat) ->
  set_data sort (constructed [1] [0] 1) [[1]] [0; 0]%nat 2 = Ok ex_single.
Proof.
  intros Hs. unfold set_data. cbv -[IZR]. rewrite Hs. reflexivity.
Qed.

Lemma single_stream_leaves_no_dimension_witness :
  n_nodes ex_single = 0%nat /\
  loss example_alpha_index [1] ex_single = (Err InvalidState, ex_single) /\
  grad example_alpha_index [1] [0] ex_single = (Err InvalidState, ex_single).
Proof.
  exact (single_stream_leaves_no_dimension example_sort example_alpha_index
           (constructed [1] [0] 1) ex_single [1] [0; 0]%nat 2 [1] [0]
           (set_data_ex_single example_sort example_sort_01)).
Defined.

(** X14. [set_data] with no stream at all: [n_nodes--] wraps around to
    [2^64 - 1], and [allocate_weights] then reads
    [n_jumps_per_node] outside the (empty) array. *)
Theorem no_stream_wraps_n_nodes
  (sort : list R -> list R * list nat) (m m1 : model) (gn : list nat) (T : R) :
  set_data sort m [] gn T = Ok m1 ->
  Z.of_nat (n_nodes m1) = (2 ^ 64 - 1)%Z /\
  allocate_weights m1 = Err OutOfBounds.
Proof.
  intros Hs.
  destruct (set_data_counts _ _ _ _ _ _ Hs) as (HD & _ & HJ).
  change (ulong_decr (length (@nil (list R)))) with ulong_max in HD.
  assert (Z.of_nat ulong_max = (2 ^ 64 - 1)%Z) as Hmax.
  { unfold ulong_max. rewrite Z2Nat.id; lia. }
  split; [by rewrite HD|].
  unfold allocate_weights. rewrite decide_False by lia.
  rewrite HJ. reflexivity.
Qed.

Lemma set_data_ex_none (sort : list R -> list R * list nat) :
  sort [0] = ([0], [0]%nat) ->
  set_data sort (constructed [1] [0] 1) [] [0]%nat 1 = Ok ex_none.
Proof.
  intros Hs. unfold set_data. cbv -[IZR ulong_max]. rewrite Hs. reflexivity.
Qed.

Lemma example_sort_0 : example_sort [0] = ([0], [0]%nat).
Proof. reflexivity. Qed.

Lemma no_stream_wraps_n_nodes_witness :
  Z.of_nat (n_nodes ex_none) = (2 ^ 64 - 1)%Z /\
  allocate_weights ex_none = Err OutOfBounds.
Proof.
  exact (no_stream_wraps_n_nodes example_sort (constructed [1] [0] 1) ex_none
           [0]%nat 1 (set_data_ex_none example_sort example_sort_0)).
Defined.

(** X1. On well-formed bound data (at least one modelled dimension and
    one event, sorted merged timestamps, lags that are not negative,
    states below [MaxN_of_f]) [allocate_weights] and the tasks
    [compute_weights_dim_i] of all dimensions return: no array is
    accessed out of bounds and the [while] loop ends. The bound data
    is unchanged and the buffers keep the sizes they were allocated
    with. *)
Theorem weights_pass_stays_in_bounds (m : model) :
  valid_data m ->
  exists m1 m2,
    allocate_weights m = Ok m1 /\
    for_range 0 (n_nodes m1) compute_weights_dim_i m1 = Ok m2 /\
    data_eq m m2 /\
    length (g_buf m2) = cells m /\
    forall i, (i < n_nodes m)%nat ->
      length (G_buf m2 i) = cells m /\
      length (H1_buf m2 i) = MaxN_of_f m /\
      length (H2_buf m2 i) = MaxN_of_f m /\
      length (H3_buf m2 i) = (MaxN_of_f m * length (decays m))%nat.
Proof.
  intros Hv. destruct (compute_weights_ok m Hv) as (m' & Hc & Hd & Hok & _).
  unfold compute_weights, parallel_run in Hc.
  destruct (allocate_weights m) as [m1|e] eqn:Ha; [|done].
  destruct (for_range 0 (n_nodes m1) compute_weights_dim_i m1) as [m2|e]
    eqn:Hl; [|done].
  injection Hc as <-. exists m1, m2. split; [done|]. split; [done|].
  split; [exact Hd|].
  assert (cells (with_weights_computed m2 true) = cells m) as Hcells.
  { unfold cells.
    replace (decays (with_weights_computed m2 true)) with (decays m)
      by (symmetry; apply Hd).
    replace (n_nodes (with_weights_computed m2 true)) with (n_nodes m)
      by (symmetry; apply Hd).
    replace (n_total_jumps (with_weights_computed m2 true))
      with (n_total_jumps m) by (symmetry; apply Hd).
    done. }
  split.
  { rewrite <- Hcells. apply (co_g_len _ Hok). }
  intros i Hi.
  assert (i < n_nodes (with_weights_computed m2 true))%nat as Hi'.
  { replace (n_nodes (with_weights_computed m2 true)) with (n_nodes m)
      by (symmetry; apply Hd). done. }
  destruct (co_G _ Hok i Hi') as [HG _].
  destruct (co_stats _ Hok i Hi') as (L1 & L2 & L3 & _).
  cbn in L1, L2, L3.
  destruct Hd as (Hdec & _ & HS & _). cbn in Hdec, HS.
  rewrite <- Hcells, <- HS, <- Hdec.
  split; [exact HG|]. split; [exact L1|]. split; [exact L2 | exact L3].
Qed.

Lemma weights_pass_stays_in_bounds_witness :
  exists m1 m2,
    allocate_weights ex_lag = Ok m1 /\
    for_range 0 (n_nodes m1) compute_weights_dim_i m1 = Ok m2 /\
    data_eq ex_lag m2 /\
    length (g_buf m2) = cells ex_lag /\
    forall i, (i < n_nodes ex_lag)%nat ->
      length (G_buf m2 i) = cells ex_lag /\
      length (H1_buf m2 i) = MaxN_of_f ex_lag /\
      length (H2_buf m2 i) = MaxN_of_f ex_lag /\
      length (H3_buf m2 i) = (MaxN_of_f ex_lag * length (decays ex_lag))%nat.
Proof. exact (weights_pass_stays_in_bounds ex_lag ex_lag_valid). Defined.

Lemma tm_step_le (m : model) (k : nat) :
  valid_data m -> tsf m (n_total_jumps m) <= end_time m ->
  (k <= n_total_jumps m)%nat -> tm m k <= tm m (S k).
Proof.
  intros Hv HT Hk. rewrite (tm_event m k) by lia.
  destruct (decide (S k = (1 + n_total_jumps m)%nat)) as [He|Hne].
  - unfold tm. rewrite decide_True by done.
    assert (k = n_total_jumps m) as -> by lia. done.
  - rewrite tm_event by lia. apply (vd_sorted m Hv). lia.
Qed.

Lemma g_rec_lagged (m : model) (gb : list R) :
  valid_data m -> tsf m (n_total_jumps m) <= end_time m ->
  g_zero m gb -> g_rec m gb ->
  forall u j k, (u < length (decays m))%nat -> (j < n_nodes m)%nat ->
    (k <= n_total_jumps m + 1)%nat ->
    get 0 gb (get_index m k j u) =
    if decide (k = 0%nat) then 0
    else lagged_sum m (decay_of m u) (lag_of m u) j k.
Proof.
  intros Hv HT Hz Hrec u j k Hu Hj.
  induction k as [|k IH]; intros Hk.
  - rewrite decide_True by done. by apply Hz.
  - rewrite decide_False by done.
    rewrite (Hrec u j (S k) Hu Hj ltac:(lia)).
    replace (S k - 1)%nat with k by lia. rewrite IH by lia.
    set (d := decay_of m u). set (lag := lag_of m u).
    unfold fold_sum, lagged_sum.
    destruct (decide (k = 0%nat)) as [->|Hk0].
    + rewrite Rmult_0_l, Rplus_0_l. apply Rsum_ext. intros e _.
      apply decide_ext. unfold newly_eligible. split.
      * intros (? & ? & _). done.
      * intros (? & ?). split; [done|]. split; [done | lia].
    + pose proof (tm_step_le m k Hv HT ltac:(lia)) as Hmono.
      rewrite Rsum_scale, Rsum_plus. apply Rsum_ext. intros e _.
      destruct (decide (tyf m e = (j + 1)%nat)) as [Hty|Hty].
      2:{ rewrite !decide_False by tauto. lra. }
      destruct (decide (eligible m lag k e)) as [Hel|Hel].
      * assert (eligible m lag (S k) e) as Hel'.
        { unfold eligible in *. lra. }
        rewrite (decide_True (P := _ /\ eligible m lag k e)) by done.
        rewrite (decide_True (P := _ /\ eligible m lag (S k) e)) by done.
        rewrite decide_False.
        2:{ intros [_ [_ Hn]]. apply Hn. split; [lia|].
            by replace (S k - 1)%nat with k by lia. }
        unfold ebt. replace (S k - 1)%nat with k by lia.
        rewrite (tm_event m k) by lia.
        rewrite Rplus_0_r, Rmult_assoc, <- exp_plus. f_equal. f_equal. lra.
      * rewrite (decide_False (P := _ /\ eligible m lag k e)) by tauto.
        rewrite Rmult_0_l, Rplus_0_l.
        apply decide_ext. unfold newly_eligible.
        replace (S k - 1)%nat with k by lia. split.
        -- intros (? & ? & _). done.
        -- intros (? & ?). split; [done|]. split; [done | tauto].
Qed.

Lemma lagged_eq m m' :
  data_eq m m' ->
  lagged_sum m' = lagged_sum m /\ lagged_integral m' = lagged_integral m.
Proof.
  intros He. destruct m, m'. unfold data_eq in He. cbn in He.
  destruct_and!. subst. done.
Qed.

(** X4. After the weights are computed, for every kernel [u] (any decay,
    any lag that is not negative), every source node [j] and every
    step [k] from 1 to the terminal step [M + 1], the cell
    [g(k, j, u)] that the recursion has filled is the pairwise sum of
    [decay_u * exp (- decay_u * (t_k - lag_u - t_e))] over the events
    [e] of node [j] with [t_e < t_k - lag_u], provided the end time is
    not before the last event. *)
Theorem g_is_the_lagged_pairwise_sum (m : model) (u j k : nat) :
  valid_data m -> tsf m (n_total_jumps m) <= end_time m ->
  (u < length (decays m))%nat -> (j < n_nodes m)%nat ->
  (1 <= k <= n_total_jumps m + 1)%nat ->
  gv (compute_weights m).2 k j u =
  lagged_sum m (decay_of m u) (lag_of m u) j k.
Proof.
  intros Hv HT Hu Hj Hk. destruct (computed_cache m Hv) as (Hd & Hok & _).
  destruct (data_eq_funs _ _ Hd)
    as (Hts & Hty & _ & Htm & Hgi & Hebt & Hfs & _ & Hdec & Hlag & _).
  set (m' := (compute_weights m).2) in *.
  assert (n_nodes m' = n_nodes m) as HD by apply Hd.
  assert (n_total_jumps m' = n_total_jumps m) as HM by apply Hd.
  assert (decays m' = decays m) as HU by apply Hd.
  assert (end_time m' = end_time m) as HE by apply Hd.
  pose proof (valid_data_eq m m' Hd Hv) as Hv'.
  pose proof (g_rec_lagged m' (g_buf m') Hv'
                ltac:(rewrite Hts, HM, HE; exact HT)
                (co_g_zero _ Hok) (co_g_rec _ Hok) u j k
                ltac:(rewrite HU; lia) ltac:(lia) ltac:(lia)) as Hg.
  rewrite decide_False in Hg by lia. unfold gv. rewrite Hg.
  rewrite Hdec, Hlag. by rewrite (proj1 (lagged_eq m m' Hd)).
Qed.

Lemma g_is_the_lagged_pairwise_sum_witness :
  gv (compute_weights ex_lag).2 3 0 0 =
  lagged_sum ex_lag (decay_of ex_lag 0) (lag_of ex_lag 0) 0 3.
Proof.
  apply (g_is_the_lagged_pairwise_sum ex_lag 0 0 3 ex_lag_valid);
    cbn; try lia.
  unfold tsf, get. cbn. lra.
Defined.

Lemma G_rec_lagged (m : model) (gb Gb : list R) :
  valid_data m -> tsf m (n_total_jumps m) <= end_time m ->
  g_zero m gb -> g_rec m gb -> G_rec m gb Gb ->
  forall u j k, (u < length (decays m))%nat -> (j < n_nodes m)%nat ->
    (1 <= k <= n_total_jumps m + 1)%nat -> decay_of m u <> 0 ->
    get 0 Gb (get_index m k j u) =
    lagged_integral m (decay_of m u) (lag_of m u) j k.
Proof.
  intros Hv HT Hz Hrec HG u j k Hu Hj Hk Hd0.
  rewrite (HG u j k Hu Hj Hk).
  rewrite (g_rec_lagged m gb Hv HT Hz Hrec u j (k - 1) Hu Hj ltac:(lia)).
  set (d := decay_of m u) in *. set (lag := lag_of m u).
  unfold fold_sum, lagged_sum, lagged_integral.
  destruct (decide ((k - 1)%nat = 0%nat)) as [Hk1|Hk1].
  - rewrite Rmult_0_r, Rplus_0_l. apply Rsum_ext. intros e _.
    destruct (decide (tyf m e = (j + 1)%nat)) as [Hty|Hty].
    2:{ rewrite !decide_False by tauto. done. }
    destruct (decide (eligible m lag k e)) as [Hel|Hel].
    + rewrite (decide_True (P := _ /\ eligible m lag k e)) by done.
      rewrite decide_True.
      2:{ split; [done|]. split; [done | lia]. }
      rewrite (decide_False (P := (2 <= k)%nat /\ _)) by lia.
      reflexivity.
    + rewrite (decide_False (P := _ /\ eligible m lag k e)) by tauto.
      rewrite decide_False; [done|]. intros [_ [? _]]. done.
  - pose proof (tm_step_le m (k - 1) Hv HT ltac:(lia)) as Hmono.
    replace (S (k - 1)) with k in Hmono by lia.
    rewrite Rmult_comm, Rsum_scale, Rsum_plus. apply Rsum_ext. intros e _.
    destruct (decide (tyf m e = (j + 1)%nat)) as [Hty|Hty].
    2:{ rewrite !decide_False by tauto. lra. }
    destruct (decide (eligible m lag (k - 1) e)) as [Hel|Hel].
    + assert (eligible m lag k e) as Hel'.
      { unfold eligible in *. lra. }
      rewrite (decide_True (P := _ /\ eligible m lag (k - 1) e)) by done.
      rewrite (decide_True (P := _ /\ eligible m lag k e)) by done.
      rewrite (decide_True (P := (2 <= k)%nat /\ _)) by (split; [lia|done]).
      rewrite decide_False.
      2:{ intros [_ [_ Hn]]. apply Hn. split; [lia | done]. }
      unfold ebt. rewrite (tm_event m (k - 1)) by lia.
      replace (exp (- d * (tm m k - lag - tsf m e)))
        with (exp (- d * (tsf m (k - 1) - lag - tsf m e))
              * exp (- d * (tm m k - tsf m (k - 1)))).
      2:{ rewrite <- exp_plus. f_equal. lra. }
      field. done.
    + rewrite (decide_False (P := _ /\ eligible m lag (k - 1) e)) by tauto.
      rewrite Rmult_0_l, Rplus_0_l.
      destruct (decide (eligible m lag k e)) as [Hel'|Hel'].
      * rewrite (decide_True (P := _ /\ eligible m lag k e)) by done.
        rewrite decide_True.
        2:{ split; [done|]. split; [done | tauto]. }
        rewrite (decide_False (P := (2 <= k)%nat /\ _)) by tauto.
        reflexivity.
      * rewrite (decide_False (P := _ /\ eligible m lag k e)) by tauto.
        rewrite decide_False; [done|]. intros [_ [? _]]. done.
Qed.

Lemma Rsum_indicator (S c : nat) (x : R) :
  (c < S)%nat ->
  Rsum (seq 0 S) (fun n => if decide (c = n) then x else 0) = x.
Proof.
  induction S as [|S IH]; intros Hc; [lia|].
  rewrite Rsum_seq_snoc. cbn [Nat.add].
  destruct (decide (c = S)) as [->|Hne].
  - rewrite Rsum_zero; [lra|]. intros e He%elem_of_seq.
    rewrite decide_False by lia. done.
  - rewrite IH by lia. lra.
Qed.

Lemma Rsum_by_state (S : nat) (l : list nat) (c : nat -> nat)
  (x : nat -> R) :
  (forall k, k ∈ l -> (c k < S)%nat) ->
  Rsum (seq 0 S) (fun n =>
    Rsum l (fun k => if decide (c k = n) then x k else 0)) = Rsum l x.
Proof.
  induction l as [|a l IH]; intros Hc.
  - apply Rsum_zero. done.
  - rewrite (Rsum_ext _ _ (fun n =>
      (if decide (c a = n) then x a else 0)
      + Rsum l (fun k => if decide (c k = n) then x k else 0)))
      by (intros; apply Rsum_cons).
    rewrite <- Rsum_plus, Rsum_indicator, IH, Rsum_cons; [done|..].
    + intros k Hk. apply Hc. by right.
    + apply Hc. by left.
Qed.

Lemma Rsum_telescope (f : nat -> R) (n : nat) :
  Rsum (seq 1 n) (fun k => f k - f (k - 1)%nat) = f n - f 0%nat.
Proof.
  induction n as [|n IH]; [unfold Rsum; simpl; lra|].
  rewrite Rsum_seq_snoc, IH. cbn [Nat.add].
  replace (S n - 1)%nat with n by lia. lra.
Qed.

Lemma Rsum_minus (l : list nat) (f f' : nat -> R) :
  Rsum l (fun e => f e - f' e) = Rsum l f - Rsum l f'.
Proof.
  unfold Rsum. induction l as [|e l IH]; simpl; [lra|]. rewrite IH. lra.
Qed.

(** X6. After the weights are computed, the entries of [H1[i]] add up to
    the number of events of dimension [i] minus one, and the entries
    of [H2[i]] add up to minus the length of the observation window,
    [- (T - t_0)]: every interval is counted in exactly one state. *)
Theorem H1_and_H2_totals (m : model) (i : nat) :
  valid_data m -> (i < n_nodes m)%nat ->
  Rsum (seq 0 (MaxN_of_f m)) (H1v (compute_weights m).2 i)
  = n_events_of m i - 1 /\
  Rsum (seq 0 (MaxN_of_f m)) (H2v (compute_weights m).2 i)
  = - (end_time m - tsf m 0).
Proof.
  intros Hv Hi. destruct (computed_cache m Hv) as (Hd & Hok & _).
  destruct (data_eq_funs _ _ Hd)
    as (_ & _ & _ & _ & _ & _ & _ & _ & _ & _ & Hs1 & Hs2 & _).
  set (m' := (compute_weights m).2) in *.
  assert (n_nodes m' = n_nodes m) as HD by apply Hd.
  destruct (co_stats _ Hok i ltac:(lia)) as (_ & _ & _ & E1 & E2 & _).
  assert (forall k, (k <= n_total_jumps m)%nat ->
            (gnf m k < MaxN_of_f m)%nat) as Hst by apply (vd_states m Hv).
  split.
  - rewrite (Rsum_ext _ _ (H1_spec m i))
      by (intros n _; unfold H1v; by rewrite E1, Hs1).
    unfold H1_spec. rewrite Rsum_minus.
    rewrite (Rsum_by_state _ _ (fun k => gnf m (k - 1))
               (fun k => if decide (tyf m k = (i + 1)%nat) then 1 else 0)).
    2:{ intros k Hk%elem_of_seq. apply Hst. lia. }
    rewrite Rsum_indicator by (apply Hst; lia). done.
  - rewrite (Rsum_ext _ _ (H2_spec m))
      by (intros n _; unfold H2v; by rewrite E2, Hs2).
    unfold H2_spec. rewrite Rsum_opp.
    rewrite (Rsum_by_state _ _ (fun k => gnf m (k - 1))
               (fun k => tm m k - tsf m (k - 1))).
    2:{ intros k Hk%elem_of_seq. apply Hst. lia. }
    f_equal. replace (n_total_jumps m + 1)%nat with (S (n_total_jumps m))
      by lia.
    rewrite Rsum_seq_snoc.
    rewrite (Rsum_ext _ _ (fun k => tsf m k - tsf m (k - 1)))
      by (intros k Hk%elem_of_seq; rewrite tm_event by lia; done).
    rewrite Rsum_telescope.
    replace (1 + n_total_jumps m - 1)%nat with (n_total_jumps m) by lia.
    unfold tm at 1. rewrite decide_True by lia. lra.
Qed.

Lemma H1_and_H2_totals_witness :
  Rsum (seq 0 (MaxN_of_f ex_two)) (H1v (compute_weights ex_two).2 1)
  = n_events_of ex_two 1 - 1 /\
  Rsum (seq 0 (MaxN_of_f ex_two)) (H2v (compute_weights ex_two).2 1)
  = - (end_time ex_two - tsf ex_two 0).
Proof.
  apply (H1_and_H2_totals ex_two 1 ex_two_valid). cbn. lia.
Defined.

(** A double loop that adds [f j u] to the cell [idx j u]. *)
Lemma double_add_at (D U : nat) (idx : nat -> nat -> nat)
  (f : nat -> nat -> R) (body : nat -> nat -> list R -> result (list R))
  (out : list R) :
  (forall j u, (j < D)%nat -> (u < U)%nat -> (idx j u < length out)%nat) ->
  (forall j u j' u', (j < D)%nat -> (u < U)%nat -> (j' < D)%nat ->
     (u' < U)%nat -> idx j u = idx j' u' -> j = j' /\ u = u') ->
  (forall j u o, (j < D)%nat -> (u < U)%nat -> length o = length out ->
     body j u o = Ok (<[idx j u := get 0 o (idx j u) + f j u]> o)) ->
  exists out',
    for_range 0 D (fun j o => for_range 0 U (fun u o => body j u o) o) out
    = Ok out' /\
    length out' = length out /\
    (forall j u, (j < D)%nat -> (u < U)%nat ->
       get 0 out' (idx j u) = get 0 out (idx j u) + f j u) /\
    (forall c, (forall j u, (j < D)%nat -> (u < U)%nat -> c <> idx j u) ->
       get 0 out' c = get 0 out c).
Proof.
  intros Hidx Hinj Hbody.
  set (seen := fun (n n' j u : nat) =>
         ((j < n)%nat /\ (u < U)%nat) \/ (j = n /\ (u < n')%nat)).
  set (I := fun (n n' : nat) (o : list R) =>
         length o = length out /\
         (forall j u, seen n n' j u ->
            get 0 o (idx j u) = get 0 out (idx j u) + f j u) /\
         (forall c, (forall j u, seen n n' j u -> c <> idx j u) ->
            get 0 o c = get 0 out c)).
  destruct (for_range_inv (fun n o => I n 0%nat o) 0 D
              (fun j o => for_range 0 U (fun u o => body j u o) o) out)
    as (out' & Hr & L & E & F).
  - split; [done|]. split.
    + intros j u [[? ?]|[_ ?]]; lia.
    + done.
  - intros n o Hn HI.
    destruct (for_range_inv (fun n' o' => I n n' o') 0 U
                (fun u o => body n u o) o) as (o' & Hr' & L' & E' & F').
    + exact HI.
    + intros u o1 Hu (L1 & E1 & F1). rewrite Hbody by (lia || done).
      eexists. split; [reflexivity|]. split; [by rewrite length_insert|].
      split.
      * intros j' u' Hs.
        destruct (decide (idx j' u' = idx n u)) as [He|Hne].
        -- assert (j' < D /\ u' < U)%nat as [? ?].
           { destruct Hs as [[? ?]|[-> ?]]; lia. }
           destruct (Hinj j' u' n u) as [-> ->]; [lia..|done|].
           rewrite get_insert_eq.
           2:{ rewrite L1. apply Hidx; lia. }
           rewrite F1; [done|]. intros j2 u2 Hs2 He2.
           assert (j2 < D /\ u2 < U)%nat as [? ?].
           { destruct Hs2 as [[? ?]|[-> ?]]; lia. }
           destruct (Hinj n u j2 u2) as [-> ->]; [lia..|done|].
           destruct Hs2 as [[? ?]|[_ ?]]; lia.
        -- rewrite get_insert_ne by done. apply E1.
           destruct Hs as [[? ?]|[-> ?]]; [by left|].
           right. split; [done|].
           assert (u' <> u) by (intros ->; done). lia.
      * intros c Hc. rewrite get_insert_ne.
        2:{ apply Hc. right. split; [done | lia]. }
        apply F1. intros j2 u2 Hs2. apply Hc.
        destruct Hs2 as [[? ?]|[-> ?]]; [by left|]. right. split; [done|lia].
    + exists o'. split; [exact Hr'|]. split; [done|]. split.
      * intros j u [[? ?]|[_ ?]]; [|lia]. apply E'.
        destruct (decide (j = n)) as [->|]; [right|left]; split; (done||lia).
      * intros c Hc. apply F'. intros j u [[? ?]|[-> ?]]; apply Hc;
          left; split; lia.
  - exists out'. split; [exact Hr|]. split; [done|]. split.
    + intros j u Hj Hu. apply E. left. done.
    + intros c Hc. apply F. intros j u [[? ?]|[-> ?]]; [|lia]. by apply Hc.
Qed.

Section AlphaGradProof.
Variable aidx : nat -> nat -> nat -> nat -> nat -> nat.
Variable m : model.
Variable coeffs : list R.
Hypothesis Hv : valid_data m.
Hypothesis Hc : cache_ok m.
Hypothesis Hlay : alpha_layout aidx m.
Hypothesis Hinj : alpha_injective aidx m.
Hypothesis Hlen : length coeffs = get_n_coeffs m.

Lemma alpha_cell_lt i (out : list R) u j :
  length out = get_n_coeffs m -> (i < n_nodes m)%nat ->
  (j < n_nodes m)%nat -> (u < length (decays m))%nat ->
  (get_alpha_u_i_j_index aidx m u i j < length out)%nat.
Proof.
  intros Lo Hi Hj Hu. rewrite Lo, <- Hlen.
  by apply (aidx_lt aidx m coeffs Hlay Hlen).
Qed.

Lemma alpha_cell_inj i j u j' u' :
  (i < n_nodes m)%nat ->
  (j < n_nodes m)%nat -> (u < length (decays m))%nat ->
  (j' < n_nodes m)%nat -> (u' < length (decays m))%nat ->
  get_alpha_u_i_j_index aidx m u i j = get_alpha_u_i_j_index aidx m u' i j' ->
  j = j' /\ u = u'.
Proof.
  intros Hi Hj Hu Hj' Hu' He.
  destruct (Hinj u i j u' i j') as (-> & _ & ->); done.
Qed.

(** The first loop of the gradient of the [alpha_{u,i,j}]. *)
Lemma grad_alpha_events_eq i out :
  (i < n_nodes m)%nat -> length out = get_n_coeffs m ->
  exists out',
    grad_alpha_events aidx m i coeffs (g_buf m) (mu_of coeffs i) out =
    Ok out' /\
    length out' = length out /\
    (forall j u, (j < n_nodes m)%nat -> (u < length (decays m))%nat ->
       get 0 out' (get_alpha_u_i_j_index aidx m u i j) =
       get 0 out (get_alpha_u_i_j_index aidx m u i j)
       + Rsum (seq 1 (n_total_jumps m + 1)) (fun k =>
           if decide (k = (n_total_jumps m + 1)%nat \/ tyf m k = (i + 1)%nat)
           then gv m k j u / intensity_spec aidx m coeffs i k else 0)) /\
    (forall c, (forall j u, (j < n_nodes m)%nat ->
                  (u < length (decays m))%nat ->
                  c <> get_alpha_u_i_j_index aidx m u i j) ->
       get 0 out' c = get 0 out c).
Proof.
  intros Hi Lo. unfold grad_alpha_events.
  set (term := fun (j u k : nat) =>
         if decide (k = (n_total_jumps m + 1)%nat \/ tyf m k = (i + 1)%nat)
         then gv m k j u / intensity_spec aidx m coeffs i k else 0).
  destruct (for_range_inv
    (fun n (o : list R) =>
       length o = length out /\
       (forall j u, (j < n_nodes m)%nat -> (u < length (decays m))%nat ->
          get 0 o (get_alpha_u_i_j_index aidx m u i j) =
          get 0 out (get_alpha_u_i_j_index aidx m u i j)
          + Rsum (seq 1 (n - 1)) (term j u)) /\
       (forall c, (forall j u, (j < n_nodes m)%nat ->
                     (u < length (decays m))%nat ->
                     c <> get_alpha_u_i_j_index aidx m u i j) ->
          get 0 o c = get 0 out c))
    1 (n_total_jumps m + 1)
    (fun k out =>
       flag ← tmp_flag m i k;
       if flag : bool then
         denominator ← intensity aidx m i coeffs (g_buf m) (mu_of coeffs i) k;
         for_range 0 (n_nodes m) (fun j out =>
           for_range 0 (length (decays m)) (fun u out =>
             gv ← rd (g_buf m) (get_index m k j u);
             add_at out (get_alpha_u_i_j_index aidx m u i j)
               (gv / denominator)) out) out
       else Ok out) out) as (out' & Hr & L & E & F).
  - split; [done|]. split; [|done]. intros j u _ _.
    unfold Rsum. simpl. lra.
  - intros k o Hk (L & E & F).
    assert (tmp_flag m i k =
            Ok (bool_decide (k = (n_total_jumps m + 1)%nat
                             \/ tyf m k = (i + 1)%nat))) as ->.
    { destruct (decide (k = (n_total_jumps m + 1)%nat)) as [->|Hne].
      - rewrite tmp_flag_terminal. by rewrite bool_decide_eq_true_2 by auto.
      - rewrite (tmp_flag_event m coeffs Hv Hlen) by lia. f_equal.
        apply bool_decide_ext. split; [auto | intros [?|?]; done]. }
    rewrite bind_Ok. cbv beta.
    assert (forall j u, Rsum (seq 1 (S k - 1)) (term j u)
                        = Rsum (seq 1 (k - 1)) (term j u) + term j u k)
      as Hsnoc.
    { intros j u. replace (S k - 1)%nat with (S (k - 1)) by lia.
      rewrite Rsum_seq_snoc. by replace (1 + (k - 1))%nat with k by lia. }
    case_bool_decide as Hflag.
    + rewrite (intensity_eq aidx m coeffs Hc Hlay Hlen) by (done || lia).
      rewrite bind_Ok. cbv beta.
      destruct (double_add_at (n_nodes m) (length (decays m))
                  (fun j u => get_alpha_u_i_j_index aidx m u i j)
                  (fun j u => gv m k j u / intensity_spec aidx m coeffs i k)
                  (fun j u out =>
                     gv ← rd (g_buf m) (get_index m k j u);
                     add_at out (get_alpha_u_i_j_index aidx m u i j)
                       (gv / intensity_spec aidx m coeffs i k)) o)
        as (o' & Hr' & L' & E' & F').
      * intros j u Hj Hu. rewrite L. by apply alpha_cell_lt.
      * intros j u j' u' Hj Hu Hj' Hu'. by apply alpha_cell_inj.
      * intros j u o1 Hj Hu L1.
        rewrite (rd_get 0 (g_buf m))
          by (rewrite (co_g_len m Hc); apply get_index_lt; lia).
        rewrite bind_Ok. cbv beta. rewrite add_at_lt; [done|].
        rewrite L1, L. by apply alpha_cell_lt.
      * exists o'. split; [exact Hr'|]. split; [lia|]. split.
        -- intros j u Hj Hu. rewrite E', E, Hsnoc by done.
           unfold term at 3. rewrite decide_True by done. lra.
        -- intros c Hc'. rewrite F', F by done. done.
    + exists o. split; [done|]. split; [done|]. split; [|done].
      intros j u Hj Hu. rewrite E, Hsnoc by done.
      unfold term at 3. rewrite decide_False by done. lra.
  - exists out'. split; [exact Hr|]. split; [done|]. split; [|done].
    intros j u Hj Hu. rewrite E by done.
    by replace (1 + (n_total_jumps m + 1) - 1)%nat
      with (n_total_jumps m + 1)%nat by lia.
Qed.

(** The second loop of the gradient of the [alpha_{u,i,j}]. *)
Lemma grad_alpha_compensator_eq i f_i out :
  (i < n_nodes m)%nat -> length out = get_n_coeffs m ->
  length f_i = MaxN_of_f m ->
  (forall k, (k < MaxN_of_f m)%nat -> get 0 f_i k = f_of m coeffs i k) ->
  exists out',
    grad_alpha_compensator aidx m i (G_buf m i) f_i out = Ok out' /\
    length out' = length out /\
    (forall j u, (j < n_nodes m)%nat -> (u < length (decays m))%nat ->
       get 0 out' (get_alpha_u_i_j_index aidx m u i j) =
       get 0 out (get_alpha_u_i_j_index aidx m u i j)
       + - Rsum (seq 1 (n_total_jumps m + 1)) (fun k =>
             Gv m i k j u * f_of m coeffs i (gnf m (k - 1)))) /\
    (forall c, (forall j u, (j < n_nodes m)%nat ->
                  (u < length (decays m))%nat ->
                  c <> get_alpha_u_i_j_index aidx m u i j) ->
       get 0 out' c = get 0 out c).
Proof.
  intros Hi Lo Lf Ef. unfold grad_alpha_compensator.
  apply (double_add_at (n_nodes m) (length (decays m))
           (fun j u => get_alpha_u_i_j_index aidx m u i j)
           (fun j u => - Rsum (seq 1 (n_total_jumps m + 1)) (fun k =>
                          Gv m i k j u * f_of m coeffs i (gnf m (k - 1))))
           (fun j u out =>
              s ← sum_G_i_j_u m (G_buf m i) f_i j u;
              sub_at out (get_alpha_u_i_j_index aidx m u i j) s)).
  - intros j u Hj Hu. by apply alpha_cell_lt.
  - intros j u j' u' Hj Hu Hj' Hu'. by apply alpha_cell_inj.
  - intros j u o Hj Hu L.
    rewrite (sum_G_i_j_u_eq m coeffs Hv Hc Hlen i j u f_i) by done.
    rewrite bind_Ok. cbv beta. rewrite sub_at_lt; [done|].
    rewrite L. by apply alpha_cell_lt.
Qed.

(** The entries of the [alpha] block after [grad_dim_i]: the task of
    dimension [i] adds to the entries of its own [alpha_{u,i,j}] and
    leaves those of the other dimensions as they were. *)
Lemma grad_dim_i_alpha i out :
  (i < n_nodes m)%nat -> length out = get_n_coeffs m ->
  exists out',
    grad_dim_i aidx i coeffs m out = Ok out' /\
    length out' = length out /\
    (forall j u, (j < n_nodes m)%nat -> (u < length (decays m))%nat ->
       get 0 out' (get_alpha_u_i_j_index aidx m u i j) =
       get 0 out (get_alpha_u_i_j_index aidx m u i j)
       + grad_alpha_spec aidx m coeffs i j u) /\
    (forall i' j u, (i' < n_nodes m)%nat -> i' <> i -> (j < n_nodes m)%nat ->
       (u < length (decays m))%nat ->
       get 0 out' (get_alpha_u_i_j_index aidx m u i' j) =
       get 0 out (get_alpha_u_i_j_index aidx m u i' j)).
Proof.
  intros Hi Lo. unfold grad_dim_i.
  assert (i < length out)%nat as Hio
    by (rewrite Lo; unfold get_n_coeffs; lia).
  rewrite (rd_get 0 coeffs) by (rewrite Hlen, <- Lo; done).
  rewrite bind_Ok. cbv beta. fold (mu_of coeffs i).
  rewrite (rd_get 0 out) by done. rewrite bind_Ok. cbv beta.
  destruct (read_f_i_spec m coeffs Hlen i Hi) as (f_i & -> & Lf & Ef).
  rewrite bind_Ok. cbv beta.
  rewrite (rd_get [] (g m)) by (apply (co_g m Hc)).
  rewrite bind_Ok. cbv beta. fold (g_buf m).
  rewrite (rd_get [] (G m)) by (rewrite (co_G_len m Hc); lia).
  rewrite bind_Ok. cbv beta. fold (G_buf m i).
  rewrite wr_lt by done. rewrite bind_Ok. cbv beta.
  rewrite (grad_mu_events_eq aidx m coeffs Hv Hc Hlay Hlen)
    by (by rewrite ?length_insert).
  rewrite bind_Ok. cbv beta.
  rewrite (grad_mu_compensator_eq m coeffs Hv Hlen i f_i)
    by (by rewrite ?length_insert).
  rewrite bind_Ok. cbv beta.
  rewrite !list_insert_insert_eq.
  set (out1 := <[i := _]> out).
  assert (length out1 = get_n_coeffs m) as Lo1
    by (subst out1; by rewrite length_insert).
  destruct (grad_alpha_events_eq i out1 Hi Lo1) as (out2 & -> & L2 & E2 & F2).
  rewrite bind_Ok. cbv beta.
  destruct (grad_alpha_compensator_eq i f_i out2 Hi ltac:(lia) Lf Ef)
    as (out3 & -> & L3 & E3 & F3).
  rewrite bind_Ok. cbv beta.
  destruct (grad_f_spec_eq aidx m coeffs Hc Hlay Hlen i f_i Hi Lf Ef)
    as (gf & -> & Lgf & Egf).
  rewrite bind_Ok. cbv beta.
  destruct (grad_f_store m coeffs Hlen i gf out3 Hi ltac:(lia) Lgf)
    as (out4 & -> & L4 & E4 & F4).
  assert (forall i' j u k, (i' < n_nodes m)%nat -> (j < n_nodes m)%nat ->
            (u < length (decays m))%nat ->
            get_alpha_u_i_j_index aidx m u i' j <> i /\
            get_alpha_u_i_j_index aidx m u i' j <> f_index m i k) as Hsep.
  { intros i' j u k Hi' Hj Hu. pose proof (Hlay u i' j Hu Hi' Hj).
    unfold f_index. lia. }
  exists out4. split; [done|]. split; [by rewrite L4, L3, L2, Lo1, Lo|].
  split.
  - intros j u Hj Hu. rewrite F4 by (intros k _; by apply Hsep).
    rewrite E3, E2 by done. subst out1.
    rewrite get_insert_ne by (by apply (Hsep i j u 0%nat)).
    unfold grad_alpha_spec. lra.
  - intros i' j u Hi' Hne Hj Hu. rewrite F4 by (intros k _; by apply Hsep).
    assert (forall j2 u2, (j2 < n_nodes m)%nat ->
              (u2 < length (decays m))%nat ->
              get_alpha_u_i_j_index aidx m u i' j
              <> get_alpha_u_i_j_index aidx m u2 i j2) as Hother.
    { intros j2 u2 Hj2 Hu2 He.
      destruct (Hinj u i' j u2 i j2) as (_ & ? & _); done. }
    rewrite F3, F2 by done. subst out1.
    by rewrite get_insert_ne by (by apply (Hsep i' j u 0%nat)).
Qed.
End AlphaGradProof.

Lemma alpha_injective_eq aidx m m' :
  data_eq m m' -> alpha_injective aidx m -> alpha_injective aidx m'.
Proof.
  intros He Hi. destruct m, m'. unfold data_eq in He. cbn in He.
  destruct_and!. subst. exact Hi.
Qed.

Lemma example_alpha_injective m : alpha_injective example_alpha_index m.
Proof.
  intros u i j u' i' j' Hu Hi Hj Hu' Hi' Hj'.
  unfold get_alpha_u_i_j_index, example_alpha_index, get_n_decays.
  set (D := n_nodes m) in *. set (U := length (decays m)) in *.
  intros He.
  assert (D * U * i + U * j + u = D * U * i' + U * j' + u')%nat as He'
    by lia.
  assert (U * j + u < D * U)%nat by nia.
  assert (U * j' + u' < D * U)%nat by nia.
  assert (i = i') as -> by nia.
  assert (j = j') as -> by nia.
  split; [lia | done].
Qed.

(** X9. The gradient entry of [alpha_{u,i,j}] (lines of the two [alpha]
    loops of [grad_dim_i]): the task of dimension [i] adds to what
    the entry holds the sum of [g(k,j,u) / denominator(k)] over the
    events [k] of dimension [i] and the terminal step [k = M + 1],
    minus [sum_k G_i(k,j,u) * f_i[n[k-1]]]; [grad], which first
    clears [out], returns that value divided by [Total_events] and
    negated. *)
Theorem grad_alpha_entry_value
  (aidx : nat -> nat -> nat -> nat -> nat -> nat) (coeffs out : list R)
  (m : model) (i j u : nat) :
  ready m -> alpha_layout aidx m -> alpha_injective aidx m ->
  length coeffs = get_n_coeffs m -> length out = get_n_coeffs m ->
  (i < n_nodes m)%nat -> (j < n_nodes m)%nat ->
  (u < length (decays m))%nat ->
  (exists out',
     grad_dim_i aidx i coeffs (cached m) out = Ok out' /\
     get 0 out' (get_alpha_u_i_j_index aidx m u i j) =
     get 0 out (get_alpha_u_i_j_index aidx m u i j)
     + grad_alpha_spec aidx (cached m) coeffs i j u) /\
  (exists out',
     (grad aidx coeffs out m).1 = Ok out' /\
     get 0 out' (get_alpha_u_i_j_index aidx m u i j) =
     - (grad_alpha_spec aidx (cached m) coeffs i j u
        / IZR (Total_events (cached m)))).
Proof.
  intros Hr Hlay Hinj Hlen Lo Hi Hj Hu.
  destruct (cached_ok m Hr) as (He & Hd & Hv & Hc & Hw).
  assert (n_nodes (cached m) = n_nodes m) as HD by apply Hd.
  assert (decays (cached m) = decays m) as HU by apply Hd.
  pose proof (get_n_coeffs_eq _ _ Hd) as HN.
  pose proof (alpha_layout_eq _ _ _ Hd Hlay) as Hlay'.
  pose proof (alpha_injective_eq _ _ _ Hd Hinj) as Hinj'.
  assert (forall u i j, get_alpha_u_i_j_index aidx (cached m) u i j
                        = get_alpha_u_i_j_index aidx m u i j) as Ha.
  { intros. unfold get_alpha_u_i_j_index, get_n_decays. by rewrite HD, HU. }
  set (m1 := cached m) in *.
  split.
  - destruct (grad_dim_i_alpha aidx m1 coeffs Hv Hc Hlay' Hinj' ltac:(lia)
                i out ltac:(lia) ltac:(lia)) as (o' & Hg & _ & E & _).
    exists o'. split; [exact Hg|]. rewrite <- Ha. apply E; [lia|].
    rewrite HU. lia.
  - unfold grad. rewrite He. cbn [fst]. fold m1.
    destruct (for_range_inv
      (fun n (o : list R) =>
         length o = get_n_coeffs m1 /\
         forall i j u, (i < n_nodes m1)%nat -> (j < n_nodes m1)%nat ->
           (u < length (decays m1))%nat ->
           get 0 o (get_alpha_u_i_j_index aidx m1 u i j) =
           if decide (i < n)%nat
           then grad_alpha_spec aidx m1 coeffs i j u else 0)
      0 (n_nodes m1) (fun i out => grad_dim_i aidx i coeffs m1 out)
      (map (fun _ => 0) out)) as (o1 & Hrun & L1 & E1).
    + rewrite length_map. split; [lia|]. intros i0 j0 u0 Hi0 Hj0 Hu0.
      rewrite decide_False by lia.
      rewrite get_map; [done|]. rewrite Lo, <- Hlen.
      apply (aidx_lt aidx m1 coeffs Hlay' ltac:(lia)); done.
    + intros n o Hn [L E].
      destruct (grad_dim_i_alpha aidx m1 coeffs Hv Hc Hlay' Hinj' ltac:(lia)
                  n o ltac:(lia) L) as (o' & Hg & L' & Eo & Fo).
      exists o'. split; [exact Hg|]. split; [lia|].
      intros i0 j0 u0 Hi0 Hj0 Hu0.
      destruct (decide (i0 = n)) as [->|Hne].
      * rewrite Eo, E by done. rewrite decide_False by lia.
        rewrite decide_True by lia. lra.
      * rewrite Fo, E by done.
        destruct (decide (i0 < n)%nat).
        -- by rewrite decide_True by lia.
        -- by rewrite decide_False by lia.
    + unfold parallel_run. rewrite Hrun, bind_Ok. cbv beta zeta.
      destruct (negate_loop (get_n_coeffs m1)
                  (map (fun x => x / IZR (Total_events m1)) o1))
        as (o2 & -> & L2 & E2); [rewrite length_map; lia|].
      rewrite length_map in L2.
      exists o2. split; [done|]. rewrite <- Ha.
      assert (get_alpha_u_i_j_index aidx m1 u i j < get_n_coeffs m1)%nat
        as Hlt.
      { rewrite HN, <- Hlen.
        apply (aidx_lt aidx m1 coeffs Hlay' ltac:(lia)); [|lia..].
        rewrite HU. lia. }
      rewrite E2 by done. rewrite get_map by lia.
      rewrite E1 by (rewrite ?HU; lia). by rewrite decide_True by lia.
Qed.

Lemma grad_alpha_entry_value_witness :
  (exists out',
     grad_dim_i example_alpha_index 0 [1; 1; 0; 0; 0; 0; 1; 1; 1; 1]
       (cached ex_two) [0; 0; 0; 0; 0; 0; 0; 0; 0; 0] = Ok out' /\
     get 0 out' (get_alpha_u_i_j_index example_alpha_index ex_two 0 0 1) =
     get 0 [0; 0; 0; 0; 0; 0; 0; 0; 0; 0]
       (get_alpha_u_i_j_index example_alpha_index ex_two 0 0 1)
     + grad_alpha_spec example_alpha_index (cached ex_two)
         [1; 1; 0; 0; 0; 0; 1; 1; 1; 1] 0 1 0) /\
  (exists out',
     (grad example_alpha_index [1; 1; 0; 0; 0; 0; 1; 1; 1; 1]
        [0; 0; 0; 0; 0; 0; 0; 0; 0; 0] ex_two).1 = Ok out' /\
     get 0 out' (get_alpha_u_i_j_index example_alpha_index ex_two 0 0 1) =
     - (grad_alpha_spec example_alpha_index (cached ex_two)
          [1; 1; 0; 0; 0; 0; 1; 1; 1; 1] 0 1 0
        / IZR (Total_events (cached ex_two)))).
Proof.
  apply (grad_alpha_entry_value example_alpha_index
           [1; 1; 0; 0; 0; 0; 1; 1; 1; 1] [0; 0; 0; 0; 0; 0; 0; 0; 0; 0]
           ex_two 0 1 0 (fresh_ready _ ex_two_valid eq_refl)
           (example_alpha_layout ex_two) (example_alpha_injective ex_two)
           eq_refl eq_refl); cbn; lia.
Defined.

Lemma sum_counts_take_S (streams : list (list R)) (j : nat) (t : list R) :
  streams !! j = Some t ->
  sum_counts (take (S j) streams)
  = (sum_counts (take j streams) + length t)%nat.
Proof.
  intros Hj. rewrite (take_S_r _ _ _ Hj), sum_counts_app. cbn. lia.
Qed.

Lemma sum_counts_take_le (streams : list (list R)) (j : nat) :
  (sum_counts (take j streams) <= sum_counts streams)%nat.
Proof.
  rewrite <- (take_drop j streams) at 2. rewrite sum_counts_app. lia.
Qed.

Lemma length_concat_streams (streams : list (list R)) :
  length (concat streams) = sum_counts streams.
Proof.
  induction streams as [|t r IH]; [done|].
  cbn. rewrite length_app, IH. done.
Qed.

Lemma length_stream_tags (streams : list (list R)) (j0 : nat) :
  length (stream_tags j0 streams) = sum_counts streams.
Proof.
  revert j0. induction streams as [|t r IH]; intros j0; [done|].
  cbn. rewrite length_app, length_replicate, IH. done.
Qed.

Lemma concat_lookup_stream (streams : list (list R)) (j k : nat)
  (t : list R) :
  streams !! j = Some t -> (k < length t)%nat ->
  concat streams !! (sum_counts (take j streams) + k)%nat = t !! k.
Proof.
  revert j. induction streams as [|t0 r IH]; intros j Hj Hk; [done|].
  destruct j as [|j].
  - injection Hj as ->. cbn. by rewrite lookup_app_l by lia.
  - cbn in Hj. cbn [take sum_counts foldr concat].
    rewrite lookup_app_r by lia.
    replace (length t0 + foldr (fun t n => (length t + n)%nat) 0%nat
               (take j r) + k - length t0)%nat
      with (sum_counts (take j r) + k)%nat by (unfold sum_counts; lia).
    by apply IH.
Qed.

Lemma stream_tags_lookup (streams : list (list R)) (j0 j k : nat)
  (t : list R) :
  streams !! j = Some t -> (k < length t)%nat ->
  stream_tags j0 streams !! (sum_counts (take j streams) + k)%nat
  = Some (j0 + j + 1)%nat.
Proof.
  revert j0 j. induction streams as [|t0 r IH]; intros j0 j Hj Hk; [done|].
  destruct j as [|j].
  - injection Hj as ->. cbn. rewrite lookup_app_l
      by (rewrite length_replicate; lia).
    rewrite lookup_replicate_2 by lia. f_equal. lia.
  - cbn in Hj. cbn [take sum_counts foldr stream_tags].
    rewrite lookup_app_r by (rewrite length_replicate; lia).
    rewrite length_replicate.
    replace (length t0 + foldr (fun t n => (length t + n)%nat) 0%nat
               (take j r) + k - length t0)%nat
      with (sum_counts (take j r) + k)%nat by (unfold sum_counts; lia).
    rewrite (IH (S j0) j) by done. f_equal. lia.
Qed.

(** The loop that copies [_global_n]. *)
Lemma copy_global_n (gn : list nat) (n : nat) :
  (n <= length gn)%nat ->
  for_range 0 n (fun k a => v ← rd gn k; wr a k v) (replicate n 0%nat)
  = Ok (take n gn).
Proof.
  intros Hn.
  destruct (for_range_inv
    (fun k (a : list nat) =>
       length a = n /\ forall c, (c < k)%nat -> a !! c = gn !! c)
    0 n (fun k a => v ← rd gn k; wr a k v) (replicate n 0%nat))
    as (a & Hr & L & E).
  - rewrite length_replicate. split; [done | intros; lia].
  - intros k a Hk [L E]. rewrite (rd_get 0%nat gn) by lia.
    rewrite bind_Ok. cbv beta. rewrite wr_lt by lia.
    eexists. split; [reflexivity|]. rewrite length_insert. split; [done|].
    intros c Hc. destruct (decide (c = k)) as [->|Hne].
    + rewrite list_lookup_insert_eq by lia. symmetry.
      apply lookup_get. lia.
    + rewrite list_lookup_insert_ne by done. apply E. lia.
  - rewrite Hr. f_equal. apply list_eq. intros c.
    rewrite lookup_take. case_decide.
    + apply E. lia.
    + apply lookup_ge_None. lia.
Qed.

Lemma copy_global_n_short (gn : list nat) (L : nat) :
  forall n start (a : list nat),
    length a = L -> (start + n <= L)%nat -> (start <= length gn)%nat ->
    (length gn < start + n)%nat ->
    for_range start n (fun k a => v ← rd gn k; wr a k v) a
    = Err OutOfBounds.
Proof.
  induction n as [|n IH]; intros start a La Hle Hst Hlt.
  - lia.
  - cbn [for_range]. destruct (decide (start < length gn)%nat) as [Hs|Hs].
    + rewrite (rd_get 0%nat gn) by done. rewrite bind_Ok. cbv beta.
      rewrite wr_lt by lia. rewrite bind_Ok.
      apply IH; [by rewrite length_insert | lia..].
    + rewrite rd_ge by lia. done.
Qed.

(** The two nested loops that lay the streams out, one after the
    other, behind the origin. *)
Lemma merge_streams (streams : list (list R)) :
  for_range 0 (length streams) (fun j s =>
    t_j ← rd streams j;
    n_j ← rd (map length streams) j;
    for_range 0 n_j (fun k '(count, gts, pre) =>
      v ← rd t_j k;
      gts ← wr gts count v;
      pre ← wr pre count (j + 1)%nat;
      Ok (S count, gts, pre)) s)
    (1%nat, zeros (sum_counts streams + 1),
     replicate (sum_counts streams + 1) 0%nat)
  = Ok (S (sum_counts streams), merged_input streams, merged_tags streams).
Proof.
  set (M := sum_counts streams).
  set (I := fun (n : nat) (s : nat * list R * list nat) =>
         s.1.1 = S n /\ length s.1.2 = (M + 1)%nat /\
         length s.2 = (M + 1)%nat /\
         forall c, (c <= n)%nat ->
           s.1.2 !! c = merged_input streams !! c /\
           s.2 !! c = merged_tags streams !! c).
  match goal with |- for_range 0 _ ?body ?s0 = _ =>
    destruct (for_range_inv
      (fun j s => I (sum_counts (take j streams)) s)
      0 (length streams) body s0) as ([[count gts] pre] & Hr & HI)
  end.
  - split; [done|]. cbn. rewrite length_zeros, length_replicate.
    split; [done|]. split; [done|]. intros c Hc.
    rewrite take_0 in Hc. cbn in Hc.
    assert (c = 0%nat) as -> by lia. cbn.
    unfold zeros. by replace (M + 1)%nat with (S M) by lia.
  - intros j s Hj HI.
    destruct (lookup_lt_is_Some_2 streams j ltac:(lia)) as [t_j Htj].
    rewrite (rd_lookup _ _ _ Htj). rewrite bind_Ok. cbv beta.
    rewrite (rd_lookup (map length streams) j (length t_j))
      by (by rewrite list_lookup_fmap, Htj).
    rewrite bind_Ok. cbv beta.
    pose proof (sum_counts_take_le streams (S j)) as Hle.
    rewrite (sum_counts_take_S _ _ _ Htj) in Hle.
    match goal with |- exists s', for_range 0 _ ?body _ = _ /\ _ =>
      destruct (for_range_inv
        (fun k s => I (sum_counts (take j streams) + k)%nat s)
        0 (length t_j) body s) as (s' & Hr' & HI')
    end.
    + by rewrite Nat.add_0_r.
    + intros k [[count gts] pre] Hk (Hc & Lg & Lp & E). cbn in Hc, Lg, Lp, E.
      subst count.
      destruct (lookup_lt_is_Some_2 t_j k ltac:(lia)) as [v Hv].
      cbv beta iota.
      rewrite (rd_lookup _ _ _ Hv). rewrite bind_Ok. cbv beta.
      rewrite (wr_lt gts) by (fold M in Hle; lia). rewrite bind_Ok. cbv beta.
      rewrite (wr_lt pre) by (fold M in Hle; lia). rewrite bind_Ok. cbv beta.
      eexists. split; [reflexivity|]. split; [cbn; lia|].
      cbn [fst snd]. rewrite !length_insert.
      split; [done|]. split; [done|]. intros c Hc.
      destruct (decide (c = S (sum_counts (take j streams) + k)))
        as [->|Hne].
      * rewrite !list_lookup_insert_eq by (fold M in Hle; lia).
        unfold merged_input, merged_tags. cbn [lookup list_lookup].
        rewrite (concat_lookup_stream _ _ _ _ Htj) by lia.
        rewrite (stream_tags_lookup _ 0 _ _ _ Htj) by lia. done.
      * rewrite !list_lookup_insert_ne by done. apply E. lia.
    + exists s'. split; [exact Hr'|].
      by rewrite (sum_counts_take_S _ _ _ Htj).
  - rewrite Hr. destruct HI as (Hc & Lg & Lp & E). cbn in Hc, Lg, Lp, E.
    rewrite firstn_all in Hc, E. fold M in Hc, E. subst count.
    f_equal. f_equal; [f_equal|].
    + apply list_eq. intros c. destruct (decide (c <= M)%nat).
      * by apply E.
      * rewrite (proj2 (lookup_ge_None gts c)) by lia. symmetry.
        apply lookup_ge_None. unfold merged_input. cbn.
        rewrite length_concat_streams. fold M. lia.
    + apply list_eq. intros c. destruct (decide (c <= M)%nat).
      * by apply E.
      * rewrite (proj2 (lookup_ge_None pre c)) by lia. symmetry.
        apply lookup_ge_None. unfold merged_tags. cbn.
        rewrite length_stream_tags. fold M. lia.
Qed.

(** X12. [set_data] reads [_global_n] at every index up to the number of
    events: with a shorter array the read is out of bounds. *)
Theorem set_data_needs_a_state_per_event
  (sort : list R -> list R * list nat) (m : model)
  (streams : list (list R)) (gn : list nat) (T : R) :
  (length gn < sum_counts streams + 1)%nat ->
  set_data sort m streams gn T = Err OutOfBounds.
Proof.
  intros Lgn. unfold set_data.
  cbn [n_total_jumps n_nodes timestamps n_jumps_per_node
       ModelHawkesSingle_set_data].
  rewrite (copy_global_n_short gn (sum_counts streams + 1));
    [done | by rewrite length_replicate | lia..].
Qed.

Lemma set_data_needs_a_state_per_event_witness :
  set_data example_sort (constructed [1] [0] 1) [[1]; []] [0]%nat 2
  = Err OutOfBounds.
Proof.
  apply (set_data_needs_a_state_per_event example_sort
           (constructed [1] [0] 1) [[1]; []] [0]%nat 2).
  cbn. lia.
Defined.

(** A property that every successful pass of the body keeps holds
    after a loop that returned. *)
Lemma for_range_Ok_inv {S} (P : S -> Prop) (n : nat) :
  forall (start : nat) (body : nat -> S -> result S) (s s' : S),
    (forall k s s', body k s = Ok s' -> P s -> P s') ->
    for_range start n body s = Ok s' -> P s -> P s'.
Proof.
  induction n as [|n IH]; intros start body s s' Hb Hr Hs.
  - cbn in Hr. by injection Hr as <-.
  - cbn [for_range] in Hr. apply bind_Ok_inv in Hr as (s1 & H1 & Hr).
    apply (IH _ _ _ _ Hb Hr). by apply (Hb _ _ _ H1).
Qed.

Lemma compute_weights_dim_i_sum_G i m m' :
  compute_weights_dim_i i m = Ok m' ->
  sum_G m' = sum_G m /\ n_nodes m' = n_nodes m /\
  weights_computed m' = weights_computed m.
Proof.
  unfold compute_weights_dim_i. intros H.
  repeat first
    [ apply bind_Ok_inv in H as (? & _ & H)
    | match type of H with
      | context [let '(_, _) := ?x in _] => destruct x
      end ].
  by injection H as <-.
Qed.

Lemma computed_sum_G_clear m :
  (compute_weights m).1 = Ok () -> sum_G_clear (compute_weights m).2.
Proof.
  unfold compute_weights, parallel_run.
  destruct (allocate_weights m) as [m1|e] eqn:Ha; [|done].
  assert (sum_G_clear m1) as H1.
  { unfold allocate_weights in Ha.
    destruct (decide (n_nodes m = 0%nat)); [done|].
    apply bind_Ok_inv in Ha as (nj & _ & Ha). injection Ha as <-.
    intros i sg Hi. cbn in Hi. apply lookup_replicate in Hi as [-> _].
    by rewrite length_zeros. }
  destruct (for_range 0 (n_nodes m1) compute_weights_dim_i m1) as [m2|e]
    eqn:Hl; [|done].
  intros _. cbn [snd]. change (sum_G_clear m2).
  apply (for_range_Ok_inv sum_G_clear _ _ _ _ _ (fun k s s' Hk Hs =>
           ltac:(unfold sum_G_clear;
                 by rewrite (proj1 (compute_weights_dim_i_sum_G k s s' Hk))))
           Hl H1).
Qed.

Lemma loss_dim_i_clear aidx i coeffs m :
  sum_G_clear m -> (loss_dim_i aidx i coeffs m).2 = m.
Proof.
  intros Hm.
  destruct (loss_dim_i_state aidx i coeffs m) as [->|(sg & Hsg & ->)];
    [done|].
  rewrite <- (Hm i sg Hsg). rewrite (list_insert_id _ _ _ Hsg).
  apply with_sum_G_id.
Qed.

Lemma reduce_clear aidx coeffs (n : nat) : forall start acc m,
  sum_G_clear m ->
  (parallel_map_additive_reduce start n
     (fun i => loss_dim_i aidx i coeffs) acc m).2 = m.
Proof.
  induction n as [|n IH]; intros start acc m Hm; [done|].
  cbn [parallel_map_additive_reduce].
  pose proof (loss_dim_i_clear aidx start coeffs m Hm) as Hst.
  destruct (loss_dim_i aidx start coeffs m) as [[v|e] m1]; cbn in Hst;
    subst m1; [by apply IH | done].
Qed.

(** X10. [loss] and [grad] change nothing in the model but the weight
    cache they fill on the first call: on a model whose weights are
    not computed, the model after [loss], and after [grad], is the
    model that [compute_weights] leaves, whether the call returns a
    value or raises. The reset of [sum_G] in [loss_dim_i] rewrites
    zeros: nothing ever accumulates in [sum_G]. *)
Theorem loss_and_grad_only_fill_the_cache
  (aidx : nat -> nat -> nat -> nat -> nat -> nat) (coeffs out : list R)
  (m : model) :
  weights_computed m = false ->
  (loss aidx coeffs m).2 = (compute_weights m).2 /\
  (grad aidx coeffs out m).2 = (compute_weights m).2 /\
  ((compute_weights m).1 = Ok () -> sum_G_clear (compute_weights m).2).
Proof.
  intros Hw.
  assert (ensure_weights m = compute_weights m) as He
    by (unfold ensure_weights; by rewrite Hw).
  split; [|split].
  - unfold loss. rewrite He.
    pose proof (computed_sum_G_clear m) as Hclear.
    destruct (compute_weights m) as [[[]|e] m1]; [|done].
    cbn [fst snd] in *.
    pose proof (reduce_clear aidx coeffs (n_nodes m1) 0 0 m1
                  (Hclear eq_refl)) as Hst.
    destruct (parallel_map_additive_reduce 0 (n_nodes m1)
                (fun i => loss_dim_i aidx i coeffs) 0 m1) as [[l|e] m2];
      cbn in Hst; by subst m2.
  - unfold grad. rewrite He.
    by destruct (compute_weights m) as [[[]|e] m1].
  - apply computed_sum_G_clear.
Qed.

Lemma loss_and_grad_only_fill_the_cache_witness :
  (loss example_alpha_index [1; 0; 1] ex_one).2 = (compute_weights ex_one).2 /\
  (grad example_alpha_index [1; 0; 1] [0; 0; 0] ex_one).2
  = (compute_weights ex_one).2 /\
  ((compute_weights ex_one).1 = Ok () ->
   sum_G_clear (compute_weights ex_one).2).
Proof.
  exact (loss_and_grad_only_fill_the_cache example_alpha_index [1; 0; 1]
           [0; 0; 0] ex_one eq_refl).
Defined.

Section SharedBuffer.
Variable m : model.
Variables i u j : nat.
Variables decay lag : R.
Hypothesis Hi : i <> 0%nat.

Lemma scan_keeps_g k t_k fuel : forall last g_i G_i last' g' G',
  scan m i u j decay lag k t_k fuel last (g_i, G_i) = Ok (last', (g', G')) ->
  g' = g_i.
Proof.
  induction fuel as [|fuel IH]; intros last g_i G_i last' g' G' H.
  all: cbn [scan] in H.
  all: apply bind_Ok_inv in H as (ts_l & _ & H).
  all: destruct (Rlt_dec ts_l (t_k - lag)); [|by injection H as _ <- _].
  all: apply bind_Ok_inv in H as (ty & _ & H).
  all: apply bind_Ok_inv in H as ([g1 G1] & Hf & H).
  all: assert (g1 = g_i) as ->.
  1,3: destruct (decide (ty = (j + 1)%nat)); [|by injection Hf as <- _];
       unfold fold_event in Hf; rewrite decide_False in Hf by done;
       rewrite bind_Ok in Hf; apply bind_Ok_inv in Hf as (? & _ & Hf);
       by injection Hf as <- _.
  all: destruct (decide (n_total_jumps m < S last)%nat);
    [by injection H as _ <- _|].
  - done.
  - by apply IH in H.
Qed.

Lemma kernel_step_keeps_g k last g_i G_i last' g' G' :
  kernel_step m i u j decay lag k (last, (g_i, G_i)) = Ok (last', (g', G')) ->
  g' = g_i.
Proof.
  unfold kernel_step. intros H.
  apply bind_Ok_inv in H as (t_k & _ & H).
  apply bind_Ok_inv in H as (t_prev & _ & H).
  apply bind_Ok_inv in H as (g_prev & _ & H).
  apply bind_Ok_inv in H as (G1 & _ & H).
  rewrite decide_False in H by done. rewrite bind_Ok in H.
  by apply scan_keeps_g in H.
Qed.

Lemma kernel_column_keeps_g g_i G_i g' G' :
  kernel_column m i u j decay lag (g_i, G_i) = Ok (g', G') -> g' = g_i.
Proof.
  unfold kernel_column. intros H.
  apply bind_Ok_inv in H as ([last [g1 G1]] & Hl & H).
  injection H as <- <-.
  apply (for_range_Ok_inv (fun s : nat * bufs => s.2.1 = g_i) _ _ _ _ _
           (fun k s s' =>
              match s, s' with
              | (l, (a, b)), (l', (a', b')) => fun Hk Hs =>
                eq_trans (kernel_step_keeps_g k l a b l' a' b' Hk) Hs
              end) Hl eq_refl).
Qed.
End SharedBuffer.

Lemma kernel_weights_keeps_g m i g_i G_i g' G' :
  i <> 0%nat ->
  kernel_weights m i (g_i, G_i) = Ok (g', G') -> g' = g_i.
Proof.
  intros Hi H. unfold kernel_weights in H.
  apply (for_range_Ok_inv (fun b : bufs => b.1 = g_i) _ _ _ _ _) in H;
    [done| |done].
  intros u b b' Hu Hb.
  apply bind_Ok_inv in Hu as (decay & _ & Hu).
  apply bind_Ok_inv in Hu as (lag & _ & Hu).
  apply (for_range_Ok_inv (fun b : bufs => b.1 = g_i) _ _ _ _ _) in Hu;
    [done| |done].
  intros j [a1 a2] [b1 b2] Hj Ha. cbn in *. subst a1.
  by apply (kernel_column_keeps_g m i u j decay lag Hi) in Hj.
Qed.

(** X2. Only the task of dimension 0 writes the shared buffer [g]: the
    task of any other dimension that returns leaves [g] as it found
    it, and, like every task, leaves the buffers [G], [H1], [H2] and
    [H3] of the other dimensions and the bound data as they were. *)
Theorem only_task_0_writes_g (i : nat) (m m' : model) :
  i <> 0%nat -> compute_weights_dim_i i m = Ok m' ->
  g m' = g m /\ data_eq m m' /\
  forall i', i' <> i ->
    G m' !! i' = G m !! i' /\ H1 m' !! i' = H1 m !! i' /\
    H2 m' !! i' = H2 m !! i' /\ H3 m' !! i' = H3 m !! i'.
Proof.
  intros Hi H. unfold compute_weights_dim_i in H.
  apply bind_Ok_inv in H as (g0 & Hg0 & H).
  apply bind_Ok_inv in H as (G0 & _ & H).
  apply bind_Ok_inv in H as ([g1 G1] & Hk & H).
  apply (kernel_weights_keeps_g m i _ _ _ _ Hi) in Hk. subst g1.
  repeat first
    [ apply bind_Ok_inv in H as (? & _ & H)
    | match type of H with
      | context [let '(_, _) := ?x in _] => destruct x
      end ].
  injection H as <-. cbn. split.
  - apply list_insert_id. by apply rd_Ok_inv.
  - split; [by repeat split|]. intros i' Hne.
    by rewrite !list_lookup_insert_ne by done.
Qed.

Lemma only_task_0_writes_g_witness :
  exists m1,
    allocate_weights ex_two = Ok m1 /\
    exists m', compute_weights_dim_i 1 m1 = Ok m' /\ g m' = g m1.
Proof.
  eexists. split; [reflexivity|].
  match goal with |- exists m', compute_weights_dim_i 1 ?m1 = _ /\ _ =>
    assert (valid_data m1) as Hv1
      by (apply (valid_data_eq ex_two); [by repeat split | apply ex_two_valid]);
    destruct (compute_weights_dim_i_spec m1 1 (zeros 8) (zeros 8) Hv1)
      as (g' & G' & h1 & h2 & h3 & Hc & _); [cbn; lia | done..|]
  end.
  eexists. split; [exact Hc|].
  match type of Hc with compute_weights_dim_i 1 ?m1 = Ok ?m' =>
    exact (proj1 (only_task_0_writes_g 1 m1 m' ltac:(lia) Hc))
  end.
Defined.

Lemma Rsum_by_state_weighted (S : nat) (l : list nat) (c : nat -> nat)
  (x w : nat -> R) :
  (forall k, k ∈ l -> (c k < S)%nat) ->
  Rsum (seq 0 S) (fun n =>
    Rsum l (fun k => if decide (c k = n) then x k else 0) * w n)
  = Rsum l (fun k => x k * w (c k)).
Proof.
  intros Hc. rewrite <- (Rsum_by_state S l c (fun k => x k * w (c k)) Hc).
  apply Rsum_ext. intros n _. rewrite Rsum_scale. apply Rsum_ext.
  intros k _. case_decide; [by subst | lra].
Qed.

Lemma Rsum_nonneg (l : list nat) (f : nat -> R) :
  (forall e, e ∈ l -> 0 <= f e) -> 0 <= Rsum l f.
Proof.
  unfold Rsum. induction l as [|e l IH]; intros Hf; simpl; [lra|].
  pose proof (Hf e ltac:(by left)).
  pose proof (IH (fun e' He' => Hf e' ltac:(by right))). lra.
Qed.

Lemma g_rec_nonneg (m : model) (gb : list R) :
  g_zero m gb -> g_rec m gb ->
  forall u j k, (u < length (decays m))%nat -> (j < n_nodes m)%nat ->
    0 <= decay_of m u -> (k <= n_total_jumps m + 1)%nat ->
    0 <= get 0 gb (get_index m k j u).
Proof.
  intros Hz Hrec u j k Hu Hj Hd.
  induction k as [|k IH]; intros Hk.
  - rewrite Hz by done. lra.
  - rewrite (Hrec u j (S k) Hu Hj ltac:(lia)).
    replace (S k - 1)%nat with k by lia.
    specialize (IH ltac:(lia)).
    assert (0 < ebt m (decay_of m u) (S k)) by apply exp_pos.
    assert (0 <= fold_sum m j (lag_of m u) (S k) (g_contrib (decay_of m u))).
    { apply Rsum_nonneg. intros e _. case_decide; [|lra].
      unfold g_contrib.
      pose proof (exp_pos (- decay_of m u
                           * (tm m (S k) - lag_of m u - tsf m e))). nra. }
    nra.
Qed.

(** X8. A sufficient condition for [loss] to return: with decays that
    are not negative, baselines [mu_i] that are positive and
    [alpha_{u,i,j}] that are not negative, every [g] is non-negative,
    the intensity is at least [mu_i] at every event, and [loss] does
    not raise the domain error. *)
Theorem positive_coefficients_never_raise
  (aidx : nat -> nat -> nat -> nat -> nat -> nat) (coeffs : list R)
  (m : model) :
  ready m -> alpha_layout aidx m -> length coeffs = get_n_coeffs m ->
  (forall u, (u < length (decays m))%nat -> 0 <= decay_of m u) ->
  (forall i, (i < n_nodes m)%nat -> 0 < mu_of coeffs i) ->
  (forall u i j, (u < length (decays m))%nat -> (i < n_nodes m)%nat ->
     (j < n_nodes m)%nat -> 0 <= alpha_of aidx m coeffs u i j) ->
  (forall i k, (i < n_nodes m)%nat -> (k <= n_total_jumps m + 1)%nat ->
     mu_of coeffs i <= intensity_spec aidx (cached m) coeffs i k) /\
  (loss aidx coeffs m).1 = Ok (loss_spec aidx (cached m) coeffs).
Proof.
  intros Hr Hlay Hlen Hdec Hmu Halpha.
  destruct (cached_ok m Hr) as (_ & Hd & Hv & Hc & _).
  destruct (data_eq_funs _ _ Hd)
    as (_ & _ & _ & _ & _ & _ & _ & _ & Hdo & _).
  assert (n_nodes (cached m) = n_nodes m) as HD by apply Hd.
  assert (n_total_jumps (cached m) = n_total_jumps m) as HM by apply Hd.
  assert (decays (cached m) = decays m) as HU by apply Hd.
  assert (forall i k, (i < n_nodes m)%nat -> (k <= n_total_jumps m + 1)%nat ->
            mu_of coeffs i <= intensity_spec aidx (cached m) coeffs i k)
    as Hint.
  { intros i k Hi Hk. unfold intensity_spec.
    assert (0 <= Rsum (seq 0 (n_nodes (cached m))) (fun j =>
                   Rsum (seq 0 (length (decays (cached m)))) (fun u =>
                     alpha_of aidx (cached m) coeffs u i j
                     * gv (cached m) k j u))); [|lra].
    apply Rsum_nonneg. intros j Hj%elem_of_seq.
    apply Rsum_nonneg. intros u Hu%elem_of_seq.
    rewrite HD in Hj. rewrite HU in Hu.
    apply Rmult_le_pos.
    - unfold alpha_of, get_alpha_u_i_j_index, get_n_decays.
      rewrite HD, HU. apply (Halpha u i j); lia.
    - unfold gv. apply (g_rec_nonneg _ _ (co_g_zero _ Hc) (co_g_rec _ Hc));
        [rewrite HU; lia | lia | | lia].
      rewrite Hdo. apply Hdec. lia. }
  split; [exact Hint|].
  destruct (loss_cases aidx coeffs m Hr Hlay Hlen)
    as [[_ Hl]|[(i & k & Hi & Hk & _ & Hle) _]]; [done|].
  exfalso. pose proof (Hint i k Hi ltac:(lia)). pose proof (Hmu i Hi). lra.
Qed.

Lemma positive_coefficients_never_raise_witness :
  (forall i k, (i < n_nodes ex_two)%nat ->
     (k <= n_total_jumps ex_two + 1)%nat ->
     mu_of [1; 1; 0; 0; 0; 0; 1; 1; 1; 1] i
     <= intensity_spec example_alpha_index (cached ex_two)
          [1; 1; 0; 0; 0; 0; 1; 1; 1; 1] i k) /\
  (loss example_alpha_index [1; 1; 0; 0; 0; 0; 1; 1; 1; 1] ex_two).1
  = Ok (loss_spec example_alpha_index (cached ex_two)
          [1; 1; 0; 0; 0; 0; 1; 1; 1; 1]).
Proof.
  apply (positive_coefficients_never_raise example_alpha_index
           [1; 1; 0; 0; 0; 0; 1; 1; 1; 1] ex_two
           (fresh_ready _ ex_two_valid eq_refl)
           (example_alpha_layout ex_two) eq_refl).
  - intros u Hu. cbn in Hu. assert (u = 0%nat) as -> by lia.
    unfold decay_of, get. cbn. lra.
  - intros i Hi. cbn in Hi. unfold mu_of, get.
    small_index i; cbn; lra.
  - intros u i j Hu Hi Hj. cbn in Hu, Hi, Hj.
    assert (u = 0%nat) as -> by lia.
    unfold alpha_of, get_alpha_u_i_j_index, example_alpha_index, get.
    small_index i; small_index j; cbn; lra.
Defined.

Lemma example_sort_01_sorts : sorts_with_index example_sort [0; 1].
Proof.
  unfold sorts_with_index. rewrite example_sort_01. cbn.
  split; [done|]. split; [done|]. split.
  - intros k Hk. small_index k; cbn; lia.
  - intros i j Hij. small_index i; small_index j; unfold get; cbn; lra.
Qed.

Lemma run_tasks_inv (P : list nat -> model -> Prop) (order : list nat)
  (m : model) :
  P [] m ->
  (forall done i rest s, order = done ++ i :: rest -> P done s ->
     exists s', compute_weights_dim_i i s = Ok s' /\ P (done ++ [i]) s') ->
  exists s', run_tasks order m = Ok s' /\ P order s'.
Proof.
  intros H0 Hstep.
  assert (forall rest done s, order = done ++ rest -> P done s ->
            exists s', run_tasks rest s = Ok s' /\ P order s') as Hgen.
  { induction rest as [|i rest IH]; intros done s Ho Hs.
    - rewrite app_nil_r in Ho. subst done. by exists s.
    - destruct (Hstep done i rest s Ho Hs) as (s1 & Hc & H1).
      cbn [run_tasks]. rewrite Hc, bind_Ok.
      apply (IH (done ++ [i])); [|done]. by rewrite <- app_assoc. }
  by apply (Hgen order []).
Qed.

(** The schedule of [parallel_run] is one of them. *)
Lemma run_tasks_seq (n : nat) : forall start m,
  run_tasks (seq start n) m = for_range start n compute_weights_dim_i m.
Proof.
  induction n as [|n IH]; intros start m; [done|].
  cbn [seq run_tasks for_range]. destruct (compute_weights_dim_i start m);
    [|done]. rewrite !bind_Ok. apply IH.
Qed.

Lemma seq_task_0_first (D : nat) : (1 <= D)%nat -> task_0_first D (seq 0 D).
Proof.
  intros HD. split; [|done]. destruct D as [|D]; [lia|]. by eexists.
Qed.

Lemma run_tasks_cache (m m1 : model) (order : list nat) :
  valid_data m -> allocate_weights m = Ok m1 ->
  task_0_first (n_nodes m) order ->
  exists m2, run_tasks order m1 = Ok m2 /\ data_eq m m2 /\ cache_ok m2.
Proof.
  intros Hv Ha [[rest0 Hhead] Hperm].
  pose proof (vd_nodes m Hv) as HD.
  unfold allocate_weights in Ha. rewrite decide_False in Ha by lia.
  rewrite (rd_get 0%nat) in Ha by (apply (vd_counts m Hv)).
  rewrite bind_Ok in Ha. cbv beta zeta in Ha. injection Ha as <-.
  match goal with |- context [run_tasks order ?x] => set (m1 := x) end.
  assert (data_eq m m1) as Hd1 by (by repeat split).
  pose proof (valid_data_eq m m1 Hd1 Hv) as Hv1.
  assert (NoDup order) as Hnd by (rewrite Hperm; apply NoDup_seq).
  assert (forall i, i ∈ order <-> (i < n_nodes m)%nat) as Hin.
  { intros i. rewrite Hperm, elem_of_seq. lia. }
  destruct (run_tasks_inv
    (fun done m' =>
       exists gs Gs h1s h2s h3s gb,
         m' = with_cache m1 gs Gs h1s h2s h3s /\
         length Gs = n_nodes m /\ length h1s = n_nodes m /\
         length h2s = n_nodes m /\ length h3s = n_nodes m /\
         gs !! 0%nat = Some gb /\ length gb = cells m /\ g_zero m gb /\
         (0%nat ∈ done -> g_rec m gb) /\
         forall i, (i < n_nodes m)%nat ->
           exists Gb h1 h2 h3,
             Gs !! i = Some Gb /\ h1s !! i = Some h1 /\ h2s !! i = Some h2 /\
             h3s !! i = Some h3 /\ length Gb = cells m /\
             (i ∈ done -> G_rec m gb Gb /\ stats_ok m i Gb h1 h2 h3) /\
             (i ∉ done ->
                h1 = zeros (MaxN_of_f m) /\ h2 = zeros (MaxN_of_f m) /\
                h3 = zeros (MaxN_of_f m * length (decays m))))
    order m1)
    as (m2 & Hloop & gs & Gs & h1s & h2s & h3s & gb & -> & LG & L1 & L2 & L3
        & Hgb & Lgb & Hz & Hrec & Hall).
  - exists (g m1), (G m1), (H1 m1), (H2 m1), (H3 m1), (zeros (cells m)).
    subst m1. cbn [g G H1 H2 H3].
    split; [done|]. rewrite !length_replicate.
    split; [done|]. split; [done|]. split; [done|]. split; [done|].
    split.
    { rewrite list_lookup_insert_eq; [done|]. rewrite length_replicate. lia. }
    split; [apply length_zeros|]. split.
    { intros u j _ _. apply get_zeros. }
    split; [by intros ?%elem_of_nil|]. intros i Hi.
    exists (zeros (cells m)), (zeros (MaxN_of_f m)), (zeros (MaxN_of_f m)),
      (zeros (MaxN_of_f m * length (decays m))).
    rewrite !lookup_replicate_2 by done.
    split; [done|]. split; [done|]. split; [done|]. split; [done|].
    split; [apply length_zeros|]. split; [by intros ?%elem_of_nil | done].
  - intros done n rest m' Ho
      (gs & Gs & h1s & h2s & h3s & gb & -> & LG & L1 & L2 & L3
       & Hgb & Lgb & Hz & Hrec & Hall).
    assert (n < n_nodes m)%nat as Hn.
    { apply Hin. rewrite Ho. apply elem_of_app. right. by left. }
    assert (n ∉ done) as Hnew.
    { rewrite Ho in Hnd. apply NoDup_app in Hnd as (_ & Hdis & _).
      intros Hc. apply (Hdis n Hc). by left. }
    assert (done <> [] -> 0%nat ∈ done /\ n <> 0%nat) as Hlater.
    { intros Hne. destruct done as [|d done']; [done|].
      rewrite Hhead in Ho. injection Ho as <- _.
      split; [by left|]. intros ->. apply Hnew. by left. }
    assert (done = [] -> n = 0%nat) as Hfirst.
    { intros ->. rewrite Hhead in Ho. by injection Ho as <- _. }
    destruct (Hall n Hn)
      as (Gb & h1 & h2 & h3 & HGb & Hh1 & Hh2 & Hh3 & LGb & _ & Hzero).
    destruct (Hzero Hnew) as (-> & -> & ->).
    destruct (compute_weights_dim_i_spec
                (with_cache m1 gs Gs h1s h2s h3s) n gb Gb)
      as (g' & G' & h1' & h2' & h3' & Hc & Lg' & LG' & HGr & Hgr & Hn0 & Hfr
          & Hst); try done.
    { apply (valid_data_eq m); [by repeat split | done]. }
    eexists. split; [exact Hc|].
    exists (<[0%nat := g']> gs), (<[n := G']> Gs), (<[n := h1']> h1s),
      (<[n := h2']> h2s), (<[n := h3']> h3s), g'.
    split; [done|]. rewrite !length_insert.
    split; [done|]. split; [done|]. split; [done|]. split; [done|].
    split.
    { apply list_lookup_insert_eq. by apply lookup_lt_Some in Hgb. }
    split; [done|]. split.
    { intros u j Hu Hj. rewrite Hfr; [by apply Hz|].
      intros k j' u' Hk Hj' Hu' Heq.
      destruct (get_index_inj m 0 j u k j' u' Hj Hu Hj' Hu' Heq). lia. }
    split.
    { intros H0. destruct (decide (n = 0%nat)) as [->|Hne].
      - by apply Hgr.
      - rewrite Hn0 by done. apply Hrec.
        apply elem_of_app in H0 as [?|?%list_elem_of_singleton]; done. }
    intros i Hi. destruct (decide (i = n)) as [->|Hne].
    + exists G', h1', h2', h3'.
      rewrite !list_lookup_insert_eq by lia.
      split; [done|]. split; [done|]. split; [done|]. split; [done|].
      split; [done|]. split.
      * intros _. done.
      * intros Hc'. exfalso. apply Hc'. apply elem_of_app. right. by left.
    + destruct (Hall i Hi)
        as (Gb' & k1 & k2 & k3 & HGb' & Hk1 & Hk2 & Hk3 & LGb' & Hlt & Hge).
      exists Gb', k1, k2, k3.
      rewrite !list_lookup_insert_ne by done.
      split; [done|]. split; [done|]. split; [done|]. split; [done|].
      split; [done|]. split.
      * intros Hin'.
        apply elem_of_app in Hin' as [Hd|?%list_elem_of_singleton]; [|done].
        destruct (Hlater ltac:(by intros ->; apply elem_of_nil in Hd))
          as [_ Hn0'].
        rewrite Hn0 by done. by apply Hlt.
      * intros Hnin. apply Hge. intros Hd. apply Hnin.
        apply elem_of_app. by left.
  - assert (forall i, (i < n_nodes m)%nat ->
              exists Gb h1 h2 h3,
                Gs !! i = Some Gb /\ h1s !! i = Some h1 /\
                h2s !! i = Some h2 /\ h3s !! i = Some h3 /\
                length Gb = cells m /\ G_rec m gb Gb /\
                stats_ok m i Gb h1 h2 h3) as Hall'.
    { intros i Hi. destruct (Hall i Hi)
        as (Gb & h1 & h2 & h3 & ? & ? & ? & ? & ? & Hlt & _).
      destruct (Hlt (proj2 (Hin i) Hi)). by exists Gb, h1, h2, h3. }
    assert (g_rec m gb) as Hrec'.
    { apply Hrec. apply Hin. lia. }
    eexists. split; [exact Hloop|]. split; [by repeat split|].
    constructor; cbn.
    + by apply lookup_lt_Some in Hgb.
    + unfold g_buf. cbn. by rewrite (get_lookup _ _ _ _ Hgb).
    + unfold g_buf. cbn. by rewrite (get_lookup _ _ _ _ Hgb).
    + unfold g_buf. cbn. by rewrite (get_lookup _ _ _ _ Hgb).
    + done.
    + by rewrite length_replicate.
    + done.
    + done.
    + done.
    + intros i Hi. destruct (Hall' i Hi)
        as (Gb & h1 & h2 & h3 & H1' & H2' & H3' & H4' & ? & ? & ?).
      unfold G_buf, g_buf. cbn.
      rewrite (get_lookup _ _ _ _ Hgb), (get_lookup _ _ _ _ H1'). done.
    + intros i Hi. destruct (Hall' i Hi)
        as (Gb & h1 & h2 & h3 & H1' & H2' & H3' & H4' & ? & ? & ?).
      unfold G_buf, H1_buf, H2_buf, H3_buf. cbn.
      rewrite (get_lookup _ _ _ _ H1'), (get_lookup _ _ _ _ H2'),
        (get_lookup _ _ _ _ H3'), (get_lookup _ _ _ _ H4'). done.
    + done.
Qed.

Lemma scheduled_cache (m : model) (order : list nat) :
  valid_data m -> task_0_first (n_nodes m) order ->
  exists m1 m2,
    allocate_weights m = Ok m1 /\ run_tasks order m1 = Ok m2 /\
    data_eq m m2 /\ valid_data m2 /\ cache_ok m2.
Proof.
  intros Hv Ho.
  assert (exists m1, allocate_weights m = Ok m1) as [m1 Ha].
  { unfold allocate_weights. pose proof (vd_nodes m Hv).
    rewrite decide_False by lia.
    rewrite (rd_get 0%nat) by (apply (vd_counts m Hv)).
    rewrite bind_Ok. by eexists. }
  destruct (run_tasks_cache m m1 order Hv Ha Ho) as (m2 & Hr & Hd & Hc).
  exists m1, m2. split; [done|]. split; [done|]. split; [done|].
  split; [by apply (valid_data_eq m)|done].
Qed.

(** X3. When the tasks of the weight pass run one at a time and the
    task of dimension 0 runs first (the order of the other tasks does
    not matter), every task computes the same [G] and the same [H2]:
    the cells of [G[i]] at the steps [1 .. M + 1] and the entries of
    [H2[i]] do not depend on the dimension [i]. A task [i <> 0] reads
    the [g] that task 0 writes, so the order is a hypothesis. *)
Theorem G_and_H2_shared_when_task_0_first (m : model) (order : list nat)
  (i i' : nat) :
  valid_data m -> task_0_first (n_nodes m) order ->
  (i < n_nodes m)%nat -> (i' < n_nodes m)%nat ->
  exists m1 m2,
    allocate_weights m = Ok m1 /\ run_tasks order m1 = Ok m2 /\
    (forall k j u, (1 <= k <= n_total_jumps m + 1)%nat ->
       (j < n_nodes m)%nat -> (u < length (decays m))%nat ->
       Gv m2 i k j u = Gv m2 i' k j u) /\
    (forall n, H2v m2 i n = H2v m2 i' n).
Proof.
  intros Hv Ho Hi Hi'.
  destruct (scheduled_cache m order Hv Ho)
    as (m1 & m2 & Ha & Hr & Hd & _ & Hok).
  exists m1, m2. split; [done|]. split; [done|].
  assert (n_nodes m2 = n_nodes m) as HD by apply Hd.
  assert (n_total_jumps m2 = n_total_jumps m) as HM by apply Hd.
  assert (decays m2 = decays m) as HU by apply Hd.
  split.
  - intros k j u Hk Hj Hu. unfold Gv.
    destruct (co_G _ Hok i ltac:(lia)) as [_ Hg].
    destruct (co_G _ Hok i' ltac:(lia)) as [_ Hg'].
    rewrite Hg, Hg'; [done|rewrite ?HU, ?HD, ?HM; lia..].
  - intros n. unfold H2v.
    destruct (co_stats _ Hok i ltac:(lia)) as (_ & _ & _ & _ & H2a & _).
    destruct (co_stats _ Hok i' ltac:(lia)) as (_ & _ & _ & _ & H2b & _).
    by rewrite H2a, H2b.
Qed.

(** X5. When the tasks of the weight pass run one at a time and the
    task of dimension 0 runs first, for every dimension [i], every
    kernel [u] with a decay that is not zero, every source node [j]
    and every step [k] from 1 to [M + 1], the cell [G_i(k, j, u)] is
    the integral over the interval [(t_{k-1}, t_k]] of the lagged
    kernels of the events of node [j]: an event [e] with
    [t_e < t_k - lag_u] adds
    [exp (- decay_u * (t_{k-1} - lag_u - t_e))
     - exp (- decay_u * (t_k - lag_u - t_e))] if it was already
    eligible at step [k - 1], and
    [1 - exp (- decay_u * (t_k - lag_u - t_e))] if it becomes eligible
    at step [k]; the end time is not before the last event. *)
Theorem G_is_the_lagged_integral_when_task_0_first (m : model)
  (order : list nat) (i u j k : nat) :
  valid_data m -> task_0_first (n_nodes m) order ->
  tsf m (n_total_jumps m) <= end_time m ->
  (i < n_nodes m)%nat -> (u < length (decays m))%nat ->
  (j < n_nodes m)%nat -> (1 <= k <= n_total_jumps m + 1)%nat ->
  decay_of m u <> 0 ->
  exists m1 m2,
    allocate_weights m = Ok m1 /\ run_tasks order m1 = Ok m2 /\
    Gv m2 i k j u = lagged_integral m (decay_of m u) (lag_of m u) j k.
Proof.
  intros Hv Ho HT Hi Hu Hj Hk Hd0.
  destruct (scheduled_cache m order Hv Ho)
    as (m1 & m2 & Ha & Hr & Hd & Hv' & Hok).
  exists m1, m2. split; [done|]. split; [done|].
  destruct (data_eq_funs _ _ Hd)
    as (Hts & _ & _ & _ & _ & _ & _ & _ & Hdec & Hlag & _).
  assert (n_nodes m2 = n_nodes m) as HD by apply Hd.
  assert (n_total_jumps m2 = n_total_jumps m) as HM by apply Hd.
  assert (decays m2 = decays m) as HU by apply Hd.
  assert (end_time m2 = end_time m) as HE by apply Hd.
  destruct (co_G _ Hok i ltac:(lia)) as [_ HG].
  unfold Gv.
  rewrite (G_rec_lagged m2 (g_buf m2) (G_buf m2 i) Hv'
             ltac:(rewrite Hts, HM, HE; exact HT)
             (co_g_zero _ Hok) (co_g_rec _ Hok) HG u j k
             ltac:(rewrite HU; lia) ltac:(lia) ltac:(lia)
             ltac:(by rewrite Hdec)).
  rewrite Hdec, Hlag. by rewrite (proj2 (lagged_eq m m2 Hd)).
Qed.

Lemma compensators_of_cache
  (aidx : nat -> nat -> nat -> nat -> nat -> nat) (coeffs : list R)
  (m1 : model) (i : nat) :
  valid_data m1 -> cache_ok m1 -> (i < n_nodes m1)%nat ->
  term_C m1 coeffs i =
    mu_of coeffs i
    * Rsum (seq 0 (MaxN_of_f m1)) (fun n =>
        H2v m1 i n * f_of m1 coeffs i n) /\
  term_D aidx m1 coeffs i =
    Rsum (seq 0 (n_nodes m1)) (fun j =>
      Rsum (seq 0 (length (decays m1))) (fun u =>
        alpha_of aidx m1 coeffs u i j
        * Rsum (seq 0 (MaxN_of_f m1)) (fun n =>
            H3v m1 j n u * f_of m1 coeffs i n))).
Proof.
  intros Hv Hc Hi.
  assert (forall k, k ∈ seq 1 (n_total_jumps m1 + 1) ->
            (gnf m1 (k - 1) < MaxN_of_f m1)%nat) as Hst.
  { intros k Hk%elem_of_seq. apply (vd_states m1 Hv). lia. }
  split.
  - destruct (co_stats _ Hc i ltac:(lia)) as (_ & _ & _ & _ & E2 & _).
    rewrite (Rsum_ext (seq 0 (MaxN_of_f m1)) _ (fun n =>
               Rsum (seq 1 (n_total_jumps m1 + 1)) (fun k =>
                 if decide (gnf m1 (k - 1) = n)
                 then - (tm m1 k - tsf m1 (k - 1)) else 0)
               * f_of m1 coeffs i n)).
    2:{ intros n _. unfold H2v. rewrite E2. unfold H2_spec.
        rewrite <- Rsum_opp. f_equal. apply Rsum_ext. intros k _.
        case_decide; lra. }
    rewrite (Rsum_by_state_weighted _ _ (fun k => gnf m1 (k - 1))) by done.
    unfold term_C. rewrite <- Rsum_opp, <- (Rmult_comm _ (mu_of coeffs i)).
    rewrite Rsum_scale. apply Rsum_ext. intros k _. lra.
  - unfold term_D. rewrite <- Rsum_opp. apply Rsum_ext.
    intros j Hj%elem_of_seq. rewrite <- Rsum_opp. apply Rsum_ext.
    intros u Hu%elem_of_seq.
    destruct (co_stats _ Hc j ltac:(lia)) as (_ & _ & _ & _ & _ & E3).
    destruct (co_G _ Hc i ltac:(lia)) as [_ Gi].
    destruct (co_G _ Hc j ltac:(lia)) as [_ Gj].
    rewrite (Rsum_ext (seq 0 (MaxN_of_f m1)) _ (fun n =>
               Rsum (seq 1 (n_total_jumps m1 + 1)) (fun k =>
                 if decide (gnf m1 (k - 1) = n)
                 then - Gv m1 i k j u else 0)
               * f_of m1 coeffs i n)).
    2:{ intros n Hn%elem_of_seq. unfold H3v.
        rewrite E3 by lia. unfold H3_spec.
        rewrite <- Rsum_opp. f_equal. apply Rsum_ext.
        intros k Hk%elem_of_seq. case_decide; [|lra].
        unfold Gv. rewrite Gi, Gj by lia. done. }
    rewrite (Rsum_by_state_weighted _ _ (fun k => gnf m1 (k - 1))) by done.
    rewrite (Rsum_ext _
               (fun k => - Gv m1 i k j u * f_of m1 coeffs i (gnf m1 (k - 1)))
               (fun k =>
                  - (Gv m1 i k j u * f_of m1 coeffs i (gnf m1 (k - 1)))))
      by (intros; lra).
    rewrite Rsum_opp. lra.
Qed.

(** X7. When the tasks of the weight pass run one at a time and the
    task of dimension 0 runs first, the two compensators of the loss
    are the statistics of the gradient weighted by the link-function
    table: the baseline compensator [C] of dimension [i] is
    [mu_i * sum_n H2_i[n] * f_i[n]], and the interaction compensator
    [D] is [sum_j sum_u alpha_{u,i,j} * sum_n H3_j[n,u] * f_i[n]]. The
    second identity takes [G_i] and [G_j] to agree, which is why the
    order is a hypothesis. *)
Theorem compensators_from_statistics_when_task_0_first
  (aidx : nat -> nat -> nat -> nat -> nat -> nat) (coeffs : list R)
  (m : model) (order : list nat) (i : nat) :
  valid_data m -> task_0_first (n_nodes m) order -> (i < n_nodes m)%nat ->
  exists m1 m2,
    allocate_weights m = Ok m1 /\ run_tasks order m1 = Ok m2 /\
    term_C m2 coeffs i =
      mu_of coeffs i
      * Rsum (seq 0 (MaxN_of_f m)) (fun n =>
          H2v m2 i n * f_of m2 coeffs i n) /\
    term_D aidx m2 coeffs i =
      Rsum (seq 0 (n_nodes m)) (fun j =>
        Rsum (seq 0 (length (decays m))) (fun u =>
          alpha_of aidx m2 coeffs u i j
          * Rsum (seq 0 (MaxN_of_f m)) (fun n =>
              H3v m2 j n u * f_of m2 coeffs i n))).
Proof.
  intros Hv Ho Hi.
  destruct (scheduled_cache m order Hv Ho)
    as (m1 & m2 & Ha & Hr & Hd & Hv' & Hok).
  exists m1, m2. split; [done|]. split; [done|].
  assert (n_nodes m2 = n_nodes m) as HD by apply Hd.
  assert (MaxN_of_f m2 = MaxN_of_f m) as HS by apply Hd.
  assert (decays m2 = decays m) as HU by apply Hd.
  rewrite <- HD, <- HS, <- HU.
  apply (compensators_of_cache aidx coeffs m2 i Hv' Hok). lia.
Qed.

(** What every successful pass of the body establishes, step after
    step, holds after a loop that returned. *)
Lemma for_range_Ok_steps {S} (P : nat -> S -> Prop) (n : nat) :
  forall (start : nat) (body : nat -> S -> result S) (s s' : S),
    (forall k s s', (start <= k < start + n)%nat ->
       body k s = Ok s' -> P k s -> P (Datatypes.S k) s') ->
    for_range start n body s = Ok s' -> P start s -> P (start + n)%nat s'.
Proof.
  induction n as [|n IH]; intros start body s s' Hb Hr Hs.
  - cbn in Hr. injection Hr as <-. by rewrite Nat.add_0_r.
  - cbn [for_range] in Hr. apply bind_Ok_inv in Hr as (s1 & H1 & Hr).
    replace (start + Datatypes.S n)%nat with (Datatypes.S start + n)%nat
      by lia.
    apply (IH (Datatypes.S start) body s1 s').
    + intros k a a' Hk. apply Hb. lia.
    + exact Hr.
    + apply (Hb start s s1); [lia|done..].
Qed.

Lemma wr_Ok_inv {A} (a a' : list A) (i : nat) (v : A) :
  wr a i v = Ok a' -> (i < length a)%nat /\ a' = <[i := v]> a.
Proof. unfold wr. case_decide; [|done]. intros [= <-]. done. Qed.

(** The loop that reads the origins of the sorted events through the
    index of the sort, when it returns. *)
Lemma type_loop_inv (idx pre ty : list nat) (M : nat) :
  for_range 1 M (fun k ty => ix ← rd idx k; v ← rd pre ix; wr ty k v)
    (replicate (M + 1) 0%nat) = Ok ty ->
  length ty = (M + 1)%nat /\ get 0%nat ty 0 = 0%nat /\
  forall k, (1 <= k <= M)%nat ->
    get 0%nat ty k = get 0%nat pre (get 0%nat idx k).
Proof.
  intros Hr.
  apply (for_range_Ok_steps
    (fun n (ty : list nat) =>
       length ty = (M + 1)%nat /\ get 0%nat ty 0 = 0%nat /\
       forall k, (1 <= k < n)%nat ->
         get 0%nat ty k = get 0%nat pre (get 0%nat idx k))) in Hr.
  - destruct Hr as (L & E0 & E). split; [done|]. split; [done|].
    intros k Hk. apply E. lia.
  - intros k a a' Hk Hb (L & E0 & E).
    apply bind_Ok_inv in Hb as (ix & Hix & Hb).
    apply bind_Ok_inv in Hb as (v & Hv & Hb).
    apply wr_Ok_inv in Hb as [Hlt ->].
    apply rd_Ok_inv in Hix. apply rd_Ok_inv in Hv.
    rewrite length_insert. split; [done|]. split.
    + by rewrite get_insert_ne by lia.
    + intros c Hc. destruct (decide (c = k)) as [->|Hne].
      * rewrite get_insert_eq by done.
        rewrite (get_lookup _ _ _ _ Hix). by rewrite (get_lookup _ _ _ _ Hv).
      * rewrite get_insert_ne by done. apply E. lia.
  - rewrite length_replicate. split; [done|]. split; [|intros; lia].
    unfold get. by rewrite lookup_replicate_2 by lia.
Qed.

(** The model that [set_data] returns, when it returns. *)
Lemma set_data_Ok_inv (sort : list R -> list R * list nat) (m m1 : model)
  (streams : list (list R)) (gn : list nat) (T : R) :
  set_data sort m streams gn T = Ok m1 ->
  (sum_counts streams + 1 <= length gn)%nat /\
  decays m1 = decays m /\ lags m1 = lags m /\ MaxN_of_f m1 = MaxN_of_f m /\
  n_nodes m1 = ulong_decr (length streams) /\
  n_total_jumps m1 = sum_counts streams /\
  n_jumps_per_node m1 = map length streams /\
  end_time m1 = T /\ weights_computed m1 = false /\
  global_timestamps m1 = (sort (merged_input streams)).1 /\
  global_n m1 = take (sum_counts streams + 1) gn /\
  for_range 1 (sum_counts streams)
    (fun k ty =>
       ix ← rd (sort (merged_input streams)).2 k;
       v ← rd (merged_tags streams) ix; wr ty k v)
    (replicate (sum_counts streams + 1) 0%nat) = Ok (type_n m1).
Proof.
  intros H.
  destruct (decide (sum_counts streams + 1 <= length gn)%nat) as [Lgn|Lgn].
  2:{ exfalso. unfold set_data in H.
      cbn [n_total_jumps n_nodes timestamps n_jumps_per_node
           ModelHawkesSingle_set_data] in H.
      rewrite (copy_global_n_short gn (sum_counts streams + 1)) in H;
        [done | by rewrite length_replicate | lia..]. }
  split; [done|]. unfold set_data in H.
  cbn [n_total_jumps n_nodes timestamps n_jumps_per_node
       ModelHawkesSingle_set_data] in H.
  rewrite copy_global_n in H by done. rewrite bind_Ok in H. cbv beta in H.
  rewrite merge_streams in H. rewrite bind_Ok in H. cbv beta iota in H.
  destruct (sort (merged_input streams)) as [sorted tmp_index] eqn:Hs.
  apply bind_Ok_inv in H as (ty & Hty & H). injection H as <-.
  cbn. by repeat (split; [done|]).
Qed.

(** X11. When [set_data] returns: the array it has handed to the sort
    is the origin [0] followed by the streams in the order supplied
    (the auxiliary stream included); [global_timestamps] is the sorted
    array; [type_n] has [M + 1] entries, [type_n[0]] is 0 and
    [type_n[k]], for [1 <= k <= M], is the origin [j + 1] (or the 0 of
    the origin) of the element that the sort has moved to position
    [k]; [global_n] is the first [M + 1] entries of [_global_n], which
    has that many; the last stream is no modelled dimension
    ([n_nodes--]) and the weights are to be computed again. *)
Theorem set_data_merges_and_tags
  (sort : list R -> list R * list nat) (m m1 : model)
  (streams : list (list R)) (gn : list nat) (T : R) :
  set_data sort m streams gn T = Ok m1 ->
  n_nodes m1 = ulong_decr (length streams) /\
  n_total_jumps m1 = sum_counts streams /\
  end_time m1 = T /\ weights_computed m1 = false /\
  global_timestamps m1 = (sort (merged_input streams)).1 /\
  (sum_counts streams + 1 <= length gn)%nat /\
  global_n m1 = take (sum_counts streams + 1) gn /\
  length (type_n m1) = (sum_counts streams + 1)%nat /\
  tyf m1 0 = 0%nat /\
  forall k, (1 <= k <= sum_counts streams)%nat ->
    tyf m1 k =
    get 0%nat (merged_tags streams)
      (get 0%nat (sort (merged_input streams)).2 k).
Proof.
  intros H.
  destruct (set_data_Ok_inv _ _ _ _ _ _ H)
    as (Lgn & _ & _ & _ & HD & HM & _ & HT & Hw & Hts & Hgn & Hty).
  destruct (type_loop_inv _ _ _ _ Hty) as (Lty & E0 & E).
  split; [done|]. split; [done|]. split; [done|]. split; [done|].
  split; [done|]. split; [done|]. split; [done|]. split; [done|].
  split; [exact E0 | exact E].
Qed.

Lemma set_data_merges_and_tags_witness :
  n_nodes ex_one = 1%nat /\ n_total_jumps ex_one = 1%nat /\
  end_time ex_one = 2 /\ weights_computed ex_one = false /\
  global_timestamps ex_one = [0; 1] /\
  (2 <= length [0; 0]%nat)%nat /\ global_n ex_one = [0; 0]%nat /\
  length (type_n ex_one) = 2%nat /\ tyf ex_one 0 = 0%nat /\
  forall k, (1 <= k <= 1)%nat -> tyf ex_one k = 1%nat.
Proof.
  pose proof (set_data_merges_and_tags example_sort (constructed [1] [0] 1)
                ex_one [[1]; []] [0; 0]%nat 2
                (set_data_ex_one example_sort example_sort_01)) as H.
  revert H. change (merged_input [[1]; []]) with [0; 1].
  rewrite example_sort_01.
  intros (H1 & H2 & H3 & H4 & H5 & H6 & H7 & H8 & H9 & H10).
  repeat (split; [done|]). intros k Hk. rewrite H10 by (cbn; lia).
  assert (k = 1%nat) as -> by lia. reflexivity.
Defined.

(** X15. [set_data] followed by the weight computation: when
    [set_data] returns, for at least two streams (one modelled
    dimension and the auxiliary stream) with at least one event, a
    state below [MaxN_of_f] for the origin and for every event, as
    many lags as decays, none negative, and a sort whose result is in
    increasing order and has the length of its input, the model that
    [set_data] returns is well formed, and [compute_weights] runs on
    it without error, so that the first [loss] or [grad] finds its
    weights. *)
Theorem bound_data_computes_weights
  (sort : list R -> list R * list nat) (m m1 : model)
  (streams : list (list R)) (gn : list nat) (T : R) :
  set_data sort m streams gn T = Ok m1 ->
  (2 <= length streams)%nat -> (1 <= sum_counts streams)%nat ->
  (forall k, (k <= sum_counts streams)%nat ->
     (get 0%nat gn k < MaxN_of_f m)%nat) ->
  length (lags m) = length (decays m) ->
  (forall u, (u < length (lags m))%nat -> 0 <= get 0 (lags m) u) ->
  sorts_with_index sort (merged_input streams) ->
  valid_data m1 /\ weights_computed m1 = false /\
  (compute_weights m1).1 = Ok () /\
  weights_computed (compute_weights m1).2 = true.
Proof.
  intros H HD HM Hst Llag Hlag (Ls & _ & _ & Hsorted).
  assert (length (merged_input streams) = (sum_counts streams + 1)%nat)
    as Lin.
  { unfold merged_input. cbn. rewrite length_concat_streams. lia. }
  rewrite Lin in *.
  destruct (set_data_Ok_inv _ _ _ _ _ _ H)
    as (Lgn & Hdec & Hlags & HS & HD1 & HM1 & HJ & HT & Hw & Hts & Hgn & Hty).
  destruct (type_loop_inv _ _ _ _ Hty) as (Lty & _).
  assert (valid_data m1) as Hv.
  { constructor.
    - rewrite HD1. destruct (length streams) as [|[|n]]; cbn; lia.
    - lia.
    - rewrite Hts, HM1. done.
    - rewrite HM1. done.
    - rewrite Hgn, HM1, length_take. lia.
    - intros a b Hab. unfold tsf. rewrite Hts. apply Hsorted. lia.
    - by rewrite Hlags, Hdec.
    - rewrite Hlags. done.
    - intros k Hk. unfold gnf. rewrite Hgn, HS. unfold get.
      rewrite lookup_take_lt by lia. apply Hst. lia.
    - rewrite HD1, HJ, length_map.
      destruct (length streams) as [|n]; cbn; lia. }
  split; [exact Hv|]. split; [done|].
  destruct (compute_weights_ok _ Hv) as (m' & Hc & _ & _ & Hw').
  rewrite Hc. done.
Qed.

Lemma bound_data_computes_weights_witness :
  valid_data ex_one /\ weights_computed ex_one = false /\
  (compute_weights ex_one).1 = Ok () /\
  weights_computed (compute_weights ex_one).2 = true.
Proof.
  apply (bound_data_computes_weights example_sort (constructed [1] [0] 1)
           ex_one [[1]; []] [0; 0]%nat 2
           (set_data_ex_one example_sort example_sort_01)).
  - cbn. lia.
  - cbn. lia.
  - intros k Hk. cbn in Hk. small_index k; cbn; lia.
  - done.
  - intros u Hu. cbn in Hu. small_index u. unfold get. cbn. lra.
  - exact example_sort_01_sorts.
Defined.

Lemma ex_tri_valid : valid_data ex_tri.
Proof.
  constructor; cbn; try lia; try done.
  - intros a b Hab. small_index a; small_index b;
      unfold tsf, get; cbn; lra.
  - intros u Hu. small_index u. unfold get. cbn. lra.
  - intros k Hk. small_index k; unfold gnf, get; cbn; lia.
Qed.

Lemma ex_tri_task_0_first : task_0_first (n_nodes ex_tri) [0; 2; 1]%nat.
Proof. split; [by eexists|]. cbn. apply perm_skip, perm_swap. Qed.

Lemma allocate_weights_shape (m m1 : model) :
  valid_data m -> allocate_weights m = Ok m1 ->
  data_eq m m1 /\ g m1 !! 0%nat = Some (zeros (cells m)) /\
  forall i, (i < n_nodes m)%nat ->
    G m1 !! i = Some (zeros (cells m)) /\
    H1 m1 !! i = Some (zeros (MaxN_of_f m)) /\
    H2 m1 !! i = Some (zeros (MaxN_of_f m)) /\
    H3 m1 !! i = Some (zeros (MaxN_of_f m * length (decays m))).
Proof.
  intros Hv Ha. pose proof (vd_nodes m Hv) as HD.
  unfold allocate_weights in Ha. rewrite decide_False in Ha by lia.
  rewrite (rd_get 0%nat) in Ha by (apply (vd_counts m Hv)).
  rewrite bind_Ok in Ha. cbv beta zeta in Ha. injection Ha as <-.
  split; [by repeat split|]. cbn. split.
  - rewrite list_lookup_insert_eq; [done|]. rewrite length_replicate. lia.
  - intros i Hi. by rewrite !lookup_replicate_2 by done.
Qed.

(** The order is needed: on [ex_two], when the task of dimension 1
    runs before the task of dimension 0 it reads a [g] that is still
    zero, and the cell [G_1(3, 0, 0)] stays at 0 where the integral of
    the kernel is [exp (-1) - exp (-2)]. *)
Lemma stale_G_when_task_1_runs_first :
  exists m1 m2,
    allocate_weights ex_two = Ok m1 /\ run_tasks [1; 0]%nat m1 = Ok m2 /\
    Gv m2 1 3 0 0 = 0 /\
    lagged_integral ex_two 1 0 0 3 = exp (- 1) - exp (- 2).
Proof.
  assert (exists m1, allocate_weights ex_two = Ok m1 /\ m1 = m1)
    as (m1 & Ha & _) by (eexists; split; reflexivity).
  exists m1.
  assert (tsf ex_two 1 = 1) as E1 by reflexivity.
  assert (tsf ex_two 2 = 2) as E2 by reflexivity.
  assert (tm ex_two 3 = 3) as T3 by reflexivity.
  assert (tm ex_two 2 = 2) as T2 by reflexivity.
  assert (tyf ex_two 1 = 1%nat) as Y1 by reflexivity.
  assert (tyf ex_two 2 = 2%nat) as Y2 by reflexivity.
  assert (lag_of ex_two 0 = 0) as L0 by reflexivity.
  assert (lagged_integral ex_two 1 0 0 3 = exp (- 1) - exp (- 2)) as Hli.
  { unfold lagged_integral, Rsum.
    cbn [n_total_jumps ex_two bound_model seq foldr].
    rewrite (decide_True (P := tyf ex_two 1 = _ /\ _))
      by (unfold eligible; rewrite Y1, E1, T3; split; [reflexivity | lra]).
    rewrite (decide_True (P := (2 <= 3)%nat /\ _))
      by (unfold eligible; cbn [Nat.sub]; rewrite E1, T2; split; [lia | lra]).
    rewrite (decide_False (P := tyf ex_two 2 = _ /\ _))
      by (rewrite Y2; intros [? _]; lia).
    cbn [Nat.sub]. rewrite E1, T2, T3.
    replace (- (1) * (2 - 0 - 1)) with (- 1) by lra.
    replace (- (1) * (3 - 0 - 1)) with (- 2) by lra. lra. }
  destruct (allocate_weights_shape ex_two m1 ex_two_valid Ha)
    as (Hd & Hg0 & Hbufs).
  pose proof (valid_data_eq _ _ Hd ex_two_valid) as Hv1.
  assert (n_nodes m1 = 2%nat) as HD by apply Hd.
  assert (n_total_jumps m1 = 2%nat) as HM by apply Hd.
  assert (MaxN_of_f m1 = MaxN_of_f ex_two) as HS by apply Hd.
  assert (decays m1 = decays ex_two) as HU by apply Hd.
  assert (cells m1 = cells ex_two) as Hcells.
  { unfold cells. rewrite HD, HU.
    by replace (n_total_jumps m1) with (n_total_jumps ex_two)
      by (symmetry; apply Hd). }
  destruct (Hbufs 0%nat ltac:(cbn; lia)) as (HG0 & H10 & H20 & H30).
  destruct (Hbufs 1%nat ltac:(cbn; lia)) as (HG1 & H11 & H21 & H31).
  destruct (compute_weights_dim_i_spec m1 1 (zeros (cells ex_two))
              (zeros (cells ex_two)) Hv1)
    as (g' & G' & h1 & h2 & h3 & Hc & Lg' & LG' & HGr & _ & Hsame & _);
    [lia | done | by rewrite length_zeros
     | done | by rewrite length_zeros
     | by rewrite HS | by rewrite HS | by rewrite HS, HU |].
  rewrite (Hsame ltac:(lia)) in *. clear Hsame.
  set (m1' := with_cache m1 _ _ _ _ _) in Hc.
  assert (valid_data m1') as Hv1'
    by (apply (valid_data_eq m1); [by repeat split | done]).
  destruct (compute_weights_dim_i_spec m1' 0 (zeros (cells ex_two))
              (zeros (cells ex_two)) Hv1')
    as (g2 & G2 & k1 & k2 & k3 & Hc' & _).
  { cbn. lia. }
  { subst m1'. cbn. apply list_lookup_insert_eq.
    by apply lookup_lt_Some in Hg0. }
  { by rewrite length_zeros. }
  { subst m1'. cbn. by rewrite list_lookup_insert_ne by done. }
  { by rewrite length_zeros. }
  { subst m1'. cbn. by rewrite list_lookup_insert_ne, HS by done. }
  { subst m1'. cbn. by rewrite list_lookup_insert_ne, HS by done. }
  { subst m1'. cbn. by rewrite list_lookup_insert_ne, HS, HU by done. }
  eexists. split; [done|]. split.
  { cbn [run_tasks]. rewrite Hc, bind_Ok, Hc', bind_Ok. reflexivity. }
  split; [|exact Hli].
  unfold Gv, G_buf. cbn [G with_cache]. subst m1'. cbn [G with_cache].
  rewrite (get_lookup [] _ 1 G').
  2:{ rewrite list_lookup_insert_ne by done.
      apply list_lookup_insert_eq. by apply lookup_lt_Some in HG1. }
  destruct (data_eq_funs _ _ Hd)
    as (_ & _ & _ & _ & Hgi & Hebt & Hfs & _ & Hdec & Hlag & _).
  change (get_index (with_cache _ _ _ _ _ _) 3 0 0)
    with (get_index m1 3 0 0).
  rewrite (HGr 0%nat 0%nat 3%nat) by (rewrite ?HU, ?HD, ?HM; cbn; lia).
  rewrite get_zeros, Rmult_0_r, Rplus_0_l.
  rewrite Hfs, Hlag, Hdec, L0. unfold fold_sum, Rsum.
  cbn [n_total_jumps ex_two bound_model seq foldr].
  rewrite (decide_False (P := tyf ex_two 1 = _ /\ _)).
  2:{ intros [_ [_ Hn]]. apply Hn. split; [lia|].
      unfold eligible. cbn [Nat.sub]. rewrite E1, T2. lra. }
  rewrite (decide_False (P := tyf ex_two 2 = _ /\ _))
    by (rewrite Y2; intros [? _]; lia).
  lra.
Qed.

Lemma G_and_H2_shared_when_task_0_first_witness :
  exists m1 m2,
    allocate_weights ex_tri = Ok m1 /\ run_tasks [0; 2; 1]%nat m1 = Ok m2 /\
    (forall k j u, (1 <= k <= n_total_jumps ex_tri + 1)%nat ->
       (j < n_nodes ex_tri)%nat -> (u < length (decays ex_tri))%nat ->
       Gv m2 2 k j u = Gv m2 1 k j u) /\
    (forall n, H2v m2 2 n = H2v m2 1 n).
Proof.
  apply (G_and_H2_shared_when_task_0_first ex_tri [0; 2; 1]%nat 2 1
           ex_tri_valid ex_tri_task_0_first); cbn; lia.
Defined.

Lemma G_is_the_lagged_integral_when_task_0_first_witness :
  exists m1 m2,
    allocate_weights ex_tri = Ok m1 /\ run_tasks [0; 2; 1]%nat m1 = Ok m2 /\
    Gv m2 1 3 0 0 =
    lagged_integral ex_tri (decay_of ex_tri 0) (lag_of ex_tri 0) 0 3.
Proof.
  apply (G_is_the_lagged_integral_when_task_0_first ex_tri [0; 2; 1]%nat
           1 0 0 3 ex_tri_valid ex_tri_task_0_first); cbn; try lia.
  - unfold tsf, get. cbn. lra.
  - unfold decay_of, get. cbn. lra.
Defined.

Lemma compensators_from_statistics_when_task_0_first_witness :
  exists m1 m2,
    allocate_weights ex_tri = Ok m1 /\ run_tasks [0; 2; 1]%nat m1 = Ok m2 /\
    term_C m2 ex_tri_coeffs 1 =
      mu_of ex_tri_coeffs 1
      * Rsum (seq 0 (MaxN_of_f ex_tri)) (fun n =>
          H2v m2 1 n * f_of m2 ex_tri_coeffs 1 n) /\
    term_D example_alpha_index m2 ex_tri_coeffs 1 =
      Rsum (seq 0 (n_nodes ex_tri)) (fun j =>
        Rsum (seq 0 (length (decays ex_tri))) (fun u =>
          alpha_of example_alpha_index m2 ex_tri_coeffs u 1 j
          * Rsum (seq 0 (MaxN_of_f ex_tri)) (fun n =>
              H3v m2 j n u * f_of m2 ex_tri_coeffs 1 n))).
Proof.
  apply (compensators_from_statistics_when_task_0_first example_alpha_index
           ex_tri_coeffs ex_tri [0; 2; 1]%nat 1
           ex_tri_valid ex_tri_task_0_first).
  cbn. lia.
Defined.
